(** * BeachBook: the scripts of the pages

    A shallow embedding of the scripts of the knowledge-graph application:
    the chat page ([submitQuery], [displayQueries], [updateAuditTrail] and
    the upload form), the journal page, the React components ([App],
    [ForceGraph], [QueryPanel], [DocumentUpload]) and the D3 view
    ([updateGraph] and its drag listeners), together with the JavaScript
    string primitives they call ([trim], [split], [includes], [indexOf],
    [replace] with a global regular expression, [match], [slice],
    [padStart]).

    Conventions.
    - A JavaScript string is the list of its UTF-16 code units ([list N]).
    - The containers of the page that the script writes with
      [innerHTML += ...] ([chatHistory], [auditTrail]) are kept as the list
      of the blocks appended so far, in order; [cypherQueries], which is
      overwritten, holds its current blocks.
    - The reply [fetch('/query')] settles with and the reading of the clock
      are inputs of [submitQuery].  [submitQuery] with its reply is one
      request from the call to the callbacks; [ask] and [settled] are its
      two halves, for requests that overlap.
    - An exception raised in a [then] callback keeps the writes made before
      it and runs the [catch] callback, as a rejected promise does. *)

From Stdlib Require Import NArith Ascii String List Lia.
From stdpp Require Import base list pretty.

Local Open Scope N_scope.
Local Open Scope nat_scope.
Local Open Scope list_scope.

(** ** Strings *)

Abbreviation jstring := (list N).

Fixpoint str (s : string) : jstring :=
  match s with
  | EmptyString => []
  | String a s' => N_of_ascii a :: str s'
  end.

(** Code units the script names. *)
Definition LF : N := 10%N.
Definition SPACE : N := 32%N.
Definition HYPHEN : N := 45%N.
Definition BACKSLASH : N := 92%N.

(** WhiteSpace and LineTerminator code units, the ones [trim] strips. *)
Definition isWhiteSpace (c : N) : bool :=
  ((9 <=? c) && (c <=? 13) || (c =? 32) || (c =? 160) || (c =? 5760)
   || (8192 <=? c) && (c <=? 8202) || (c =? 8232) || (c =? 8233)
   || (c =? 8239) || (c =? 8287) || (c =? 12288) || (c =? 65279))%N.

Fixpoint trimStart (s : jstring) : jstring :=
  match s with
  | [] => []
  | c :: s' => if isWhiteSpace c then trimStart s' else s
  end.

Definition trimEnd (s : jstring) : jstring := rev (trimStart (rev s)).

(** [s.trim()] *)
Definition trim (s : jstring) : jstring := trimEnd (trimStart s).

(** A string is truthy when it is not empty. *)
Definition truthy (s : jstring) : bool :=
  match s with [] => false | _ :: _ => true end.

(** An optional string field: [undefined] and the empty string are falsy. *)
Definition truthyField (f : option jstring) : bool :=
  match f with Some s => truthy s | None => false end.

Fixpoint eqs (a b : jstring) : bool :=
  match a, b with
  | [], [] => true
  | x :: a', y :: b' => (x =? y)%N && eqs a' b'
  | _, _ => false
  end.

(** [s.startsWith(pat)], the test a matcher makes at one position. *)
Fixpoint startsWith (pat s : jstring) : bool :=
  match pat, s with
  | [], _ => true
  | p :: pat', c :: s' => (p =? c)%N && startsWith pat' s'
  | _ :: _, [] => false
  end.

(** [s.includes(pat)] *)
Fixpoint includes (pat s : jstring) : bool :=
  startsWith pat s
  || match s with [] => false | _ :: s' => includes pat s' end.

(** [s.split(sep)] for a separator that is not empty: the pieces between
    the occurrences of [sep], found left to right without overlap.  [skip]
    counts the code units of the separator still to be passed over. *)
Fixpoint splitFrom (sep : jstring) (skip : nat) (s : jstring) : list jstring :=
  match s with
  | [] => [[]]
  | c :: s' =>
      match skip with
      | S k => splitFrom sep k s'
      | O =>
          if startsWith sep s then [] :: splitFrom sep (length sep - 1) s'
          else match splitFrom sep 0 s' with
               | piece :: pieces => (c :: piece) :: pieces
               | [] => [[c]]
               end
      end
  end.

Definition split (sep s : jstring) : list jstring := splitFrom sep 0 s.

(** [pieces.join(sep)] *)
Fixpoint join (sep : jstring) (pieces : list jstring) : jstring :=
  match pieces with
  | [] => []
  | [p] => p
  | p :: rest => p ++ sep ++ join sep rest
  end.

(** [self.indexOf(doc)] on an array of strings; [None] stands for -1. *)
Fixpoint indexOf (self : list jstring) (doc : jstring) : option nat :=
  match self with
  | [] => None
  | x :: rest =>
      if eqs x doc then Some 0
      else match indexOf rest doc with
           | Some i => Some (S i)
           | None => None
           end
  end.

(** [arr.filter((x, index) => f x index)], starting at index [i]. *)
Fixpoint filterFrom {A} (f : A -> nat -> bool) (i : nat) (l : list A) : list A :=
  match l with
  | [] => []
  | x :: l' =>
      if f x i then x :: filterFrom f (S i) l' else filterFrom f (S i) l'
  end.

(** Number to string, for the numbers the script prints (indices, HTTP
    status codes). *)
Definition decimal (n : nat) : jstring := str (pretty n).

(** ** Regular expressions of the script *)

(** SyntaxCharacter of the pattern grammar of the language, in the order
    the grammar lists them: [^ $ \ . * + ? ( ) [ ] { } |].  A pattern
    character is any other code unit. *)
Definition isSyntaxCharacter (c : N) : bool :=
  existsb (N.eqb c) (str "^$\.*+?()[]{}|").

(** The class [[.*+?^${}()|[\]\\]] of the escaping replace, as the script
    writes it. *)
Definition inEscapeClass (c : N) : bool :=
  existsb (N.eqb c) (str ".*+?^${}()|[]\").

(** [doc.replace(/[.*+?^${}()|[\]\\]/g, '\\$&')] *)
Fixpoint escapeRegExp (doc : jstring) : jstring :=
  match doc with
  | [] => []
  | c :: doc' =>
      if inEscapeClass c then BACKSLASH :: c :: escapeRegExp doc'
      else c :: escapeRegExp doc'
  end.

(** A thrown exception carries its message. *)
Inductive Result (A : Type) : Type :=
  | Ok (a : A)
  | Throw (message : jstring).
Arguments Ok {A} a.
Arguments Throw {A} message.

(** [new RegExp(source, 'g')] on the patterns built from pattern characters
    and identity escapes of syntax characters: the literal text the pattern
    matches.  Other patterns are outside what the script constructs
    ([RegExp_escapeRegExp]) and are reported as thrown. *)
Fixpoint RegExp (source : jstring) : Result jstring :=
  match source with
  | [] => Ok []
  | c :: rest =>
      if (c =? BACKSLASH)%N then
        match rest with
        | d :: rest' =>
            if isSyntaxCharacter d then
              match RegExp rest' with
              | Ok lit => Ok (d :: lit)
              | Throw m => Throw m
              end
            else Throw (str "Invalid regular expression")
        | [] => Throw (str "Invalid regular expression")
        end
      else if isSyntaxCharacter c then Throw (str "Invalid regular expression")
      else match RegExp rest with
           | Ok lit => Ok (c :: lit)
           | Throw m => Throw m
           end
  end.

(** [s.replace(regex, rep)] for a global regex matching the literal [lit],
    which is not empty, and a replacement without [$]: every occurrence
    found left to right without overlap is replaced.  [skip] counts the
    code units of the current match still to be passed over. *)
Fixpoint replaceFrom (lit rep : jstring) (skip : nat) (s : jstring) : jstring :=
  match s with
  | [] => []
  | c :: s' =>
      match skip with
      | S k => replaceFrom lit rep k s'
      | O =>
          if startsWith lit s then rep ++ replaceFrom lit rep (length lit - 1) s'
          else c :: replaceFrom lit rep 0 s'
      end
  end.

(** The empty pattern matches once at every position, the end included. *)
Fixpoint replaceEmpty (rep s : jstring) : jstring :=
  match s with
  | [] => rep
  | c :: s' => rep ++ c :: replaceEmpty rep s'
  end.

Definition replace (s lit rep : jstring) : jstring :=
  match lit with
  | [] => replaceEmpty rep s
  | _ :: _ => replaceFrom lit rep 0 s
  end.


Definition bindR {A B} (r : Result A) (k : A -> Result B) : Result B :=
  match r with
  | Ok a => k a
  | Throw m => Throw m
  end.

Notation "x <- r ;;; k" := (bindR r (fun x => k))
  (at level 100, r at next level, right associativity).

(** ** The reply of the server, as the script reads it *)

Record Focus := { main_noun : option jstring; root_verb : option jstring }.

Record SemanticData := { focus : option Focus }.

Record Queries := {
  graph_context : option jstring;
  semantic_data : option SemanticData
}.

Record TechnicalDetails := { queries : option Queries }.

Record Data := {
  error : option jstring;
  response : option jstring;
  technical_details : option TechnicalDetails
}.

(** [data.technical_details?.queries] *)
Definition data_queries (data : Data) : option Queries :=
  match technical_details data with
  | Some td => queries td
  | None => None
  end.

(** [data.technical_details?.queries?.graph_context] *)
Definition data_graph_context (data : Data) : option jstring :=
  match data_queries data with
  | Some q => graph_context q
  | None => None
  end.

(** ** Citations: the body of [submitQuery]'s [then] callback *)

Definition FOUND_IN : jstring := str "Found in:".

(** [line.split('Found in:')[1].trim()].  The lines that reach it include
    the separator, so piece 1 exists ([split_second_piece]). *)
Definition docOfLine (line : jstring) : jstring :=
  trim (nth 1 (split FOUND_IN line) []).

(** [.filter((doc, index, self) => self.indexOf(doc) === index)] *)
Definition firstOccurrences (self : list jstring) : list jstring :=
  filterFrom
    (fun doc index =>
       match indexOf self doc with
       | Some i => Nat.eqb i index
       | None => false
       end)
    0 self.

(** [const docs = lines.filter(...).map(...).filter(...)] *)
Definition contextDocs (graph_context : jstring) : list jstring :=
  let lines := split [LF] graph_context in
  firstOccurrences
    (map docOfLine (List.filter (fun line => includes FOUND_IN line) lines)).

(** [`[${index + 1}]`] *)
Definition marker (index : nat) : jstring :=
  str "[" ++ decimal (index + 1) ++ str "]".

(** [`${index + 1}. ${doc}`] *)
Definition refLine (index : nat) (doc : jstring) : jstring :=
  decimal (index + 1) ++ str ". " ++ doc.

(** [docRefs.add(x)]: a Set keeps insertion order and ignores a value it
    already holds. *)
Definition setAdd (x : jstring) (s : list jstring) : list jstring :=
  if existsb (eqs x) s then s else s ++ [x].

(** The two variables the loop updates; [processedResponse] starts as
    [data.response], which is [undefined] when the field is missing. *)
Record Cited := {
  processedResponse : option jstring;
  docRefs : list jstring
}.

(** [processedResponse.replace(regex, rep)] *)
Definition replaceCall (receiver : option jstring) (lit rep : jstring)
  : Result jstring :=
  match receiver with
  | Some s => Ok (replace s lit rep)
  | None => Throw (str "Cannot read properties of undefined (reading 'replace')")
  end.

(** [docs.forEach((doc, index) => { ... })] from index [index] on. *)
Fixpoint forEachDoc (docs : list jstring) (index : nat) (st : Cited)
  : Result Cited :=
  match docs with
  | [] => Ok st
  | doc :: rest =>
      regex <- RegExp (escapeRegExp doc) ;;;
      text <- replaceCall (processedResponse st) regex (marker index) ;;;
      forEachDoc rest (S index)
        {| processedResponse := Some text;
           docRefs := setAdd (refLine index doc) (docRefs st) |}
  end.

Definition citations (data : Data) : Result Cited :=
  let init := {| processedResponse := response data; docRefs := [] |} in
  if truthyField (data_graph_context data) then
    forEachDoc (contextDocs (default [] (data_graph_context data))) 0 init
  else Ok init.

(** [`${v}`] for a value that is a string or [undefined]. *)
Definition display (v : option jstring) : jstring :=
  match v with
  | Some s => s
  | None => str "undefined"
  end.

(** ** The audit trail's regular expression, [/- ([^-\n]+\.txt)/g] *)

Definition DOT_TXT : jstring := str ".txt".

(** The class [[^-\n]]. *)
Definition inClass (c : N) : bool :=
  negb (c =? HYPHEN)%N && negb (c =? LF)%N.

(** How many code units the greedy [[^-\n]+] takes at the start of [s]. *)
Fixpoint classRun (s : jstring) : nat :=
  match s with
  | [] => 0
  | c :: s' => if inClass c then S (classRun s') else 0
  end.

(** Backtracking of [[^-\n]+] before [\.txt]: the quantifier gives back one
    code unit at a time, from [k] down to one, until [.txt] follows. *)
Fixpoint backtrack (k : nat) (s : jstring) : option nat :=
  match k with
  | 0 => None
  | S k' => if startsWith DOT_TXT (drop k s) then Some k else backtrack k' s
  end.

(** The match of the expression that starts at the first code unit of [s]. *)
Definition matchAt (s : jstring) : option jstring :=
  match s with
  | c0 :: c1 :: rest =>
      if (c0 =? HYPHEN)%N && (c1 =? SPACE)%N then
        match backtrack (classRun rest) rest with
        | Some k => Some (c0 :: c1 :: take (k + 4) rest)
        | None => None
        end
      else None
  | _ => None
  end.

(** All matches, left to right; after a match the search resumes behind
    it.  [skip] counts the code units of the match still to be passed. *)
Fixpoint matchAllFrom (skip : nat) (s : jstring) : list jstring :=
  match s with
  | [] => []
  | _ :: s' =>
      match skip with
      | S k => matchAllFrom k s'
      | O =>
          match matchAt s with
          | Some m => m :: matchAllFrom (length m - 1) s'
          | None => matchAllFrom 0 s'
          end
      end
  end.

(** [s.match(/- ([^-\n]+\.txt)/g)]: [null] when nothing matches. *)
Definition matchDocs (s : jstring) : option (list jstring) :=
  match matchAllFrom 0 s with
  | [] => None
  | ms => Some ms
  end.

(** [graphContext?.match(...)?.map(d => d.slice(2)) || []] *)
Definition auditDocs (graphContext : option jstring) : list jstring :=
  match graphContext with
  | Some s =>
      match matchDocs s with
      | Some ms => map (drop 2) ms
      | None => []
      end
  | None => []
  end.

(** ** The page *)

Inductive ChatBlock :=
  | UserMessage (queryText : jstring)
  | BotMessage (answer : jstring) (references : list jstring)
  | ErrorMessage (message : jstring).

Inductive QueryBlock :=
  | NoQueriesAlert
  | GraphContextBlock (graphContext : jstring)
  | QueryAnalysisBlock (semantic : SemanticData).

Inductive FocusItem :=
  | MainTopic (noun : jstring)
  | Action (verb : jstring).

(** A block of the audit trail: the resource entry of [updateAuditTrail]
    (the list of documents is shown when it is not empty, the focus when
    [semantic_data] is there) or the error entry of the [catch] callback. *)
Inductive AuditBlock :=
  | ResourceEntry (timestamp queryText : jstring) (docs : list jstring)
      (queryFocus : option (list FocusItem))
  | ErrorEntry (timestamp queryText message : jstring).

Record Page := {
  chatHistory : list ChatBlock;
  cypherQueries : list QueryBlock;
  auditTrail : list AuditBlock;
  queryInput : jstring;
  posted : list jstring
}.

(** Statements of a callback: they update the page and may throw; what was
    written before a throw stays. *)
Definition Script (A : Type) : Type := Page -> Page * Result A.

Definition ret {A} (a : A) : Script A := fun p => (p, Ok a).

Definition throw {A} (message : jstring) : Script A :=
  fun p => (p, Throw message).

Definition bind {A B} (c : Script A) (k : A -> Script B) : Script B :=
  fun p =>
    match c p with
    | (p', Ok a) => k a p'
    | (p', Throw m) => (p', Throw m)
    end.

Definition lift {A} (r : Result A) : Script A := fun p => (p, r).

Notation "x <- c ;; k" := (bind c (fun x => k))
  (at level 100, c at next level, right associativity).
Notation "c ;; k" := (bind c (fun _ => k))
  (at level 100, right associativity).

(** [promise.catch(handler)] *)
Definition catch (c : Script unit) (handler : jstring -> Page -> Page)
  : Page -> Page :=
  fun p =>
    match c p with
    | (p', Ok _) => p'
    | (p', Throw m) => handler m p'
    end.

Definition appendChat (b : ChatBlock) : Script unit :=
  fun p =>
    ({| chatHistory := chatHistory p ++ [b];
        cypherQueries := cypherQueries p;
        auditTrail := auditTrail p;
        queryInput := queryInput p;
        posted := posted p |}, Ok tt).

Definition appendAudit (b : AuditBlock) : Script unit :=
  fun p =>
    ({| chatHistory := chatHistory p;
        cypherQueries := cypherQueries p;
        auditTrail := auditTrail p ++ [b];
        queryInput := queryInput p;
        posted := posted p |}, Ok tt).

Definition setQueries (bs : list QueryBlock) : Script unit :=
  fun p =>
    ({| chatHistory := chatHistory p;
        cypherQueries := bs;
        auditTrail := auditTrail p;
        queryInput := queryInput p;
        posted := posted p |}, Ok tt).

Definition setInput (v : jstring) : Script unit :=
  fun p =>
    ({| chatHistory := chatHistory p;
        cypherQueries := cypherQueries p;
        auditTrail := auditTrail p;
        queryInput := v;
        posted := posted p |}, Ok tt).

(** [fetch('/query', { body: JSON.stringify({query: queryText}) })] *)
Definition post (queryText : jstring) : Script unit :=
  fun p =>
    ({| chatHistory := chatHistory p;
        cypherQueries := cypherQueries p;
        auditTrail := auditTrail p;
        queryInput := queryInput p;
        posted := posted p ++ [queryText] |}, Ok tt).

(** The [<li>] items of the "Query Focus" list. *)
Definition focusItems (sd : SemanticData) : list FocusItem :=
  let field (get : Focus -> option jstring) :=
    match focus sd with
    | Some f => get f
    | None => None
    end in
  (if truthyField (field main_noun)
   then [MainTopic (default [] (field main_noun))] else [])
  ++ (if truthyField (field root_verb)
      then [Action (default [] (field root_verb))] else []).

(** The [resourceHTML] template of [updateAuditTrail]. *)
Definition resourceHTML (queryText timestamp : jstring) (data : Data)
  : AuditBlock :=
  let queries := data_queries data in
  let graphContext := data_graph_context data in
  let docs := auditDocs graphContext in
  ResourceEntry timestamp queryText docs
    (match queries with
     | Some q =>
         match semantic_data q with
         | Some sd => Some (focusItems sd)
         | None => None
         end
     | None => None
     end).

Definition updateAuditTrail (queryText timestamp : jstring) (data : Data)
  : Script unit :=
  appendAudit (resourceHTML queryText timestamp data).

Definition displayQueries (data : Data) : Script unit :=
  match data_queries data with
  | None => setQueries [NoQueriesAlert]
  | Some q =>
      let queryContent :=
        (if truthyField (graph_context q)
         then [GraphContextBlock (default [] (graph_context q))] else [])
        ++ (match semantic_data q with
            | Some sd => [QueryAnalysisBlock sd]
            | None => []
            end) in
      setQueries
        (match queryContent with
         | [] => [NoQueriesAlert]
         | _ :: _ => queryContent
         end)
  end.

(** What [fetch] settles with: a rejection, or a response whose body
    [response.json()] parses or rejects. *)
Inductive Reply :=
  | Rejected (message : jstring)
  | Response (ok : bool) (status : nat) (json : Result Data).

(** The first [then] callback. *)
Definition onResponse (reply : Reply) : Script Data :=
  match reply with
  | Rejected m => throw m
  | Response ok status json =>
      if negb ok then throw (str "HTTP error! status: " ++ decimal status)
      else lift json
  end.

(** The second [then] callback. *)
Definition onData (queryText timestamp : jstring) (data : Data) : Script unit :=
  (if truthyField (error data) then throw (default [] (error data))
   else ret tt) ;;
  setInput [] ;;
  cited <- lift (citations data) ;;
  appendChat (BotMessage (display (processedResponse cited)) (docRefs cited)) ;;
  displayQueries data ;;
  updateAuditTrail queryText timestamp data ;;
  setInput [].

(** The [catch] callback. *)
Definition onError (queryText timestamp message : jstring) (p : Page) : Page :=
  fst ((appendChat (ErrorMessage message) ;;
        appendAudit (ErrorEntry timestamp queryText message)) p).

(** [submitQuery()], with the reply [fetch] settles with and the time the
    clock shows when the audit entry is written. *)
Definition submitQuery (timestamp : jstring) (reply : Reply) (page : Page)
  : Page :=
  let queryText := trim (queryInput page) in
  if negb (truthy queryText) then page
  else
    catch
      (setInput [] ;;
       appendChat (UserMessage queryText) ;;
       post queryText ;;
       data <- onResponse reply ;;
       onData queryText timestamp data)
      (onError queryText timestamp)
      page.

Definition emptyPage : Page :=
  {| chatHistory := []; cypherQueries := []; auditTrail := [];
     queryInput := []; posted := [] |}.


(** ** Vocabulary of the properties *)

(** [x] occurs in [s]. *)
Definition substring (x s : jstring) : Prop :=
  exists pre post, s = pre ++ x ++ post.

(** Empty or white space only. *)
Definition blank (s : jstring) : Prop :=
  Forall (fun c => isWhiteSpace c = true) s.

(** The documents the citation loop of [submitQuery] runs over. *)
Definition docsOf (data : Data) : list jstring :=
  if truthyField (data_graph_context data)
  then contextDocs (default [] (data_graph_context data))
  else [].

(** [doc] is the title a [Found in:] line of the graph context gives. *)
Definition titleInContext (data : Data) (doc : jstring) : Prop :=
  exists gc line,
    data_graph_context data = Some gc
    /\ In line (split [LF] gc)
    /\ includes FOUND_IN line = true
    /\ doc = docOfLine line.

(** The text after the substitutions of the documents [docs], numbered from
    [index]: one global replace per document, in order, each on the result
    of the one before. *)
Fixpoint substitute (text : jstring) (index : nat) (docs : list jstring)
  : jstring :=
  match docs with
  | [] => text
  | doc :: rest => substitute (replace text doc (marker index)) (S index) rest
  end.

(** The reference lines of the documents [docs], numbered from [index]. *)
Fixpoint references (index : nat) (docs : list jstring) : list jstring :=
  match docs with
  | [] => []
  | doc :: rest => refLine index doc :: references (S index) rest
  end.

(** A decimal digit. *)
Definition isDigit (c : N) : Prop := (48 <= c <= 57)%N.

(** First occurrences of a list, with the elements seen so far. *)
Fixpoint dedupAfter (seen l : list jstring) : list jstring :=
  match l with
  | [] => []
  | x :: rest =>
      if existsb (eqs x) seen then dedupAfter (seen ++ [x]) rest
      else x :: dedupAfter (seen ++ [x]) rest
  end.

(** What a settled [fetch] leads to when the question was sent: the reply
    data with its citations, or the message the [catch] callback gets. *)
Definition settle (reply : Reply) : Result (Data * Cited) :=
  match reply with
  | Rejected m => Throw m
  | Response ok status json =>
      if negb ok then Throw (str "HTTP error! status: " ++ decimal status)
      else
        data <- json ;;;
        if truthyField (error data) then Throw (default [] (error data))
        else cited <- citations data ;;; Ok (data, cited)
  end.

(** A code unit that is neither the hyphen (45) nor the newline (10). *)
Definition plain (c : N) : Prop := c <> 45%N /\ c <> 10%N.

(** A name: not empty, no hyphen, no newline. *)
Definition docName (name : jstring) : Prop :=
  name <> [] /\ Forall plain name.

(** The name is taken as far as it goes: the text behind the title does not
    go on, without hyphen and newline, up to another [.txt]. *)
Definition longest (post : jstring) : Prop :=
  ~ exists ext rest, Forall plain ext /\ post = ext ++ str ".txt" ++ rest.

(** [d] is a title [<name>.txt] that stands behind "- " in the graph
    context, the name taken as far as it goes. *)
Definition patternTitle (graphContext d : jstring) : Prop :=
  exists pre name post,
    graphContext = pre ++ str "- " ++ name ++ str ".txt" ++ post
    /\ d = name ++ str ".txt"
    /\ docName name
    /\ longest post.

(** Modelled from the spec: the Answer Synthesizer runs on the server, whose
    code is not part of the page.  Section 4.4: "When context is empty,
    returns a fixed 'insufficient information' answer with no citations".
    [message] is that fixed text; the reply carries it as [response], with no
    error and with a graph context that names no document. *)
Definition insufficientInformationReply (message : jstring) (data : Data)
  : Prop :=
  truthyField (error data) = false
  /\ response data = Some message
  /\ docsOf data = [].

(** The user types [typed] into the input. *)
Definition typeIn (typed : jstring) (p : Page) : Page := fst (setInput typed p).

(** A visit of the page: one event per submission, with the text typed, the
    time the clock shows and the reply [fetch] settles with. *)
Fixpoint session (events : list (jstring * jstring * Reply)) (p : Page) : Page :=
  match events with
  | [] => p
  | (typed, timestamp, reply) :: rest =>
      session rest (submitQuery timestamp reply (typeIn typed p))
  end.

(** ** Requests that overlap

    [submitQuery] returns when it has called [fetch]; the callbacks of the
    promise run when the request settles, and the form stays enabled
    meanwhile, so a second question can be sent before the first reply is
    there and the replies can arrive in any order. *)

(** [submitQuery] up to the call of [fetch], with the question it sends, if
    it sends one. *)
Definition ask (page : Page) : Page * option jstring :=
  let queryText := trim (queryInput page) in
  if negb (truthy queryText) then (page, None)
  else
    (fst ((setInput [] ;;
           appendChat (UserMessage queryText) ;;
           post queryText) page),
     Some queryText).

(** The callbacks of the promise of one call of [submitQuery], which hold
    its [queryText]: they run when its request settles. *)
Definition settled (queryText timestamp : jstring) (reply : Reply)
    (page : Page) : Page :=
  catch
    (data <- onResponse reply ;;
     onData queryText timestamp data)
    (onError queryText timestamp)
    page.

(** The page with the questions on their way: sent and their request not
    settled yet, the oldest first. *)
Record Browsing := {
  shown : Page;
  pending : list jstring
}.

(** What happens during a visit: the user types a text and submits it, or
    types a text and leaves it in the input, or the request of the [k]-th
    question on its way settles. *)
Inductive Happening :=
  | Asks (typed : jstring)
  | Types (typed : jstring)
  | Settles (k : nat) (timestamp : jstring) (reply : Reply).

Definition happen (h : Happening) (b : Browsing) : Browsing :=
  match h with
  | Asks typed =>
      match ask (typeIn typed (shown b)) with
      | (page, Some queryText) =>
          {| shown := page; pending := pending b ++ [queryText] |}
      | (page, None) => {| shown := page; pending := pending b |}
      end
  | Types typed => {| shown := typeIn typed (shown b); pending := pending b |}
  | Settles k timestamp reply =>
      match pending b !! k with
      | Some queryText =>
          {| shown := settled queryText timestamp reply (shown b);
             pending := delete k (pending b) |}
      | None => b
      end
  end.

Definition browse (hs : list Happening) (b : Browsing) : Browsing :=
  fold_left (fun v h => happen h v) hs b.

(** ** Sample pages and replies *)

(** The page with [question] typed into the input. *)
Definition asking (question : jstring) : Page :=
  {| chatHistory := []; cypherQueries := []; auditTrail := [];
     queryInput := question; posted := [] |}.

(** A reply of the server: no error, the answer [answer], the graph context
    [gc], no semantic data. *)
Definition answerData (answer gc : jstring) : Data :=
  {| error := None;
     response := Some answer;
     technical_details :=
       Some {| queries :=
                 Some {| graph_context := Some gc; semantic_data := None |} |} |}.

(** Two documents, the title of the first ending the title of the second. *)
Definition planContext : jstring :=
  str "Found in: plan.txt" ++ [LF] ++ str "Found in: game plan.txt".

(** Two documents, the title of the second being a digit. *)
Definition digitContext : jstring :=
  str "Found in: chapter.txt" ++ [LF] ++ str "Found in: 1".


(** A reply that is an error. *)
Definition errorData (message : jstring) : Data :=
  {| error := Some message; response := None; technical_details := None |}.

(** ** Replies with a JSON body *)

(** What a [fetch] settles with, for a body that parses to an [A]: a
    rejection, or a response with its [ok] flag and what [response.json()]
    gives. *)
Inductive Fetched (A : Type) : Type :=
  | FetchRejected (message : jstring)
  | FetchResponse (ok : bool) (json : Result A).
Arguments FetchRejected {A} message.
Arguments FetchResponse {A} ok json.

(** A [class] attribute, as the list of its tokens. *)
Definition classRemove (token : jstring) (cls : list jstring) : list jstring :=
  List.filter (fun t => negb (eqs t token)) cls.

Definition classAdd (token : jstring) (cls : list jstring) : list jstring :=
  if existsb (eqs token) cls then cls else cls ++ [token].

(** [classList.replace(old, new)] *)
Definition classReplace (old new : jstring) (cls : list jstring)
  : list jstring :=
  if existsb (eqs old) cls
  then firstOccurrences (map (fun t => if eqs t old then new else t) cls)
  else cls.

Definition classContains (token : jstring) (cls : list jstring) : bool :=
  existsb (eqs token) cls.

(** ** The upload form of the chat page *)

Module Upload.

(** The body of the reply of [/upload], as the script reads it. *)
Record Data := {
  error : option jstring;
  doc_info : bool
}.

Record Form := {
  statusClass : list jstring;
  statusText : jstring;
  progressClass : list jstring;
  barWidth : jstring;
  barValueNow : nat;
  barText : jstring;
  submitDisabled : bool;
  files : list jstring;
  posted : list jstring
}.

(** The form as the template gives it. *)
Definition initial (selected : list jstring) : Form :=
  {| statusClass := [str "alert"; str "d-none"; str "mb-3"];
     statusText := [];
     progressClass := [str "progress"; str "mb-3"; str "d-none"];
     barWidth := str "0%";
     barValueNow := 0;
     barText := [];
     submitDisabled := false;
     files := selected;
     posted := [] |}.

Definition updateUploadStatus (message type : jstring) (f : Form) : Form :=
  {| statusClass :=
       classRemove (str "d-none")
         [str "alert"; str "alert-" ++ type; str "mb-3"];
     statusText := message;
     progressClass := progressClass f;
     barWidth := barWidth f;
     barValueNow := barValueNow f;
     barText := barText f;
     submitDisabled := submitDisabled f;
     files := files f;
     posted := posted f |}.

Definition updateProgress (percent : nat) (stage : jstring) (f : Form) : Form :=
  {| statusClass := statusClass f;
     statusText := statusText f;
     progressClass := classRemove (str "d-none") (progressClass f);
     barWidth := decimal percent ++ str "%";
     barValueNow := percent;
     barText := stage ++ str " (" ++ decimal percent ++ str "%)";
     submitDisabled := submitDisabled f;
     files := files f;
     posted := posted f |}.

Definition setDisabled (b : bool) (f : Form) : Form :=
  {| statusClass := statusClass f;
     statusText := statusText f;
     progressClass := progressClass f;
     barWidth := barWidth f;
     barValueNow := barValueNow f;
     barText := barText f;
     submitDisabled := b;
     files := files f;
     posted := posted f |}.

Definition showProgress (f : Form) : Form :=
  {| statusClass := statusClass f;
     statusText := statusText f;
     progressClass := classRemove (str "d-none") (progressClass f);
     barWidth := barWidth f;
     barValueNow := barValueNow f;
     barText := barText f;
     submitDisabled := submitDisabled f;
     files := files f;
     posted := posted f |}.

(** [fetch('/upload', { method: 'POST', body: formData })] *)
Definition post (file : jstring) (f : Form) : Form :=
  {| statusClass := statusClass f;
     statusText := statusText f;
     progressClass := progressClass f;
     barWidth := barWidth f;
     barValueNow := barValueNow f;
     barText := barText f;
     submitDisabled := submitDisabled f;
     files := files f;
     posted := posted f ++ [file] |}.

(** [fileInput.value = ''] *)
Definition clearFiles (f : Form) : Form :=
  {| statusClass := statusClass f;
     statusText := statusText f;
     progressClass := progressClass f;
     barWidth := barWidth f;
     barValueNow := barValueNow f;
     barText := barText f;
     submitDisabled := submitDisabled f;
     files := [];
     posted := posted f |}.

(** The two [then] callbacks: the body is parsed whatever the status is;
    the result is the message of the exception, if one is thrown. *)
Definition onData (reply : Fetched Data) (f : Form) : Form * option jstring :=
  match reply with
  | FetchRejected m => (f, Some m)
  | FetchResponse _ (Throw m) => (f, Some m)
  | FetchResponse _ (Ok data) =>
      if truthyField (error data) then (f, Some (default [] (error data)))
      else
        let f1 :=
          if doc_info data
          then updateUploadStatus
                 (str "Document uploaded and processed successfully!")
                 (str "success")
                 (updateProgress 100 (str "Complete") f)
          else f in
        (clearFiles f1, None)
  end.

(** The [catch] callback. *)
Definition onError (message : jstring) (f : Form) : Form :=
  updateProgress 0 (str "Error")
    (updateUploadStatus (str "Error: " ++ message) (str "danger") f).

(** The [submit] listener of the upload form, with the reply [fetch]
    settles with. *)
Definition submit (reply : Fetched Data) (f : Form) : Form :=
  match files f with
  | [] =>
      updateUploadStatus (str "Please select a file to upload")
        (str "warning") f
  | file :: _ =>
      let f1 :=
        post file
          (updateUploadStatus (str "Processing document...") (str "info")
             (updateProgress 20 (str "Starting upload")
                (showProgress (setDisabled true f)))) in
      let settled :=
        match onData reply f1 with
        | (f2, None) => f2
        | (f2, Some m) => onError m f2
        end in
      setDisabled false settled
  end.

(** The user picks files (or none). *)
Definition choose (selected : list jstring) (f : Form) : Form :=
  {| statusClass := statusClass f;
     statusText := statusText f;
     progressClass := progressClass f;
     barWidth := barWidth f;
     barValueNow := barValueNow f;
     barText := barText f;
     submitDisabled := submitDisabled f;
     files := selected;
     posted := posted f |}.

(** A visit: the user picks files and submits, again and again. *)
Fixpoint visit (events : list (list jstring * Fetched Data)) (f : Form) : Form :=
  match events with
  | [] => f
  | (selected, reply) :: rest => visit rest (submit reply (choose selected f))
  end.

End Upload.

(** ** The journal page *)

(** [s.padStart(targetLength, padString)]: [fill n pad rest] gives [n] code
    units of [pad] repeated, [rest] being what is left of the current copy. *)
Fixpoint fill (n : nat) (pad rest : jstring) : jstring :=
  match n with
  | 0 => []
  | S n' =>
      match rest with
      | c :: r => c :: fill n' pad r
      | [] =>
          match pad with
          | c :: r => c :: fill n' pad r
          | [] => []
          end
      end
  end.

Definition padStart (targetLength : nat) (padString s : jstring) : jstring :=
  if length s <? targetLength
  then fill (targetLength - length s) padString padString ++ s
  else s.

Module Journal.

(** [mediaRecorder.state]; the script never pauses a recorder. *)
Inductive RecorderState := Inactive | Recording.

(** An entry of [/journal/history], as the script reads it. *)
Record Entry := {
  timestamp : jstring;
  type : option jstring;
  content : option jstring;
  audio_url : option jstring
}.

Inductive Body :=
  | EntryContent (content : jstring)
  | Audio (src : jstring).

(** A block of the history: the time shown, the class and the text of the
    badge, and the body. *)
Record Block := {
  time : jstring;
  badgeClass : jstring;
  badge : jstring;
  body : Body
}.

(** The page.  [mediaRecorder] is [undefined] until a recording has
    started; [microphone] tells whether the tracks of its stream are live;
    [liveTimers] counts the intervals that still fire and [timerHeld] tells
    whether the one [recordingInterval] refers to is among them; a chunk
    of audio is kept as a number. *)
Record Page := {
  mediaRecorder : option RecorderState;
  microphone : bool;
  audioChunks : list nat;
  liveTimers : nat;
  timerHeld : bool;
  recordingSeconds : nat;
  recordingTime : jstring;
  recordingStatus : list jstring;
  recordButtonLabel : jstring;
  recordButton : list jstring;
  audioPreview : list jstring;
  recordedAudio : option (list nat);
  journalText : jstring;
  journalHistory : list Block;
  alerts : list jstring;
  postedTexts : list jstring;
  postedAudio : list (list nat)
}.

Definition START_LABEL : jstring := str "Start Recording".
Definition STOP_LABEL : jstring := str "Stop Recording".

(** The page as the template gives it, before the first history load. *)
Definition initial : Page :=
  {| mediaRecorder := None;
     microphone := false;
     audioChunks := [];
     liveTimers := 0;
     timerHeld := false;
     recordingSeconds := 0;
     recordingTime := str "0:00";
     recordingStatus := [str "text-muted"; str "d-none"];
     recordButtonLabel := START_LABEL;
     recordButton := [str "btn"; str "btn-primary"];
     audioPreview := [str "d-none"];
     recordedAudio := None;
     journalText := [];
     journalHistory := [];
     alerts := [];
     postedTexts := [];
     postedAudio := [] |}.

Definition alert (message : jstring) (p : Page) : Page :=
  {| mediaRecorder := mediaRecorder p; microphone := microphone p;
     audioChunks := audioChunks p; liveTimers := liveTimers p;
     timerHeld := timerHeld p; recordingSeconds := recordingSeconds p;
     recordingTime := recordingTime p; recordingStatus := recordingStatus p;
     recordButtonLabel := recordButtonLabel p; recordButton := recordButton p;
     audioPreview := audioPreview p; recordedAudio := recordedAudio p;
     journalText := journalText p; journalHistory := journalHistory p;
     alerts := alerts p ++ [message];
     postedTexts := postedTexts p; postedAudio := postedAudio p |}.

(** [startRecording()], with what [getUserMedia] gives: the stream, or the
    exception the [catch] block reports.  On a stream the recorder is taken
    to be built and started without an exception. *)
Definition startRecording (stream : Result unit) (p : Page) : Page :=
  match stream with
  | Throw _ =>
      alert (str "Unable to access microphone. Please ensure you have granted permission.") p
  | Ok _ =>
      {| mediaRecorder := Some Recording;
         microphone := true;
         audioChunks := [];
         liveTimers := S (liveTimers p);
         timerHeld := true;
         recordingSeconds := 0;
         recordingTime := recordingTime p;
         recordingStatus := classRemove (str "d-none") (recordingStatus p);
         recordButtonLabel := STOP_LABEL;
         recordButton :=
           classReplace (str "btn-primary") (str "btn-danger") (recordButton p);
         audioPreview := audioPreview p; recordedAudio := recordedAudio p;
         journalText := journalText p; journalHistory := journalHistory p;
         alerts := alerts p;
         postedTexts := postedTexts p; postedAudio := postedAudio p |}
  end.

Definition stopRecording (p : Page) : Page :=
  match mediaRecorder p with
  | Some Recording =>
      {| mediaRecorder := Some Inactive;
         microphone := false;
         audioChunks := audioChunks p;
         liveTimers := if timerHeld p then liveTimers p - 1 else liveTimers p;
         timerHeld := false;
         recordingSeconds := recordingSeconds p;
         recordingTime := recordingTime p;
         recordingStatus := classAdd (str "d-none") (recordingStatus p);
         recordButtonLabel := START_LABEL;
         recordButton :=
           classReplace (str "btn-danger") (str "btn-primary") (recordButton p);
         audioPreview := audioPreview p; recordedAudio := recordedAudio p;
         journalText := journalText p; journalHistory := journalHistory p;
         alerts := alerts p;
         postedTexts := postedTexts p; postedAudio := postedAudio p |}
  | _ => p
  end.

(** [`${minutes}:${seconds.toString().padStart(2, '0')}`] *)
Definition timeText (recordingSeconds : nat) : jstring :=
  let minutes := recordingSeconds / 60 in
  let seconds := recordingSeconds mod 60 in
  decimal minutes ++ str ":" ++ padStart 2 (str "0") (decimal seconds).

Definition updateRecordingTime (p : Page) : Page :=
  {| mediaRecorder := mediaRecorder p; microphone := microphone p;
     audioChunks := audioChunks p; liveTimers := liveTimers p;
     timerHeld := timerHeld p;
     recordingSeconds := S (recordingSeconds p);
     recordingTime := timeText (S (recordingSeconds p));
     recordingStatus := recordingStatus p;
     recordButtonLabel := recordButtonLabel p; recordButton := recordButton p;
     audioPreview := audioPreview p; recordedAudio := recordedAudio p;
     journalText := journalText p; journalHistory := journalHistory p;
     alerts := alerts p;
     postedTexts := postedTexts p; postedAudio := postedAudio p |}.

(** The [click] listener of the record button, for a click whose request
    for the microphone, if it makes one, is answered with [stream] before
    anything else happens on the page ([moment] below has the click and
    the answer apart). *)
Definition clickRecord (stream : Result unit) (p : Page) : Page :=
  match mediaRecorder p with
  | Some Recording => stopRecording p
  | _ => startRecording stream p
  end.

(** [mediaRecorder.ondataavailable] *)
Definition ondataavailable (chunk : nat) (p : Page) : Page :=
  {| mediaRecorder := mediaRecorder p; microphone := microphone p;
     audioChunks := audioChunks p ++ [chunk];
     liveTimers := liveTimers p; timerHeld := timerHeld p;
     recordingSeconds := recordingSeconds p;
     recordingTime := recordingTime p; recordingStatus := recordingStatus p;
     recordButtonLabel := recordButtonLabel p; recordButton := recordButton p;
     audioPreview := audioPreview p; recordedAudio := recordedAudio p;
     journalText := journalText p; journalHistory := journalHistory p;
     alerts := alerts p;
     postedTexts := postedTexts p; postedAudio := postedAudio p |}.

(** [mediaRecorder.onstop] *)
Definition onstop (p : Page) : Page :=
  {| mediaRecorder := mediaRecorder p; microphone := microphone p;
     audioChunks := audioChunks p;
     liveTimers := liveTimers p; timerHeld := timerHeld p;
     recordingSeconds := recordingSeconds p;
     recordingTime := recordingTime p; recordingStatus := recordingStatus p;
     recordButtonLabel := recordButtonLabel p; recordButton := recordButton p;
     audioPreview := classRemove (str "d-none") (audioPreview p);
     recordedAudio := Some (audioChunks p);
     journalText := journalText p; journalHistory := journalHistory p;
     alerts := alerts p;
     postedTexts := postedTexts p; postedAudio := postedAudio p |}.

(** The [click] listener of the discard button. *)
Definition clickDiscard (p : Page) : Page :=
  {| mediaRecorder := mediaRecorder p; microphone := microphone p;
     audioChunks := [];
     liveTimers := liveTimers p; timerHeld := timerHeld p;
     recordingSeconds := recordingSeconds p;
     recordingTime := recordingTime p; recordingStatus := recordingStatus p;
     recordButtonLabel := recordButtonLabel p; recordButton := recordButton p;
     audioPreview := classAdd (str "d-none") (audioPreview p);
     recordedAudio := None;
     journalText := journalText p; journalHistory := journalHistory p;
     alerts := alerts p;
     postedTexts := postedTexts p; postedAudio := postedAudio p |}.

(** One entry of the history, with the function that prints a time stamp
    in the locale of the browser. *)
Definition renderEntry (toLocaleString : jstring -> jstring) (entry : Entry)
  : Block :=
  let isText :=
    match type entry with
    | Some t => eqs t (str "text")
    | None => false
    end in
  {| time := toLocaleString (timestamp entry);
     badgeClass := if isText then str "bg-primary" else str "bg-info";
     badge := display (type entry);
     body :=
       if isText then EntryContent (display (content entry))
       else Audio (display (audio_url entry)) |}.

Definition setHistory (blocks : list Block) (p : Page) : Page :=
  {| mediaRecorder := mediaRecorder p; microphone := microphone p;
     audioChunks := audioChunks p;
     liveTimers := liveTimers p; timerHeld := timerHeld p;
     recordingSeconds := recordingSeconds p;
     recordingTime := recordingTime p; recordingStatus := recordingStatus p;
     recordButtonLabel := recordButtonLabel p; recordButton := recordButton p;
     audioPreview := audioPreview p; recordedAudio := recordedAudio p;
     journalText := journalText p; journalHistory := blocks;
     alerts := alerts p;
     postedTexts := postedTexts p; postedAudio := postedAudio p |}.

(** [loadJournalHistory()], with the reply of [/journal/history]. *)
Definition loadJournalHistory (toLocaleString : jstring -> jstring)
    (reply : Fetched (list Entry)) (p : Page) : Page :=
  match reply with
  | FetchResponse true (Ok entries) =>
      setHistory (map (renderEntry toLocaleString) entries) p
  | _ => p
  end.

Definition setJournalText (v : jstring) (p : Page) : Page :=
  {| mediaRecorder := mediaRecorder p; microphone := microphone p;
     audioChunks := audioChunks p;
     liveTimers := liveTimers p; timerHeld := timerHeld p;
     recordingSeconds := recordingSeconds p;
     recordingTime := recordingTime p; recordingStatus := recordingStatus p;
     recordButtonLabel := recordButtonLabel p; recordButton := recordButton p;
     audioPreview := audioPreview p; recordedAudio := recordedAudio p;
     journalText := v; journalHistory := journalHistory p;
     alerts := alerts p;
     postedTexts := postedTexts p; postedAudio := postedAudio p |}.

Definition postText (text : jstring) (p : Page) : Page :=
  {| mediaRecorder := mediaRecorder p; microphone := microphone p;
     audioChunks := audioChunks p;
     liveTimers := liveTimers p; timerHeld := timerHeld p;
     recordingSeconds := recordingSeconds p;
     recordingTime := recordingTime p; recordingStatus := recordingStatus p;
     recordButtonLabel := recordButtonLabel p; recordButton := recordButton p;
     audioPreview := audioPreview p; recordedAudio := recordedAudio p;
     journalText := journalText p; journalHistory := journalHistory p;
     alerts := alerts p;
     postedTexts := postedTexts p ++ [text]; postedAudio := postedAudio p |}.

Definition postAudio (blob : list nat) (p : Page) : Page :=
  {| mediaRecorder := mediaRecorder p; microphone := microphone p;
     audioChunks := audioChunks p;
     liveTimers := liveTimers p; timerHeld := timerHeld p;
     recordingSeconds := recordingSeconds p;
     recordingTime := recordingTime p; recordingStatus := recordingStatus p;
     recordButtonLabel := recordButtonLabel p; recordButton := recordButton p;
     audioPreview := audioPreview p; recordedAudio := recordedAudio p;
     journalText := journalText p; journalHistory := journalHistory p;
     alerts := alerts p;
     postedTexts := postedTexts p; postedAudio := postedAudio p ++ [blob] |}.

Definition hidePreview (p : Page) : Page :=
  {| mediaRecorder := mediaRecorder p; microphone := microphone p;
     audioChunks := audioChunks p;
     liveTimers := liveTimers p; timerHeld := timerHeld p;
     recordingSeconds := recordingSeconds p;
     recordingTime := recordingTime p; recordingStatus := recordingStatus p;
     recordButtonLabel := recordButtonLabel p; recordButton := recordButton p;
     audioPreview := classAdd (str "d-none") (audioPreview p);
     recordedAudio := recordedAudio p;
     journalText := journalText p; journalHistory := journalHistory p;
     alerts := alerts p;
     postedTexts := postedTexts p; postedAudio := postedAudio p |}.

(** Whether the [try] block of a save goes through: the request is
    answered with an [ok] status and a body that parses. *)
Definition saved {A} (reply : Fetched A) : bool :=
  match reply with
  | FetchResponse true (Ok _) => true
  | _ => false
  end.

(** The [click] listener of the submit button, with the replies of
    [/journal/text] and, when it is asked, of [/journal/history]. *)
Definition clickSubmit (toLocaleString : jstring -> jstring)
    (reply : Fetched unit) (history : Fetched (list Entry)) (p : Page) : Page :=
  let text := trim (journalText p) in
  if negb (truthy text) then
    alert (str "Please enter some text for your journal entry.") p
  else
    let p1 := postText text p in
    if saved reply then
      loadJournalHistory toLocaleString history
        (setJournalText [] (alert (str "Journal entry saved successfully!") p1))
    else
      alert (str "Failed to save journal entry. Please try again.") p1.

(** The [click] listener of the save button of a recording. *)
Definition clickSave (toLocaleString : jstring -> jstring)
    (reply : Fetched unit) (history : Fetched (list Entry)) (p : Page) : Page :=
  let p1 := postAudio (audioChunks p) p in
  if saved reply then
    loadJournalHistory toLocaleString history
      (hidePreview (alert (str "Recording saved successfully!") p1))
  else
    alert (str "Failed to save recording. Please try again.") p1.

(** What happens on the page: clicks with what the browser and the server
    answer, and the events of the recorder and of the timer. *)
Inductive Event :=
  | ClickRecord (stream : Result unit)
  | DataAvailable (chunk : nat)
  | Stopped
  | Tick
  | ClickDiscard
  | ClickSave (reply : Fetched unit) (history : Fetched (list Entry))
  | Typed (text : jstring)
  | ClickSubmit (reply : Fetched unit) (history : Fetched (list Entry)).

(** One event; an interval fires only while one is live. *)
Definition step (toLocaleString : jstring -> jstring) (e : Event) (p : Page)
  : Page :=
  match e with
  | ClickRecord stream => clickRecord stream p
  | DataAvailable chunk => ondataavailable chunk p
  | Stopped => onstop p
  | Tick => if 0 <? liveTimers p then updateRecordingTime p else p
  | ClickDiscard => clickDiscard p
  | ClickSave reply history => clickSave toLocaleString reply history p
  | Typed text => setJournalText text p
  | ClickSubmit reply history => clickSubmit toLocaleString reply history p
  end.

Definition run (toLocaleString : jstring -> jstring) (events : list Event)
    (p : Page) : Page :=
  fold_left (fun q e => step toLocaleString e q) events p.

(** The page once the script has run: the history is loaded first. *)
Definition opened (toLocaleString : jstring -> jstring)
    (history : Fetched (list Entry)) : Page :=
  loadJournalHistory toLocaleString history initial.

(** [startRecording] is asynchronous: it waits for [getUserMedia], and
    the page goes on meanwhile.  [asked] counts the requests for the
    microphone that are not answered yet; [lostStreams] counts the streams
    with live tracks that no variable of the script refers to any more. *)
Record Waiting := {
  page : Page;
  asked : nat;
  lostStreams : nat
}.

(** What happens on the page, the click on the record button and the
    answer of [getUserMedia] apart: a click stops the recording that is
    on, or else asks for the microphone; an answer resumes one
    [startRecording] that waits, which puts its recorder and its interval
    in place of the ones the variables hold, whatever their state; any
    event of [step] may come in between.  The listeners of the save and
    submit buttons wait for the server too, but they read and write
    nothing of the recorder, so their events keep the request and its
    answer together.  As in [startRecording], a recorder on a stream is
    taken to be built and started without an exception. *)
Inductive Moment :=
  | Click
  | Answer (stream : Result unit)
  | Meanwhile (e : Event).

Definition moment (toLocaleString : jstring -> jstring) (m : Moment)
    (w : Waiting) : Waiting :=
  match m with
  | Click =>
      match mediaRecorder (page w) with
      | Some Recording =>
          {| page := stopRecording (page w);
             asked := asked w; lostStreams := lostStreams w |}
      | _ =>
          {| page := page w;
             asked := S (asked w); lostStreams := lostStreams w |}
      end
  | Answer stream =>
      match asked w with
      | 0 => w
      | S n =>
          {| page := startRecording stream (page w);
             asked := n;
             lostStreams :=
               match stream, mediaRecorder (page w) with
               | Ok _, Some Recording => S (lostStreams w)
               | _, _ => lostStreams w
               end |}
      end
  | Meanwhile e =>
      {| page := step toLocaleString e (page w);
         asked := asked w; lostStreams := lostStreams w |}
  end.

Definition moments (toLocaleString : jstring -> jstring) (ms : list Moment)
    (w : Waiting) : Waiting :=
  fold_left (fun v m => moment toLocaleString m v) ms w.

(** The page once the script has run, nothing asked of the microphone. *)
Definition arrived (toLocaleString : jstring -> jstring)
    (history : Fetched (list Entry)) : Waiting :=
  {| page := opened toLocaleString history; asked := 0; lostStreams := 0 |}.

End Journal.

(** ** The graph: data, the React components, the D3 view *)

(** A node and a link of [/graph], as the scripts read them: the [id] and
    the [label] of a node, and the [title] and the [name] of its
    [properties], an object every node is taken to have. *)
Record GraphNode := {
  node_id : jstring;
  node_label : option jstring;
  node_title : option jstring;
  node_name : option jstring
}.

Record GraphLink := { link_source : jstring; link_target : jstring }.

Record GraphData := { nodes : list GraphNode; links : list GraphLink }.

(** What is appended to the [svg]: a line for a link, a circle with its
    radius, fill and [title] child for a node. *)
Inductive SvgShape :=
  | SvgLine (stroke opacity : jstring) (link : GraphLink)
  | SvgCircle (r : nat) (fill title : jstring) (node : GraphNode).

(** [selection.text(v)]: [null] and [undefined] clear the content. *)
Definition textContent (v : option jstring) : jstring := default [] v.

Module ForceGraph.

(** [nodeById.get(nodeId)] of the link force of d3: whether a node of the
    simulation has the id. *)
Definition hasNode (nodes : list GraphNode) (nodeId : jstring) : bool :=
  existsb (fun d => eqs (node_id d) nodeId) nodes.

(** [.force("link", d3.forceLink(data.links).id(d => d.id))]: the force is
    initialised with the nodes of the simulation, and every end of every
    link is looked up by its id, link by link, the source before the
    target; d3 throws at the first id no node has (with the wording of
    d3-force 2 and later). *)
Fixpoint initializeLinks (nodes : list GraphNode) (links : list GraphLink)
  : Result unit :=
  match links with
  | [] => Ok tt
  | l :: rest =>
      if negb (hasNode nodes (link_source l))
      then Throw (str "node not found: " ++ link_source l)
      else if negb (hasNode nodes (link_target l))
      then Throw (str "node not found: " ++ link_target l)
      else initializeLinks nodes rest
  end.

(** The effect of the component, run when [data] changes, on the children
    of its [svg]: nothing without nodes; else the simulation is set up,
    which throws for a link that ends at no node, and only then the [svg]
    is cleared and gets two groups, of lines and of circles. *)
Definition effect (data : GraphData) (svg : list (list SvgShape))
  : Result (list (list SvgShape)) :=
  match nodes data with
  | [] => Ok svg
  | _ :: _ =>
      bindR (initializeLinks (nodes data) (links data))
        (fun _ =>
           Ok [map (SvgLine (str "#999") (str "0.6")) (links data);
               map (fun d =>
                      SvgCircle 5 (str "#69b3a2") (textContent (node_label d)) d)
                 (nodes data)])
  end.

End ForceGraph.

Module App.

(** The state of the application and what it has shown and sent. *)
Record State := {
  graphData : GraphData;
  svg : list (list SvgShape);
  queryResult : option jstring;
  alerts : list jstring;
  queries : list jstring;
  uploads : list (option jstring)
}.

Definition initial : State :=
  {| graphData := {| nodes := []; links := [] |};
     svg := [];
     queryResult := Some [];
     alerts := [];
     queries := [];
     uploads := [] |}.

(** [setGraphData(data)], followed by the effect of [ForceGraph].  An
    effect that throws has not touched the [svg], the simulation being set
    up before the drawing is cleared; its exception goes to React, and
    what React then does with the page is outside this model: the
    properties stated of the drawing are about graphs whose effect does
    not throw. *)
Definition setGraphData (data : GraphData) (st : State) : State :=
  {| graphData := data;
     svg := match ForceGraph.effect data (svg st) with
            | Ok drawn => drawn
            | Throw _ => svg st
            end;
     queryResult := queryResult st;
     alerts := alerts st;
     queries := queries st;
     uploads := uploads st |}.

Definition setQueryResult (v : option jstring) (st : State) : State :=
  {| graphData := graphData st;
     svg := svg st;
     queryResult := v;
     alerts := alerts st;
     queries := queries st;
     uploads := uploads st |}.

Definition alert (message : jstring) (st : State) : State :=
  {| graphData := graphData st;
     svg := svg st;
     queryResult := queryResult st;
     alerts := alerts st ++ [message];
     queries := queries st;
     uploads := uploads st |}.

(** [fetchGraphData()]: the body is parsed whatever the status is; an
    exception leaves the state as it is. *)
Definition fetchGraphData (reply : Fetched GraphData) (st : State) : State :=
  match reply with
  | FetchResponse _ (Ok data) => setGraphData data st
  | _ => st
  end.

End App.

Module QueryPanel.

(** [handleSubmit], with the text of the textarea and the reply of
    [/query]. *)
Definition handleSubmit (query : jstring) (reply : Reply) (st : App.State)
  : App.State :=
  let st1 :=
    {| App.graphData := App.graphData st;
       App.svg := App.svg st;
       App.queryResult := App.queryResult st;
       App.alerts := App.alerts st;
       App.queries := App.queries st ++ [query];
       App.uploads := App.uploads st |} in
  match reply with
  | Response _ _ (Ok data) => App.setQueryResult (response data) st1
  | _ => st1
  end.

End QueryPanel.

Module DocumentUpload.

(** [handleSubmit], with the first file of the input ([undefined] when
    none is chosen), the reply of [/upload] and the reply of [/graph] that
    [onUpload] asks for. *)
Definition handleSubmit (file : option jstring) (reply : Fetched Upload.Data)
    (graph : Fetched GraphData) (st : App.State) : App.State :=
  let st1 :=
    {| App.graphData := App.graphData st;
       App.svg := App.svg st;
       App.queryResult := App.queryResult st;
       App.alerts := App.alerts st;
       App.queries := App.queries st;
       App.uploads := App.uploads st ++ [file] |} in
  match reply with
  | FetchRejected _ => st1
  | FetchResponse true _ =>
      App.fetchGraphData graph
        (App.alert (str "Document uploaded successfully!") st1)
  | FetchResponse false (Ok data) =>
      App.alert (str "Error: " ++ display (Upload.error data)) st1
  | FetchResponse false (Throw _) => st1
  end.

End DocumentUpload.

Module GraphView.

(** [d.label === "Document" ? "#4CAF50" : "#2196F3"] *)
Definition fill (d : GraphNode) : jstring :=
  match node_label d with
  | Some l => if eqs l (str "Document") then str "#4CAF50" else str "#2196F3"
  | None => str "#2196F3"
  end.

(** [d.properties.title || d.properties.name], as the text of the tooltip. *)
Definition tooltip (d : GraphNode) : jstring :=
  textContent
    (if truthyField (node_title d) then node_title d else node_name d).

(** The groups [updateGraph] appends to its fresh [svg] once [/graph] has
    answered; nothing is appended when the request or the parsing fails. *)
Definition updateGraph (reply : Fetched GraphData) : list (list SvgShape) :=
  match reply with
  | FetchResponse _ (Ok graph) =>
      [map (SvgLine (str "#999") (str "0.6")) (links graph);
       map (fun d => SvgCircle 5 (fill d) (tooltip d) d) (nodes graph)]
  | _ => []
  end.

Section Drag.

(** Coordinates are only copied by the drag listeners. *)
Variable coord : Type.

(** A node of the simulation: its position and where it is pinned. *)
Record Datum := {
  x : coord;
  y : coord;
  fx : option coord;
  fy : option coord
}.

(** The simulation: whether its target is the raised one (0.3) or zero,
    and how often it was restarted. *)
Record Simulation := { raised : bool; restarts : nat }.

(** A drag event: the number of other gestures under way and the pointer. *)
Record DragEvent := { active : nat; pointerX : coord; pointerY : coord }.

Definition dragstarted (event : DragEvent) (sim : Simulation) (subject : Datum)
  : Simulation * Datum :=
  (match active event with
   | 0 => {| raised := true; restarts := S (restarts sim) |}
   | S _ => sim
   end,
   {| x := x subject; y := y subject;
      fx := Some (x subject); fy := Some (y subject) |}).

Definition dragged (event : DragEvent) (sim : Simulation) (subject : Datum)
  : Simulation * Datum :=
  (sim,
   {| x := x subject; y := y subject;
      fx := Some (pointerX event); fy := Some (pointerY event) |}).

Definition dragended (event : DragEvent) (sim : Simulation) (subject : Datum)
  : Simulation * Datum :=
  (match active event with
   | 0 => {| raised := false; restarts := restarts sim |}
   | S _ => sim
   end,
   {| x := x subject; y := y subject; fx := None; fy := None |}).

(** A gesture on one node: it starts, moves any number of times, ends. *)
Definition gesture (start : DragEvent) (moves : list DragEvent)
    (finish : DragEvent) (sim : Simulation) (subject : Datum)
  : Simulation * Datum :=
  let s1 := dragstarted start sim subject in
  let s2 := fold_left (fun s e => dragged e (fst s) (snd s)) moves s1 in
  dragended finish (fst s2) (snd s2).

End Drag.

End GraphView.

(** ** Vocabulary of the further properties *)

(** Neither the first nor the last code unit is white space. *)
Definition trimmed (t : jstring) : Prop :=
  (forall c r, t = c :: r -> isWhiteSpace c = false)
  /\ (forall c r, t = r ++ [c] -> isWhiteSpace c = false).

(** The questions of a visit that are sent: the ones that are not blank,
    trimmed. *)
Definition sentQuestions (events : list (jstring * jstring * Reply))
  : list jstring :=
  map (fun e => trim (fst (fst e)))
    (List.filter (fun e => truthy (trim (fst (fst e)))) events).

(** The reply block a sent question gets: the answer or the error. *)
Definition replyBlock (reply : Reply) : ChatBlock :=
  match settle reply with
  | Ok (_, cited) =>
      BotMessage (display (processedResponse cited)) (docRefs cited)
  | Throw m => ErrorMessage m
  end.

(** The blocks a visit adds to the chat. *)
Definition chatOf (events : list (jstring * jstring * Reply))
  : list ChatBlock :=
  flat_map
    (fun e => [UserMessage (trim (fst (fst e))); replyBlock (snd e)])
    (List.filter (fun e => truthy (trim (fst (fst e)))) events).

(** The questions a visit sends: the texts submitted that are not blank,
    trimmed. *)
Definition askedQuestions (hs : list Happening) : list jstring :=
  flat_map
    (fun h =>
       match h with
       | Asks typed => if truthy (trim typed) then [trim typed] else []
       | _ => []
       end)
    hs.

(** The replies that reach a request on its way, in the order they arrive,
    [waiting] requests being on their way at the start. *)
Fixpoint arrivals (hs : list Happening) (waiting : nat) : list Reply :=
  match hs with
  | [] => []
  | Asks typed :: rest =>
      arrivals rest (if truthy (trim typed) then S waiting else waiting)
  | Types _ :: rest => arrivals rest waiting
  | Settles k _ reply :: rest =>
      if k <? waiting then reply :: arrivals rest (waiting - 1)
      else arrivals rest waiting
  end.

(** The questions among the blocks of the chat, and the other blocks. *)
Definition questionsOf (blocks : list ChatBlock) : list jstring :=
  flat_map
    (fun b => match b with UserMessage q => [q] | _ => [] end) blocks.

Definition repliesOf (blocks : list ChatBlock) : list ChatBlock :=
  List.filter
    (fun b => match b with UserMessage _ => false | _ => true end) blocks.

(** The data of the last of the replies that is answered. *)
Fixpoint lastAnswer (replies : list Reply) (seen : option Data)
  : option Data :=
  match replies with
  | [] => seen
  | reply :: rest =>
      lastAnswer rest
        match settle reply with
        | Ok (data, _) => Some data
        | Throw _ => seen
        end
  end.

(** A visit in which every request settles before the next text is
    submitted. *)
Definition inTurn (events : list (jstring * jstring * Reply))
  : list Happening :=
  flat_map
    (fun e => [Asks (fst (fst e)); Settles 0 (snd (fst e)) (snd e)]) events.

(** No code unit of [rep] occurs in [lit]. *)
Definition disjoint (rep lit : jstring) : Prop :=
  forall c, In c rep -> ~ In c lit.

(** The first files of the selections of a visit of the upload form. *)
Definition firstFiles (events : list (list jstring * Fetched Upload.Data))
  : list jstring :=
  flat_map (fun e => match fst e with [] => [] | file :: _ => [file] end) events.

(** The last graph with at least one node among [graphs], if any. *)
Fixpoint lastDrawn (graphs : list GraphData) (seen : option GraphData)
  : option GraphData :=
  match graphs with
  | [] => seen
  | g :: rest =>
      lastDrawn rest (match nodes g with [] => seen | _ :: _ => Some g end)
  end.

(** The button, the status line, the microphone and the timer of the
    journal page agree with the state of the recorder. *)
Definition recorderInSync (p : Journal.Page) : Prop :=
  let recording :=
    match Journal.mediaRecorder p with
    | Some Journal.Recording => true
    | _ => false
    end in
  Journal.microphone p = recording
  /\ Journal.liveTimers p = (if recording then 1 else 0)
  /\ Journal.timerHeld p = recording
  /\ Journal.recordButtonLabel p
     = (if recording then Journal.STOP_LABEL else Journal.START_LABEL)
  /\ Journal.recordButton p
     = (if recording then [str "btn"; str "btn-danger"]
        else [str "btn"; str "btn-primary"])
  /\ Journal.recordingStatus p
     = (if recording then [str "text-muted"]
        else [str "text-muted"; str "d-none"])
  /\ (Journal.recordingSeconds p = 0
      \/ Journal.recordingTime p = Journal.timeText (Journal.recordingSeconds p)).

(** What the page shows of the recorder agrees with its state: the button,
    the status line, the interval [recordingInterval] refers to, and the
    time shown. *)
Definition recorderShown (p : Journal.Page) : Prop :=
  let recording :=
    match Journal.mediaRecorder p with
    | Some Journal.Recording => true
    | _ => false
    end in
  Journal.timerHeld p = recording
  /\ (Journal.timerHeld p = true -> 1 <= Journal.liveTimers p)
  /\ Journal.recordButtonLabel p
     = (if recording then Journal.STOP_LABEL else Journal.START_LABEL)
  /\ Journal.recordButton p
     = (if recording then [str "btn"; str "btn-danger"]
        else [str "btn"; str "btn-primary"])
  /\ Journal.recordingStatus p
     = (if recording then [str "text-muted"]
        else [str "text-muted"; str "d-none"])
  /\ (Journal.recordingSeconds p = 0
      \/ Journal.recordingTime p = Journal.timeText (Journal.recordingSeconds p)).

(** The intervals that fire and that [recordingInterval] does not refer
    to: no [clearInterval] of the script can reach them. *)
Definition leakedTimers (p : Journal.Page) : nat :=
  Journal.liveTimers p - (if Journal.timerHeld p then 1 else 0).

(** The record button is never clicked while a request for the microphone
    is not answered yet. *)
Fixpoint patient (toLocaleString : jstring -> jstring)
    (ms : list Journal.Moment) (w : Journal.Waiting) : bool :=
  match ms with
  | [] => true
  | m :: rest =>
      match m with
      | Journal.Click | Journal.Meanwhile (Journal.ClickRecord _) =>
          Nat.eqb (Journal.asked w) 0
      | _ => true
      end
      && patient toLocaleString rest (Journal.moment toLocaleString m w)
  end.

(** Every link of the graph starts and ends at a node of the graph. *)
Definition linked (g : GraphData) : Prop :=
  forall l,
    In l (links g) ->
    (exists d, In d (nodes g) /\ node_id d = link_source l)
    /\ (exists d, In d (nodes g) /\ node_id d = link_target l).

(** The graphs among the replies of [/graph] whose body parses. *)
Definition parsedGraphs (replies : list (Fetched GraphData)) : list GraphData :=
  flat_map
    (fun r => match r with FetchResponse _ (Ok g) => [g] | _ => [] end)
    replies.

(** Where a node is pinned while the pointer drags it: at the pointer of
    the last move, or where the node was when the gesture started. *)
Definition pinnedAt {coord} (moves : list (GraphView.DragEvent coord))
    (subject : GraphView.Datum coord) : coord * coord :=
  match rev moves with
  | e :: _ => (GraphView.pointerX coord e, GraphView.pointerY coord e)
  | [] => (GraphView.x coord subject, GraphView.y coord subject)
  end.
(** * Properties *)

(** ** String primitives *)

Lemma eqs_spec (a b : jstring) : eqs a b = true <-> a = b.
Proof.
  revert b; induction a as [|x a IH]; intros [|y b]; simpl; try (split; congruence).
  rewrite andb_true_iff, N.eqb_eq, IH. split; [intros [-> ->]|intros [= -> ->]]; done.
Qed.

Lemma eqs_refl (a : jstring) : eqs a a = true.
Proof. by apply eqs_spec. Qed.

Lemma startsWith_spec (pat s : jstring) :
  startsWith pat s = true <-> exists t, s = pat ++ t.
Proof.
  revert s; induction pat as [|p pat IH]; intros s; simpl.
  - split; eauto.
  - destruct s as [|c s]; [split; [done|intros [t [=]]]|].
    rewrite andb_true_iff, N.eqb_eq, IH. split.
    + intros [-> [t ->]]; eauto.
    + intros [t [= -> ->]]; eauto.
Qed.

Lemma startsWith_app (pat t : jstring) : startsWith pat (pat ++ t) = true.
Proof. apply startsWith_spec; eauto. Qed.

Lemma includes_spec (pat s : jstring) :
  includes pat s = true <-> exists pre post, s = pre ++ pat ++ post.
Proof.
  induction s as [|c s IH].
  - simpl. rewrite orb_false_r, startsWith_spec. split.
    + intros [t ->]. by exists [], t.
    + intros (pre & post & H). destruct pre; simpl in H; [eauto|done].
  - cbn [includes]. rewrite orb_true_iff, startsWith_spec, IH. split.
    + intros [[t ->]|(pre & post & ->)]; [by exists [], t|by exists (c :: pre), post].
    + intros ([|x pre] & post & H); simpl in H; [left; eauto|].
      injection H as -> ->. right; eauto.
Qed.

Lemma trimStart_nil_iff (s : jstring) :
  trimStart s = [] <-> Forall (fun c => isWhiteSpace c = true) s.
Proof.
  induction s as [|c s IH]; simpl.
  - split; [constructor|done].
  - destruct (isWhiteSpace c) eqn:E.
    + rewrite IH. split; [by constructor|by inversion 1].
    + split; [done|]. inversion 1; congruence.
Qed.

(** A string trims to the empty string exactly when it is empty or made of
    white space only. *)
Lemma trim_nil_iff (s : jstring) :
  truthy (trim s) = false <-> Forall (fun c => isWhiteSpace c = true) s.
Proof.
  unfold trim, trimEnd. rewrite <- trimStart_nil_iff.
  destruct (trimStart s) as [|c t] eqn:E; [done|].
  split; [|done]. intros H.
  assert (Hne : rev (trimStart (rev (c :: t))) = []).
  { by destruct (rev (trimStart (rev (c :: t)))). }
  apply (f_equal (@rev N)) in Hne. rewrite rev_involutive in Hne.
  change (rev []) with (@nil N) in Hne. apply trimStart_nil_iff in Hne.
  apply Forall_rev in Hne. rewrite rev_involutive in Hne.
  assert (Hc : isWhiteSpace c = true) by (by inversion Hne).
  clear -E Hc. induction s as [|x s IH]; simpl in E; [done|].
  destruct (isWhiteSpace x) eqn:Ex; [auto|]. congruence.
Qed.

(** *** Splitting on a separator that is not empty *)

Lemma splitFrom_skip (sep u t : jstring) :
  splitFrom sep (length u) (u ++ t) = splitFrom sep 0 t.
Proof. induction u as [|x u IH]; simpl; [by destruct t|done]. Qed.

Section Split.

Variable sep : jstring.
Hypothesis sep_ne : sep <> [].

Lemma split_nil : split sep [] = [[]].
Proof. done. Qed.

Lemma split_sep (t : jstring) : split sep (sep ++ t) = [] :: split sep t.
Proof.
  unfold split. destruct sep as [|c sep']; [done|].
  cbn [app splitFrom]. change (c :: sep' ++ t) with ((c :: sep') ++ t).
  rewrite startsWith_app. simpl. rewrite Nat.sub_0_r.
  by rewrite splitFrom_skip.
Qed.

Lemma split_ne (s : jstring) : split sep s <> [].
Proof.
  unfold split.
  induction s as [s IH] using (induction_ltof1 _ (@length N)); unfold ltof in IH.
  destruct s as [|c t]; [done|]. cbn [splitFrom].
  destruct (startsWith sep (c :: t)); [done|].
  by destruct (splitFrom sep 0 t).
Qed.

Lemma split_cons (c : N) (t : jstring) :
  startsWith sep (c :: t) = false ->
  exists piece pieces,
    split sep t = piece :: pieces /\ split sep (c :: t) = (c :: piece) :: pieces.
Proof.
  intros H. pose proof (split_ne t) as Hne.
  unfold split in *. cbn [splitFrom]. rewrite H.
  destruct (splitFrom sep 0 t) as [|piece pieces]; [done|eauto].
Qed.

Lemma join_cons (p : jstring) (pieces : list jstring) :
  pieces <> [] -> join sep (p :: pieces) = p ++ sep ++ join sep pieces.
Proof. by destruct pieces. Qed.

Lemma join_cons_piece (c : N) (piece : jstring) (pieces : list jstring) :
  join sep ((c :: piece) :: pieces) = c :: join sep (piece :: pieces).
Proof. by destruct pieces. Qed.

(** The pieces of a split, joined by the separator, give the string back. *)
Lemma join_split (s : jstring) : join sep (split sep s) = s.
Proof.
  induction s as [s IH] using (induction_ltof1 _ (@length N)); unfold ltof in IH.
  destruct s as [|c t]; [done|].
  destruct (startsWith sep (c :: t)) eqn:E.
  - apply startsWith_spec in E as [u E]. rewrite E, split_sep.
    rewrite join_cons by apply split_ne. rewrite IH; [done|].
    rewrite E, length_app. destruct sep; [done|simpl; lia].
  - destruct (split_cons c t E) as (piece & pieces & Ht & ->).
    rewrite join_cons_piece, <- Ht, IH; [done|simpl; lia].
Qed.

(** A line that includes the separator splits into at least two pieces, so
    [line.split(sep)[1]] is a string. *)
Lemma split_second_piece (line : jstring) :
  includes sep line = true -> exists piece, split sep line !! 1 = Some piece.
Proof.
  induction line as [|c t IH]; cbn [includes].
  - rewrite orb_false_r. destruct sep; [done|simpl; done].
  - destruct (startsWith sep (c :: t)) eqn:E; simpl.
    + intros _. apply startsWith_spec in E as [u ->].
      rewrite split_sep. pose proof (split_ne u).
      destruct (split sep u) as [|p ps]; [done|]. by exists p.
    + intros Hin. destruct (IH Hin) as [piece Hp].
      destruct (split_cons c t E) as (p0 & ps & Ht & ->).
      rewrite Ht in Hp. by exists piece.
Qed.

End Split.

Lemma substring_refl (s : jstring) : substring s s.
Proof. exists [], []. by rewrite app_nil_r. Qed.

Lemma substring_trans (a b c : jstring) :
  substring a b -> substring b c -> substring a c.
Proof.
  intros (p1 & q1 & ->) (p2 & q2 & ->).
  exists (p2 ++ p1), (q1 ++ q2). by rewrite <- !app_assoc.
Qed.

Lemma join_piece_substring (sep p : jstring) (pieces : list jstring) :
  In p pieces -> substring p (join sep pieces).
Proof.
  induction pieces as [|q pieces IH]; [done|].
  destruct pieces as [|q' pieces].
  - intros [->|[]]. apply substring_refl.
  - intros [->|Hin].
    + rewrite join_cons by done. exists [], (sep ++ join sep (q' :: pieces)). done.
    + rewrite join_cons by done. destruct (IH Hin) as (pre & post & ->).
      exists (q ++ sep ++ pre), post. by rewrite <- !app_assoc.
Qed.

(** Every piece of a split occurs in the string. *)
Lemma split_piece_substring (sep s p : jstring) :
  sep <> [] -> In p (split sep s) -> substring p s.
Proof.
  intros Hsep Hin. pose proof (join_piece_substring sep p _ Hin) as H.
  by rewrite join_split in H.
Qed.

Lemma trimStart_suffix (s : jstring) : exists pre, s = pre ++ trimStart s.
Proof.
  induction s as [|c s [pre IH]]; [by exists []|]. simpl.
  destruct (isWhiteSpace c); [|by exists []].
  exists (c :: pre). simpl. by f_equal.
Qed.

Lemma trim_substring (s : jstring) : substring (trim s) s.
Proof.
  unfold trim, trimEnd.
  destruct (trimStart_suffix s) as [pre Hs].
  destruct (trimStart_suffix (rev (trimStart s))) as [post Hr].
  apply (f_equal (@rev N)) in Hr. rewrite rev_involutive, rev_app_distr in Hr.
  exists pre, (rev post). by rewrite <- Hr.
Qed.

(** The title a line gives occurs in the line. *)
Lemma docOfLine_substring (line : jstring) :
  includes FOUND_IN line = true -> substring (docOfLine line) line.
Proof.
  intros Hin. unfold docOfLine.
  destruct (split_second_piece FOUND_IN) with (line := line) as [piece Hp];
    [done|done|].
  rewrite (nth_lookup_Some _ _ _ _ Hp).
  eapply substring_trans; [apply trim_substring|].
  apply split_piece_substring with (sep := FOUND_IN); [done|].
  apply list_elem_of_In. by eapply list_elem_of_lookup_2.
Qed.

(** ** The regular expression built from a title *)

(** The class of the escaping replace holds the syntax characters of the
    grammar and nothing else. *)
Lemma inEscapeClass_syntax (c : N) : inEscapeClass c = isSyntaxCharacter c.
Proof.
  unfold inEscapeClass, isSyntaxCharacter.
  apply eq_true_iff_eq. rewrite !existsb_exists.
  assert (H : forall x : N,
             In x (str ".*+?^${}()|[]\") <-> In x (str "^$\.*+?()[]{}|")).
  { intros x. cbn. tauto. }
  split; intros (x & Hx & Hc); exists x; (split; [by apply H|done]).
Qed.

(** Escaping covers every syntax character, so the expression the script
    builds from [doc] is well formed and matches the text [doc] itself. *)
Lemma RegExp_escapeRegExp (doc : jstring) : RegExp (escapeRegExp doc) = Ok doc.
Proof.
  induction doc as [|c doc IH]; [done|]. cbn [escapeRegExp].
  rewrite inEscapeClass_syntax.
  destruct (isSyntaxCharacter c) eqn:E.
  - cbn [RegExp]. rewrite N.eqb_refl, E, IH. done.
  - cbn [RegExp]. rewrite E, IH.
    destruct (c =? BACKSLASH)%N eqn:Eb; [|done].
    apply N.eqb_eq in Eb. subst c. done.
Qed.

(** ** Global replace *)

Lemma replaceFrom_skip (lit rep u t : jstring) :
  replaceFrom lit rep (length u) (u ++ t) = replaceFrom lit rep 0 t.
Proof. induction u as [|x u IH]; simpl; [by destruct t|done]. Qed.

Section Replace.

Variables lit rep : jstring.
Hypothesis lit_ne : lit <> [].

Lemma replace_nil : replace [] lit rep = [].
Proof. by destruct lit. Qed.

Lemma replace_match (t : jstring) :
  replace (lit ++ t) lit rep = rep ++ replace t lit rep.
Proof.
  destruct lit as [|c lit']; [done|]. unfold replace.
  cbn [app replaceFrom]. change (c :: lit' ++ t) with ((c :: lit') ++ t).
  rewrite startsWith_app. simpl. by rewrite Nat.sub_0_r, replaceFrom_skip.
Qed.

Lemma replace_nomatch (c : N) (t : jstring) :
  startsWith lit (c :: t) = false ->
  replace (c :: t) lit rep = c :: replace t lit rep.
Proof.
  destruct lit as [|x lit']; [done|]. intros H. unfold replace.
  cbn [replaceFrom]. by rewrite H.
Qed.

End Replace.

(** A text the literal does not occur in is left as it is. *)
Lemma replace_absent (s lit rep : jstring) :
  includes lit s = false -> replace s lit rep = s.
Proof.
  intros H. assert (Hlit : lit <> []).
  { intros ->. by destruct s. }
  induction s as [|c t IH]; [by apply replace_nil|].
  cbn [includes] in H. apply orb_false_iff in H as [H1 H2].
  rewrite replace_nomatch by done. by rewrite IH.
Qed.



(** ** Numbers in reference lines *)

Lemma str_inj (a b : string) : str a = str b -> a = b.
Proof.
  revert b; induction a as [|x a IH]; intros [|y b]; simpl; try done.
  intros [= Hxy Hab]. f_equal; [|auto].
  rewrite <- (ascii_N_embedding x), <- (ascii_N_embedding y). by rewrite Hxy.
Qed.

Lemma decimal_inj (n m : nat) : decimal n = decimal m -> n = m.
Proof. intros H. apply str_inj in H. by apply (inj pretty) in H. Qed.

Lemma pretty_N_go_digits (x : N) (s : string) :
  Forall isDigit (str s) -> Forall isDigit (str (pretty_N_go x s)).
Proof.
  revert s. induction (N.lt_wf_0 x) as [x _ IH]; intros s Hs.
  destruct (decide (x = 0)%N) as [->|Hx]; [by rewrite pretty_N_go_0|].
  rewrite pretty_N_go_step by lia. apply IH.
  - apply N.div_lt; lia.
  - simpl. constructor; [|done].
    unfold pretty_N_char, isDigit. repeat case_match; simpl; lia.
Qed.

Lemma decimal_digits (n : nat) : Forall isDigit (decimal n).
Proof.
  unfold decimal, pretty, pretty_nat, pretty, pretty_N.
  case_decide.
  - simpl. constructor; [unfold isDigit; lia|constructor].
  - apply pretty_N_go_digits. constructor.
Qed.

Lemma app_sep_inj (c : N) (a b x y : jstring) :
  Forall (fun d => d <> c) a -> Forall (fun d => d <> c) b ->
  a ++ c :: x = b ++ c :: y -> a = b /\ x = y.
Proof.
  revert b; induction a as [|p a IH]; intros [|q b] Ha Hb; simpl.
  - by intros [= ->].
  - intros [= <- _]. by inversion Hb.
  - intros [= -> _]. by inversion Ha.
  - intros [= -> H]. inversion Ha; inversion Hb; subst.
    destruct (IH b) as [-> ->]; done.
Qed.

(** A reference line determines its number and its document. *)
Lemma refLine_inj (i j : nat) (d d' : jstring) :
  refLine i d = refLine j d' -> i = j /\ d = d'.
Proof.
  unfold refLine. change (str ". ") with [46%N; 32%N]. simpl.
  intros H. apply app_sep_inj in H as [Hn [= ->]].
  - apply decimal_inj in Hn. split; [lia|done].
  - eapply Forall_impl; [apply decimal_digits|]. unfold isDigit. intros; lia.
  - eapply Forall_impl; [apply decimal_digits|]. unfold isDigit. intros; lia.
Qed.

(** ** Distinct titles, in order of first occurrence *)

Lemma existsb_eqs (x : jstring) (l : list jstring) :
  existsb (eqs x) l = true <-> In x l.
Proof.
  rewrite existsb_exists. split.
  - intros (y & Hy & E). apply eqs_spec in E. by subst.
  - intros H. exists x. split; [done|apply eqs_refl].
Qed.

Lemma existsb_eqs_false (x : jstring) (l : list jstring) :
  existsb (eqs x) l = false <-> ~ In x l.
Proof. rewrite <- existsb_eqs. by destruct (existsb (eqs x) l). Qed.

Lemma indexOf_app_in (pre l : list jstring) (x : jstring) :
  In x pre -> exists i, indexOf (pre ++ l) x = Some i /\ i < length pre.
Proof.
  induction pre as [|y pre IH]; [done|]. simpl.
  destruct (eqs y x) eqn:E.
  - intros _. exists 0. split; [done|lia].
  - intros [->|Hin]; [by rewrite eqs_refl in E|].
    destruct (IH Hin) as (i & -> & Hi). exists (S i). split; [done|lia].
Qed.

Lemma indexOf_app_notin (pre suf : list jstring) (x : jstring) :
  ~ In x pre -> indexOf (pre ++ x :: suf) x = Some (length pre).
Proof.
  induction pre as [|y pre IH]; simpl.
  - by rewrite eqs_refl.
  - intros H. destruct (eqs y x) eqn:E.
    + apply eqs_spec in E. tauto.
    + rewrite IH; [done|tauto].
Qed.

Lemma filterFrom_dedupAfter (pre suf : list jstring) :
  filterFrom
    (fun doc index =>
       match indexOf (pre ++ suf) doc with
       | Some i => Nat.eqb i index
       | None => false
       end)
    (length pre) suf
  = dedupAfter pre suf.
Proof.
  revert pre. induction suf as [|x suf IH]; intros pre; [done|].
  cbn [filterFrom dedupAfter].
  specialize (IH (pre ++ [x])).
  rewrite <- app_assoc, length_app, Nat.add_1_r in IH. cbn [app] in IH.
  rewrite IH. destruct (existsb (eqs x) pre) eqn:E.
  - apply existsb_eqs in E.
    destruct (indexOf_app_in pre (x :: suf) x E) as (i & -> & Hi).
    destruct (Nat.eqb_spec i (length pre)); [lia|done].
  - apply existsb_eqs_false in E. rewrite indexOf_app_notin by done.
    by rewrite Nat.eqb_refl.
Qed.

(** The index test of the script keeps the first occurrence of each title. *)
Lemma firstOccurrences_dedupAfter (l : list jstring) :
  firstOccurrences l = dedupAfter [] l.
Proof. apply (filterFrom_dedupAfter [] l). Qed.

Lemma dedupAfter_In (seen l : list jstring) (x : jstring) :
  In x (dedupAfter seen l) <-> In x l /\ ~ In x seen.
Proof.
  revert seen. induction l as [|y l IH]; intros seen; simpl; [tauto|].
  destruct (existsb (eqs y) seen) eqn:E.
  - apply existsb_eqs in E. rewrite IH, in_app_iff. simpl.
    split; [tauto|]. intros [[->|H] Hn]; [tauto|].
    split; [done|]. intros [?|[->|[]]]; tauto.
  - apply existsb_eqs_false in E. simpl. rewrite IH, in_app_iff. simpl.
    split.
    + intros [->|[? ?]]; tauto.
    + intros [[->|H] Hn]; [tauto|].
      destruct (decide (y = x)) as [->|Hne]; [tauto|].
      right. split; [done|]. intros [?|[->|[]]]; tauto.
Qed.


Lemma firstOccurrences_In (l : list jstring) (x : jstring) :
  In x (firstOccurrences l) <-> In x l.
Proof. rewrite firstOccurrences_dedupAfter, dedupAfter_In. simpl. tauto. Qed.


(** Every title of [contextDocs] comes from a [Found in:] line. *)
Lemma contextDocs_In (gc doc : jstring) :
  In doc (contextDocs gc) <->
  exists line,
    In line (split [LF] gc) /\ includes FOUND_IN line = true
    /\ doc = docOfLine line.
Proof.
  unfold contextDocs. rewrite firstOccurrences_In, in_map_iff.
  split.
  - intros (line & <- & Hin). apply filter_In in Hin as [? ?]. eauto.
  - intros (line & ? & ? & ->). exists line. split; [done|].
    apply filter_In. eauto.
Qed.


Lemma docsOf_In (data : Data) (doc : jstring) :
  In doc (docsOf data) -> titleInContext data doc.
Proof.
  unfold docsOf, titleInContext.
  destruct (data_graph_context data) as [gc|]; [|done].
  destruct (truthyField (Some gc)); [|done]. simpl.
  rewrite contextDocs_In. intros (line & ? & ? & ?). by exists gc, line.
Qed.


(** ** The citation loop *)

Lemma references_lookup (docs : list jstring) (index k : nat) :
  references index docs !! k = refLine (index + k) <$> docs !! k.
Proof.
  revert index k. induction docs as [|d docs IH]; intros index [|k]; simpl; try done.
  - by rewrite Nat.add_0_r.
  - rewrite IH. by rewrite Nat.add_succ_r.
Qed.


(** On a response that is a string the loop never throws: the text is the
    chain of replacements, and each document adds one reference line. *)
Lemma forEachDoc_string (docs : list jstring) (index : nat) (text : jstring)
    (refs : list jstring) :
  (forall r, In r refs -> exists j d, j < index /\ r = refLine j d) ->
  forEachDoc docs index {| processedResponse := Some text; docRefs := refs |}
  = Ok {| processedResponse := Some (substitute text index docs);
          docRefs := refs ++ references index docs |}.
Proof.
  revert index text refs.
  induction docs as [|doc docs IH]; intros index text refs Hrefs.
  - simpl. by rewrite app_nil_r.
  - cbn [forEachDoc]. rewrite RegExp_escapeRegExp. cbn [bindR replaceCall processedResponse docRefs].
    assert (Hfresh : setAdd (refLine index doc) refs = refs ++ [refLine index doc]).
    { unfold setAdd. destruct (existsb _ refs) eqn:E; [|done].
      apply existsb_eqs in E. destruct (Hrefs _ E) as (j & d & Hj & Heq).
      apply refLine_inj in Heq. lia. }
    rewrite Hfresh, IH.
    + cbn [substitute references]. by rewrite <- app_assoc.
    + intros r [Hr|[<-|[]]]%in_app_iff.
      * destruct (Hrefs r Hr) as (j & d & ? & ?). exists j, d. split; [lia|done].
      * exists index, doc. split; [lia|done].
Qed.

Lemma forEachDoc_undefined (doc : jstring) (docs : list jstring) (index : nat)
    (refs : list jstring) :
  forEachDoc (doc :: docs) index {| processedResponse := None; docRefs := refs |}
  = Throw (str "Cannot read properties of undefined (reading 'replace')").
Proof. cbn [forEachDoc]. by rewrite RegExp_escapeRegExp. Qed.

(** What [citations] computes. *)
Lemma citations_string (data : Data) (r : jstring) :
  response data = Some r ->
  citations data
  = Ok {| processedResponse := Some (substitute r 0 (docsOf data));
          docRefs := references 0 (docsOf data) |}.
Proof.
  intros Hr. unfold citations, docsOf. rewrite Hr.
  destruct (truthyField (data_graph_context data)); [|done].
  by rewrite forEachDoc_string.
Qed.

Lemma citations_undefined (data : Data) :
  response data = None ->
  citations data
  = match docsOf data with
    | [] => Ok {| processedResponse := None; docRefs := [] |}
    | _ :: _ =>
        Throw (str "Cannot read properties of undefined (reading 'replace')")
    end.
Proof.
  intros Hr. unfold citations, docsOf. rewrite Hr.
  destruct (truthyField (data_graph_context data)); [|done].
  destruct (contextDocs _) as [|d ds]; [done|apply forEachDoc_undefined].
Qed.

(** ** The page after [submitQuery] *)

Lemma truthy_trim_blank (s : jstring) :
  truthy (trim s) = false <-> blank s.
Proof. apply trim_nil_iff. Qed.

(** Whether a given question is blank is settled by running [trim]. *)
Ltac not_blank := rewrite <- truthy_trim_blank; vm_compute; discriminate.
Ltac is_blank := apply truthy_trim_blank; vm_compute; reflexivity.

(** A blank question: [submitQuery] returns at once and touches nothing. *)
Lemma submitQuery_blank (timestamp : jstring) (reply : Reply) (page : Page) :
  blank (queryInput page) -> submitQuery timestamp reply page = page.
Proof.
  intros H. apply truthy_trim_blank in H. unfold submitQuery. by rewrite H.
Qed.

Lemma displayQueries_frame (data : Data) (page : Page) :
  exists blocks,
    displayQueries data page
    = ({| chatHistory := chatHistory page;
          cypherQueries := blocks;
          auditTrail := auditTrail page;
          queryInput := queryInput page;
          posted := posted page |}, Ok tt)
    /\ blocks = cypherQueries (fst (displayQueries data emptyPage)).
Proof.
  unfold displayQueries. destruct (data_queries data) as [q|]; [|by eexists].
  by eexists.
Qed.

(** A question that is not blank: the question is shown and sent, and the
    settled reply leads either to an answer block with its audit entry or
    to an error block with its audit entry. *)
Lemma submitQuery_sent (timestamp : jstring) (reply : Reply) (page : Page) :
  ~ blank (queryInput page) ->
  submitQuery timestamp reply page
  = let queryText := trim (queryInput page) in
    match settle reply with
    | Ok (data, cited) =>
        {| chatHistory :=
             chatHistory page
             ++ [UserMessage queryText;
                 BotMessage (display (processedResponse cited)) (docRefs cited)];
           cypherQueries := cypherQueries (fst (displayQueries data emptyPage));
           auditTrail :=
             auditTrail page ++ [resourceHTML queryText timestamp data];
           queryInput := [];
           posted := posted page ++ [queryText] |}
    | Throw m =>
        {| chatHistory :=
             chatHistory page ++ [UserMessage queryText; ErrorMessage m];
           cypherQueries := cypherQueries page;
           auditTrail :=
             auditTrail page ++ [ErrorEntry timestamp queryText m];
           queryInput := [];
           posted := posted page ++ [queryText] |}
    end.
Proof.
  intros H. rewrite <- truthy_trim_blank in H.
  unfold submitQuery. destruct (truthy (trim (queryInput page))); [|done].
  cbn [negb]. unfold catch, bind, setInput, appendChat, post, onError. cbn.
  destruct reply as [m|ok status json]; cbn.
  { by rewrite <- app_assoc. }
  destruct ok; cbn; [|by rewrite <- app_assoc].
  destruct json as [data|m]; cbn; [|by rewrite <- app_assoc].
  unfold onData, bind, throw, ret, lift, setInput, appendChat,
    updateAuditTrail, appendAudit.
  destruct (truthyField (error data)); cbn; [by rewrite <- app_assoc|].
  destruct (citations data) as [cited|m]; cbn; [|by rewrite <- app_assoc].
  match goal with
  | |- context [displayQueries data ?p] =>
      destruct (displayQueries_frame data p) as (blocks & -> & ->)
  end.
  cbn. by rewrite <- app_assoc.
Qed.

(** ** Settled replies *)

Lemma blank_dec (s : jstring) : {blank s} + {~ blank s}.
Proof.
  destruct (truthy (trim s)) eqn:E.
  - right. rewrite <- truthy_trim_blank. congruence.
  - left. by apply truthy_trim_blank.
Qed.

Lemma settle_Ok (reply : Reply) (data : Data) (cited : Cited) :
  settle reply = Ok (data, cited) <->
  (exists status, reply = Response true status (Ok data))
  /\ truthyField (error data) = false
  /\ citations data = Ok cited.
Proof.
  split.
  - destruct reply as [m|[] status [d|m]]; simpl; try done.
    destruct (truthyField (error d)) eqn:E; [done|].
    destruct (citations d) as [c|m] eqn:Ec; simpl; [|done].
    intros [= -> ->]. eauto.
  - intros ([status ->] & He & Hc). simpl. by rewrite He, Hc.
Qed.


(** What a successful [citations] holds, whatever the response is. *)
Lemma citations_Ok (data : Data) (cited : Cited) :
  citations data = Ok cited ->
  processedResponse cited
  = (fun r => substitute r 0 (docsOf data)) <$> response data
  /\ docRefs cited = references 0 (docsOf data).
Proof.
  destruct (response data) as [r|] eqn:Hr.
  - rewrite (citations_string data r Hr). by intros [= <-].
  - rewrite (citations_undefined data Hr).
    destruct (docsOf data); [|done]. by intros [= <-].
Qed.

Lemma titleInContext_substring (data : Data) (doc : jstring) :
  titleInContext data doc ->
  exists gc, data_graph_context data = Some gc /\ substring doc gc.
Proof.
  intros (gc & line & Hgc & Hline & Hinc & ->). exists gc. split; [done|].
  eapply substring_trans; [by apply docOfLine_substring|].
  by apply split_piece_substring with (sep := [LF]).
Qed.

(** ** Citations and their documents *)

(** C1.  Every answer block that [submitQuery] adds to the chat comes from a
    reply whose graph context gives the documents [docs]: the reference list
    shown is exactly the list of lines [k+1. title] of these documents, the
    markers put into the text are the markers [[k+1]] of the same documents,
    and every one of the titles is read from a [Found in:] line of that graph
    context and occurs in it.  No reference and no marker stands for a
    document outside the context. *)
Theorem citations_refer_to_context_documents
    (timestamp : jstring) (reply : Reply) (page : Page)
    (blocks : list ChatBlock) (answer : jstring) (refs : list jstring) :
  chatHistory (submitQuery timestamp reply page) = chatHistory page ++ blocks ->
  In (BotMessage answer refs) blocks ->
  exists data docs,
    (exists status, reply = Response true status (Ok data))
    /\ docs = docsOf data
    /\ refs = references 0 docs
    /\ answer = display ((fun r => substitute r 0 docs) <$> response data)
    /\ (forall k r, refs !! k = Some r ->
        exists doc,
          docs !! k = Some doc /\ r = refLine k doc
          /\ titleInContext data doc
          /\ exists gc, data_graph_context data = Some gc /\ substring doc gc).
Proof.
  intros Hchat Hin.
  destruct (blank_dec (queryInput page)) as [Hb|Hb].
  { rewrite submitQuery_blank in Hchat by done.
    rewrite <- (app_nil_r (chatHistory page)) in Hchat at 1.
    apply app_inv_head in Hchat. by subst blocks. }
  rewrite submitQuery_sent in Hchat by done. cbn zeta in Hchat.
  destruct (settle reply) as [[data cited]|m] eqn:Es; cbn in Hchat;
    apply app_inv_head in Hchat; subst blocks;
    destruct Hin as [Hin|[Hin|[]]]; try done.
  injection Hin as <- <-.
  apply settle_Ok in Es as (Hreply & _ & Hc).
  apply citations_Ok in Hc as [Hp Hr].
  exists data, (docsOf data). repeat split; try done.
  - by rewrite Hp.
  - intros k r Hk. rewrite Hr, references_lookup in Hk.
    destruct (docsOf data !! k) as [doc|] eqn:Hd; [|done].
    injection Hk as <-. exists doc.
    assert (Ht : titleInContext data doc).
    { apply docsOf_In, list_elem_of_In. by eapply list_elem_of_lookup_2. }
    repeat split; try done. by apply titleInContext_substring.
Qed.

Lemma citations_refer_to_context_documents_witness :
  let page := asking (str "Which plan?") in
  let reply := Response true 200 (Ok (answerData (str "See plan.txt") planContext)) in
  let answer := str "See [1]" in
  let refs := [str "1. plan.txt"; str "2. game plan.txt"] in
  let blocks := [UserMessage (str "Which plan?"); BotMessage answer refs] in
  chatHistory (submitQuery (str "12:00:00") reply page)
  = chatHistory page ++ blocks
  /\ In (BotMessage answer refs) blocks
  /\ exists data docs,
      (exists status, reply = Response true status (Ok data))
      /\ docs = docsOf data
      /\ refs = references 0 docs
      /\ answer = display ((fun r => substitute r 0 docs) <$> response data)
      /\ (forall k r, refs !! k = Some r ->
          exists doc,
            docs !! k = Some doc /\ r = refLine k doc
            /\ titleInContext data doc
            /\ exists gc, data_graph_context data = Some gc /\ substring doc gc).
Proof.
  intros page reply answer refs blocks.
  assert (H1 : chatHistory (submitQuery (str "12:00:00") reply page)
               = chatHistory page ++ blocks).
  { vm_compute. reflexivity. }
  assert (H2 : In (BotMessage answer refs) blocks).
  { right. left. reflexivity. }
  split; [exact H1|]. split; [exact H2|].
  exact (citations_refer_to_context_documents _ _ _ _ _ _ H1 H2).
Defined.


(** C2.  The script at two replies it can receive.  In the first the title
    of document 1 ends the title of document 2: the mention of document 2 in
    the answer is not replaced by [[2]], the replace of document 1 has
    already cut it to "game [1]".  In the second the title of document 2 is
    the digit of marker [[1]]: the marker put in for document 1 is rewritten
    to "[[2]]".  Both come from running one global replace per document on
    the text the earlier replaces have already changed. *)
Theorem sequential_replace_loses_markers :
  citations (answerData (str "See game plan.txt") planContext)
  = Ok {| processedResponse := Some (str "See game [1]");
          docRefs := [str "1. plan.txt"; str "2. game plan.txt"] |}
  /\ citations (answerData (str "chapter.txt and 1") digitContext)
     = Ok {| processedResponse := Some (str "[[2]] and [2]");
             docRefs := [str "1. chapter.txt"; str "2. 1"] |}.
Proof. split; vm_compute; reflexivity. Qed.




(** C4.  The citations depend on the answer text and the graph context
    only: two replies that agree on both give the same processed text, the
    same numbers and the same reference list in the same order, and the
    answer block shown is the same whatever the page, the question, the
    clock and the rest of the reply are. *)
Theorem citations_deterministic
    (d1 d2 : Data) (t1 t2 : jstring) (s1 s2 : nat) (p1 p2 : Page) :
  response d1 = response d2 ->
  data_graph_context d1 = data_graph_context d2 ->
  truthyField (error d1) = false ->
  truthyField (error d2) = false ->
  ~ blank (queryInput p1) ->
  ~ blank (queryInput p2) ->
  citations d1 = citations d2
  /\ exists block,
       chatHistory (submitQuery t1 (Response true s1 (Ok d1)) p1)
       = chatHistory p1 ++ [UserMessage (trim (queryInput p1)); block]
       /\ chatHistory (submitQuery t2 (Response true s2 (Ok d2)) p2)
          = chatHistory p2 ++ [UserMessage (trim (queryInput p2)); block].
Proof.
  intros Hr Hg He1 He2 Hb1 Hb2.
  assert (Hc : citations d1 = citations d2).
  { unfold citations. by rewrite Hr, Hg. }
  split; [done|].
  rewrite !submitQuery_sent by done. cbn zeta. cbn [settle negb bindR].
  rewrite He1, He2, <- Hc.
  destruct (citations d1) as [cited|m]; cbn; eauto.
Qed.

Lemma citations_deterministic_witness :
  let d1 := answerData (str "See plan.txt") planContext in
  let d2 :=
    {| error := Some [];
       response := Some (str "See plan.txt");
       technical_details :=
         Some {| queries :=
                   Some {| graph_context := Some planContext;
                           semantic_data := Some {| focus := None |} |} |} |} in
  let p1 := asking (str "Which plan?") in
  let p2 := typeIn (str " and the other? ")
              (submitQuery (str "12:00:00") (Rejected (str "Failed to fetch")) p1) in
  citations d1 = citations d2
  /\ exists block,
       chatHistory (submitQuery (str "12:00:01") (Response true 200 (Ok d1)) p1)
       = chatHistory p1 ++ [UserMessage (trim (queryInput p1)); block]
       /\ chatHistory (submitQuery (str "12:00:02") (Response true 201 (Ok d2)) p2)
          = chatHistory p2 ++ [UserMessage (trim (queryInput p2)); block].
Proof.
  intros d1 d2 p1 p2.
  apply (citations_deterministic d1 d2 _ _ _ _ p1 p2);
    try reflexivity; not_blank.
Defined.

(** ** The audit trail *)

Lemma typeIn_auditTrail (typed : jstring) (p : Page) :
  auditTrail (typeIn typed p) = auditTrail p.
Proof. done. Qed.

(** Whatever the question and the reply, [submitQuery] leaves the entries
    already there in place and adds at most one behind them. *)
Lemma submitQuery_auditTrail (timestamp : jstring) (reply : Reply) (page : Page) :
  auditTrail (submitQuery timestamp reply page)
  = auditTrail page
    ++ (if blank_dec (queryInput page) then []
        else [match settle reply with
              | Ok (data, _) =>
                  resourceHTML (trim (queryInput page)) timestamp data
              | Throw m => ErrorEntry timestamp (trim (queryInput page)) m
              end]).
Proof.
  destruct (blank_dec (queryInput page)) as [Hb|Hb].
  - rewrite submitQuery_blank by done. by rewrite app_nil_r.
  - rewrite submitQuery_sent by done. cbn zeta.
    by destruct (settle reply) as [[data cited]|m].
Qed.

(** C5.  A question that is not blank gets exactly one audit entry when the
    request settles: the resource entry of the reply when an answer is
    shown, the error entry with the message otherwise (a rejected request,
    an HTTP error status, a body that does not parse, an error reply of the
    server, an exception while the answer is processed). *)
Theorem one_audit_entry_per_question
    (timestamp : jstring) (reply : Reply) (page : Page) :
  ~ blank (queryInput page) ->
  exists entry,
    auditTrail (submitQuery timestamp reply page) = auditTrail page ++ [entry]
    /\ length (auditTrail (submitQuery timestamp reply page))
       = S (length (auditTrail page))
    /\ entry
       = match settle reply with
         | Ok (data, _) => resourceHTML (trim (queryInput page)) timestamp data
         | Throw m => ErrorEntry timestamp (trim (queryInput page)) m
         end.
Proof.
  intros Hb. rewrite submitQuery_auditTrail.
  destruct (blank_dec (queryInput page)); [done|].
  eexists. split; [done|]. split; [|done].
  rewrite length_app. simpl. lia.
Qed.

Lemma one_audit_entry_per_question_witness :
  let page := asking (str "Who won?") in
  let reply := Response true 200 (Ok (errorData (str "Synthesis unavailable"))) in
  ~ blank (queryInput page)
  /\ exists entry,
      auditTrail (submitQuery (str "12:00:00") reply page)
      = auditTrail page ++ [entry]
      /\ length (auditTrail (submitQuery (str "12:00:00") reply page))
         = S (length (auditTrail page))
      /\ entry
         = match settle reply with
           | Ok (data, _) =>
               resourceHTML (trim (queryInput page)) (str "12:00:00") data
           | Throw m => ErrorEntry (str "12:00:00") (trim (queryInput page)) m
           end.
Proof.
  intros page reply.
  assert (H : ~ blank (queryInput page)).
  { not_blank. }
  split; [exact H|].
  exact (one_audit_entry_per_question (str "12:00:00") reply page H).
Defined.

(** C6.  The audit trail only grows at its end.  [updateAuditTrail] and the
    [catch] callback each put one entry behind the ones already there;
    [displayQueries] does not touch the trail; after [submitQuery], and
    after any number of submissions, the entries there before are still
    there, unchanged and at the same places, as a prefix of the trail. *)
Theorem audit_trail_append_only :
  (forall queryText timestamp data p,
     auditTrail (fst (updateAuditTrail queryText timestamp data p))
     = auditTrail p ++ [resourceHTML queryText timestamp data])
  /\ (forall queryText timestamp message p,
        auditTrail (onError queryText timestamp message p)
        = auditTrail p ++ [ErrorEntry timestamp queryText message])
  /\ (forall data p, auditTrail (fst (displayQueries data p)) = auditTrail p)
  /\ (forall timestamp reply p,
        exists added,
          auditTrail (submitQuery timestamp reply p) = auditTrail p ++ added
          /\ length added <= 1)
  /\ (forall events p,
        exists added,
          auditTrail (session events p) = auditTrail p ++ added)
  /\ (forall events p k entry,
        auditTrail p !! k = Some entry ->
        auditTrail (session events p) !! k = Some entry).
Proof.
  assert (Hsubmit : forall timestamp reply p,
             exists added,
               auditTrail (submitQuery timestamp reply p) = auditTrail p ++ added
               /\ length added <= 1).
  { intros. rewrite submitQuery_auditTrail. eexists. split; [done|].
    destruct (blank_dec _); simpl; lia. }
  assert (Hsession : forall events p,
             exists added, auditTrail (session events p) = auditTrail p ++ added).
  { induction events as [|[[typed timestamp] reply] events IH]; intros p.
    - exists []. by rewrite app_nil_r.
    - cbn [session]. destruct (IH (submitQuery timestamp reply (typeIn typed p)))
        as [more ->].
      destruct (Hsubmit timestamp reply (typeIn typed p)) as (added & -> & _).
      rewrite typeIn_auditTrail, <- app_assoc. eauto. }
  repeat split; try done.
  - intros data p. by destruct (displayQueries_frame data p) as (blocks & -> & _).
  - intros events p k entry Hk. destruct (Hsession events p) as [added ->].
    by apply lookup_app_l_Some.
Qed.

(** ** Blank questions *)

(** C7, as stated, fails: on a question of three spaces [submitQuery]
    returns at once.  The page is as it was: no error block and no prompt in
    the chat, nothing in the audit trail, the spaces still in the input. *)
Lemma blank_question_is_dropped_silently :
  let page := asking (str "   ") in
  let page' := submitQuery (str "12:00:00") (Rejected (str "Failed to fetch")) page in
  blank (queryInput page)
  /\ page' = page
  /\ chatHistory page' = []
  /\ auditTrail page' = []
  /\ queryInput page' = str "   ".
Proof.
  cbn zeta. split; [is_blank|by vm_compute].
Qed.

(** C7, amended.  On a question that is empty or white space only,
    [submitQuery] does nothing: nothing is sent to the server, nothing is
    added to the chat or to the audit trail (no answer, no error, no
    prompt), and the input keeps what was typed. *)
Theorem blank_question_is_not_submitted
    (timestamp : jstring) (reply : Reply) (page : Page) :
  blank (queryInput page) ->
  submitQuery timestamp reply page = page
  /\ posted (submitQuery timestamp reply page) = posted page
  /\ chatHistory (submitQuery timestamp reply page) = chatHistory page
  /\ auditTrail (submitQuery timestamp reply page) = auditTrail page.
Proof. intros H. by rewrite submitQuery_blank. Qed.

Lemma blank_question_is_not_submitted_witness :
  let page := asking [SPACE; 9%N; LF; 160%N] in
  let reply := Response true 200 (Ok (answerData (str "See plan.txt") planContext)) in
  blank (queryInput page)
  /\ submitQuery (str "12:00:00") reply page = page
  /\ posted (submitQuery (str "12:00:00") reply page) = posted page
  /\ chatHistory (submitQuery (str "12:00:00") reply page) = chatHistory page
  /\ auditTrail (submitQuery (str "12:00:00") reply page) = auditTrail page.
Proof.
  intros page reply.
  assert (H : blank (queryInput page)).
  { is_blank. }
  split; [exact H|].
  exact (blank_question_is_not_submitted (str "12:00:00") reply page H).
Defined.

(** ** Answer or error *)




(** ** No evidence *)

(** C9.  When the reply is the one the synthesizer gives for an empty
    context (the fixed message as the answer, no error, a graph context that
    is missing, empty or without any [Found in:] line), the answer shown is
    that message as it came: no marker is put into it, the citations are
    the empty list and no reference list is shown. *)
Theorem empty_context_answer
    (message timestamp : jstring) (status : nat) (data : Data) (page : Page) :
  insufficientInformationReply message data ->
  ~ blank (queryInput page) ->
  citations data = Ok {| processedResponse := Some message; docRefs := [] |}
  /\ chatHistory (submitQuery timestamp (Response true status (Ok data)) page)
     = chatHistory page
       ++ [UserMessage (trim (queryInput page)); BotMessage message []].
Proof.
  intros (He & Hr & Hd) Hb.
  assert (Hc : citations data
               = Ok {| processedResponse := Some message; docRefs := [] |}).
  { rewrite (citations_string data message Hr), Hd. done. }
  split; [done|].
  rewrite submitQuery_sent by done. cbn zeta. cbn [settle negb bindR].
  by rewrite He, Hc.
Qed.

Lemma empty_context_answer_witness :
  let message := str "I don't have enough information to answer that." in
  let data :=
    {| error := None;
       response := Some message;
       technical_details :=
         Some {| queries :=
                   Some {| graph_context := Some [];
                           semantic_data := None |} |} |} in
  let page := asking (str "Who won?") in
  insufficientInformationReply message data
  /\ ~ blank (queryInput page)
  /\ citations data = Ok {| processedResponse := Some message; docRefs := [] |}
  /\ chatHistory
       (submitQuery (str "12:00:00") (Response true 200 (Ok data)) page)
     = chatHistory page
       ++ [UserMessage (trim (queryInput page)); BotMessage message []].
Proof.
  intros message data page.
  assert (H1 : insufficientInformationReply message data).
  { repeat split; vm_compute; reflexivity. }
  assert (H2 : ~ blank (queryInput page)).
  { not_blank. }
  split; [exact H1|]. split; [exact H2|].
  exact (empty_context_answer message (str "12:00:00") 200 data page H1 H2).
Defined.

(** ** The documents of an audit entry *)

Lemma inClass_spec (c : N) : inClass c = true <-> c <> HYPHEN /\ c <> LF.
Proof.
  unfold inClass. rewrite andb_true_iff, !negb_true_iff, !N.eqb_neq. tauto.
Qed.

Lemma inClass_plain (l : jstring) :
  Forall (fun c => inClass c = true) l <-> Forall plain l.
Proof.
  split; intros H; (eapply Forall_impl; [exact H|]);
    intros c Hc; by apply inClass_spec.
Qed.

Lemma DOT_TXT_eq : DOT_TXT = [46; 116; 120; 116]%N.
Proof. reflexivity. Qed.

Lemma DOT_TXT_inClass : Forall (fun c => inClass c = true) DOT_TXT.
Proof. rewrite DOT_TXT_eq. by repeat constructor. Qed.

Lemma classRun_le (s : jstring) : classRun s <= length s.
Proof. induction s as [|c s IH]; simpl; [lia|]. destruct (inClass c); simpl; lia. Qed.

Lemma classRun_take (n : nat) (s : jstring) :
  n <= classRun s -> Forall (fun c => inClass c = true) (take n s).
Proof.
  revert n. induction s as [|c s IH]; intros [|n] Hn; simpl in *; try constructor.
  - destruct (inClass c); [done|lia].
  - apply IH. destruct (inClass c); lia.
Qed.

Lemma classRun_app (u t : jstring) :
  Forall (fun c => inClass c = true) u ->
  classRun (u ++ t) = length u + classRun t.
Proof.
  induction 1 as [|c u Hc Hu IH]; simpl; [done|]. by rewrite Hc, IH.
Qed.

(** What the backtracking finds: the largest count, from [k] down to one,
    after which [.txt] follows. *)
Lemma backtrack_spec (k : nat) (s : jstring) :
  match backtrack k s with
  | Some n =>
      1 <= n <= k
      /\ startsWith DOT_TXT (drop n s) = true
      /\ forall j, n < j <= k -> startsWith DOT_TXT (drop j s) = false
  | None => forall j, 1 <= j <= k -> startsWith DOT_TXT (drop j s) = false
  end.
Proof.
  induction k as [|k IH]; cbn [backtrack]; [intros; lia|].
  destruct (startsWith DOT_TXT (drop (S k) s)) eqn:E.
  - split; [lia|]. split; [done|]. intros; lia.
  - destruct (backtrack k s) as [n|].
    + destruct IH as (Hn & Hdot & Hmax). split; [lia|]. split; [done|].
      intros j Hj. destruct (decide (j = S k)) as [->|]; [done|]. apply Hmax. lia.
    + intros j Hj. destruct (decide (j = S k)) as [->|]; [done|]. apply IH. lia.
Qed.

Lemma DOT_TXT_gap (i : nat) (post : jstring) :
  1 <= i <= 3 -> startsWith DOT_TXT (drop i (DOT_TXT ++ post)) = false.
Proof.
  intros Hi. rewrite DOT_TXT_eq.
  destruct i as [|[|[|[|i]]]]; try lia; reflexivity.
Qed.

(** A match at the start of [s] is the text [- <name>.txt], the name taken
    as far as it goes. *)
Lemma matchAt_Some (s m : jstring) :
  matchAt s = Some m ->
  exists name post,
    s = HYPHEN :: SPACE :: name ++ DOT_TXT ++ post
    /\ m = HYPHEN :: SPACE :: name ++ DOT_TXT
    /\ docName name
    /\ longest post.
Proof.
  destruct s as [|c0 [|c1 rest]]; try done. unfold matchAt.
  destruct (c0 =? HYPHEN)%N eqn:E0; [|done].
  destruct (c1 =? SPACE)%N eqn:E1; [|done].
  apply N.eqb_eq in E0, E1. subst c0 c1. cbn [andb].
  pose proof (backtrack_spec (classRun rest) rest) as Hb.
  destruct (backtrack (classRun rest) rest) as [k|]; [|done].
  intros [= <-]. destruct Hb as (Hk & Hdot & Hmax).
  apply startsWith_spec in Hdot as [post Hpost].
  pose proof (classRun_le rest) as Hle.
  assert (Hlen : length (take k rest) = k) by (rewrite length_take; lia).
  assert (Hrest : rest = take k rest ++ DOT_TXT ++ post).
  { by rewrite <- Hpost, take_drop. }
  assert (Hname : Forall (fun c => inClass c = true) (take k rest)).
  { apply classRun_take. lia. }
  exists (take k rest), post. split; [by rewrite <- Hrest|]. split; [|split].
  - do 2 f_equal. rewrite <- take_take_drop, Hpost. by rewrite DOT_TXT_eq.
  - split; [|by apply inClass_plain].
    intros Hnil. rewrite Hnil in Hlen. simpl in Hlen. lia.
  - intros (ext & rest' & Hext%inClass_plain & ->).
    change (str ".txt") with DOT_TXT in *.
    remember (take k rest ++ DOT_TXT ++ ext) as u eqn:Hu.
    assert (Hclass : Forall (fun c => inClass c = true) u).
    { subst u. repeat apply Forall_app_2; auto using DOT_TXT_inClass. }
    assert (Hlenu : length u = k + 4 + length ext).
    { subst u. rewrite !length_app, Hlen, DOT_TXT_eq. simpl. lia. }
    assert (Hrest' : rest = u ++ DOT_TXT ++ rest').
    { subst u. rewrite Hrest at 1. by rewrite <- !app_assoc. }
    assert (Hrun : length u <= classRun rest).
    { rewrite Hrest', classRun_app by done. lia. }
    assert (Hd : startsWith DOT_TXT (drop (length u) rest) = true).
    { rewrite Hrest', drop_app_length. apply startsWith_app. }
    rewrite Hmax in Hd by lia. done.
Qed.

Lemma matchAt_complete (name post : jstring) :
  docName name -> longest post ->
  matchAt (HYPHEN :: SPACE :: name ++ DOT_TXT ++ post)
  = Some (HYPHEN :: SPACE :: name ++ DOT_TXT).
Proof.
  intros [Hne Hname%inClass_plain] Hlong.
  unfold matchAt. rewrite !N.eqb_refl. cbn [andb].
  set (rest := name ++ DOT_TXT ++ post).
  assert (Hlen : 1 <= length name) by (destruct name; [done|simpl; lia]).
  assert (Hrun : length name + 4 <= classRun rest).
  { unfold rest. rewrite classRun_app by done.
    rewrite classRun_app by apply DOT_TXT_inClass. rewrite DOT_TXT_eq. simpl. lia. }
  assert (Hhere : startsWith DOT_TXT (drop (length name) rest) = true).
  { unfold rest. by rewrite drop_app_length, startsWith_app. }
  pose proof (backtrack_spec (classRun rest) rest) as Hb.
  destruct (backtrack (classRun rest) rest) as [n|].
  2:{ rewrite Hb in Hhere by lia. done. }
  destruct Hb as (Hn & Hdot & Hmax).
  assert (Hge : length name <= n).
  { destruct (decide (length name <= n)); [done|].
    rewrite Hmax in Hhere by lia. done. }
  assert (n = length name) as ->.
  { destruct (decide (n = length name)); [done|]. exfalso.
    assert (Hn' : n = length name + (n - length name)) by lia.
    rewrite Hn' in Hdot. unfold rest in Hdot.
    rewrite drop_app_add in Hdot.
    destruct (decide (n - length name <= 3)) as [Hi|Hi].
    { rewrite DOT_TXT_gap in Hdot by lia. done. }
    assert (Hi' : n - length name = length DOT_TXT + (n - length name - 4)).
    { rewrite DOT_TXT_eq. simpl. lia. }
    rewrite Hi', drop_app_add in Hdot.
    apply startsWith_spec in Hdot as [rest' Hdrop].
    apply Hlong. exists (take (n - length name - 4) post), rest'. split.
    - assert (Hall : Forall (fun c => inClass c = true) (take n rest)).
      { apply classRun_take. lia. }
      rewrite Hn', Hi' in Hall. unfold rest in Hall.
      rewrite take_app_add, take_app_add in Hall.
      apply inClass_plain.
      by apply Forall_app in Hall as [_ [_ Hall]%Forall_app].
    - change (str ".txt") with DOT_TXT. by rewrite <- Hdrop, take_drop. }
  do 3 f_equal. unfold rest. rewrite app_assoc.
  apply take_app_length'. rewrite length_app, DOT_TXT_eq. simpl. lia.
Qed.

(** The code units passed over after a match hold no hyphen, so no match
    can start among them. *)
Lemma matchAt_skipped (c : N) (s m : jstring) :
  matchAt (c :: s) = Some m ->
  Forall (fun d => d <> HYPHEN) (take (length m - 1) s).
Proof.
  intros H. apply matchAt_Some in H as (name & post & Hs & -> & [_ Hname] & _).
  assert (Hs' : s = (SPACE :: name ++ DOT_TXT) ++ post).
  { injection Hs as _ ->.
    change ((SPACE :: name ++ DOT_TXT) ++ post)
      with (SPACE :: (name ++ DOT_TXT) ++ post).
    rewrite <- app_assoc. reflexivity. }
  replace (length (HYPHEN :: SPACE :: name ++ DOT_TXT) - 1)
    with (length (SPACE :: name ++ DOT_TXT)) by (simpl; lia).
  rewrite Hs', take_app_length.
  constructor; [done|]. apply Forall_app_2.
  - eapply Forall_impl; [exact Hname|]. unfold plain, HYPHEN. tauto.
  - rewrite DOT_TXT_eq. by repeat constructor.
Qed.

Lemma matchAllFrom_sound (skip : nat) (s m : jstring) :
  In m (matchAllFrom skip s) ->
  exists pre t, s = pre ++ t /\ matchAt t = Some m.
Proof.
  revert skip. induction s as [|c s IH]; intros skip; [done|].
  cbn [matchAllFrom]. destruct skip as [|k].
  - destruct (matchAt (c :: s)) as [m0|] eqn:E.
    + intros [->|Hin]; [by exists [], (c :: s)|].
      destruct (IH _ Hin) as (pre & t & -> & Ht). by exists (c :: pre), t.
    + intros Hin. destruct (IH _ Hin) as (pre & t & -> & Ht). by exists (c :: pre), t.
  - intros Hin. destruct (IH _ Hin) as (pre & t & -> & Ht). by exists (c :: pre), t.
Qed.

Lemma matchAllFrom_complete (skip : nat) (pre t m : jstring) :
  Forall (fun d => d <> HYPHEN) (take skip (pre ++ t)) ->
  matchAt t = Some m ->
  In m (matchAllFrom skip (pre ++ t)).
Proof.
  revert skip. induction pre as [|c pre IH]; intros skip Hskip Ht.
  - destruct t as [|c0 t]; [done|]. cbn [app] in *.
    assert (c0 = HYPHEN) as ->.
    { by apply matchAt_Some in Ht as (? & ? & [= -> _] & _). }
    destruct skip as [|k]; [|by inversion Hskip].
    cbn [matchAllFrom]. rewrite Ht. by left.
  - cbn [app matchAllFrom]. destruct skip as [|k].
    + destruct (matchAt (c :: pre ++ t)) as [m0|] eqn:E.
      * right. apply IH; [|done]. by eapply matchAt_skipped.
      * apply IH; [constructor|done].
    + apply IH; [|done]. cbn [app take] in Hskip. by inversion Hskip.
Qed.

(** The documents [updateAuditTrail] lists are the titles that match. *)
Lemma auditDocs_patternTitle (gc d : jstring) :
  In d (auditDocs (Some gc)) <-> patternTitle gc d.
Proof.
  assert (Hmap : In d (auditDocs (Some gc))
                 <-> exists m, In m (matchAllFrom 0 gc) /\ d = drop 2 m).
  { unfold auditDocs, matchDocs.
    destruct (matchAllFrom 0 gc) as [|m0 ms] eqn:E.
    - simpl. split; [done|]. by intros (? & [] & _).
    - rewrite in_map_iff. split; intros (m & ? & ?); by exists m. }
  rewrite Hmap. unfold patternTitle. split.
  - intros (m & Hin & ->).
    apply matchAllFrom_sound in Hin as (pre & t & -> & Ht).
    apply matchAt_Some in Ht as (name & post & -> & -> & Hname & Hlong).
    by exists pre, name, post.
  - intros (pre & name & post & -> & -> & Hname & Hlong).
    exists (HYPHEN :: SPACE :: name ++ DOT_TXT). split; [|done].
    apply matchAllFrom_complete; [constructor|].
    by apply matchAt_complete.
Qed.

Lemma patternTitle_shape (gc d : jstring) :
  patternTitle gc d ->
  Forall plain d /\ (exists name, d = name ++ str ".txt")
  /\ substring (str "- " ++ d) gc.
Proof.
  intros (pre & name & post & -> & -> & [_ Hname] & _).
  split; [|split].
  - apply Forall_app_2; [done|]. by repeat constructor.
  - by exists name.
  - exists pre, post. cbn [app str]. by rewrite <- app_assoc.
Qed.

(** A match that stops at the end of the text, at a newline or at a hyphen
    goes as far as it can. *)
Lemma longest_at_boundary (post : jstring) :
  post = [] \/ (exists rest, post = LF :: rest)
  \/ (exists rest, post = HYPHEN :: rest) ->
  longest post.
Proof.
  intros Hpost (ext & rest' & Hext & ->).
  change (str ".txt") with DOT_TXT in Hpost.
  destruct ext as [|c ext].
  - rewrite DOT_TXT_eq in Hpost. cbn [app] in Hpost.
    destruct Hpost as [?|[[r ?]|[r ?]]]; done.
  - inversion Hext as [|? ? [? ?] _]; subst.
    cbn [app] in Hpost.
    destruct Hpost as [?|[[r [= ?]]|[r [= ?]]]]; done.
Qed.

(** C10, as stated, fails: in the context "- a.txt b.txt" the title
    [a.txt] stands behind "- " with a name that holds no hyphen and no
    newline, and the entry lists [a.txt b.txt] and not [a.txt]: the name is
    taken as far as it goes. *)
Lemma shorter_title_is_not_listed :
  let gc := str "- a.txt b.txt" in
  let data := answerData (str "See a.txt") gc in
  gc = [] ++ str "- " ++ str "a" ++ str ".txt" ++ str " b.txt"
  /\ docName (str "a")
  /\ auditTrail
       (fst (updateAuditTrail (str "Which?") (str "12:00:00") data emptyPage))
     = [ResourceEntry (str "12:00:00") (str "Which?") [str "a.txt b.txt"] None]
  /\ existsb (eqs (str "a.txt")) (auditDocs (data_graph_context data)) = false.
Proof.
  cbn zeta. split; [reflexivity|]. split; [|split; vm_compute; reflexivity].
  split; [done|]. repeat constructor; discriminate.
Qed.

(** C10, amended.  The entry [updateAuditTrail] appends lists as referenced
    documents exactly the titles [<name>.txt] that stand behind "- " in the
    graph context of the reply, the name being not empty, holding no hyphen
    and no newline and being taken as far as it goes: the text behind the
    title does not go on, without hyphen and newline, up to another [.txt].
    Nothing is listed without a graph context.  In particular a title
    behind "- " that runs to the end of the text, to a newline or to a
    hyphen is listed.  Each listed title holds no hyphen and no newline,
    ends in [.txt] and stands behind "- " in the context; so a title with a
    hyphen, or one that does not end in [.txt], is never listed, even when
    its document is in the context. *)
Theorem audit_documents_match_pattern
    (queryText timestamp : jstring) (data : Data) (p : Page) :
  exists docs queryFocus,
    auditTrail (fst (updateAuditTrail queryText timestamp data p))
    = auditTrail p ++ [ResourceEntry timestamp queryText docs queryFocus]
    /\ docs = auditDocs (data_graph_context data)
    /\ (forall d,
          In d docs <->
          exists gc pre name post,
            data_graph_context data = Some gc
            /\ gc = pre ++ str "- " ++ name ++ str ".txt" ++ post
            /\ d = name ++ str ".txt"
            /\ name <> [] /\ Forall plain name
            /\ ~ (exists ext rest,
                    Forall plain ext /\ post = ext ++ str ".txt" ++ rest))
    /\ (forall gc pre name post,
          data_graph_context data = Some gc ->
          gc = pre ++ str "- " ++ name ++ str ".txt" ++ post ->
          name <> [] -> Forall plain name ->
          post = [] \/ (exists rest, post = 10%N :: rest)
          \/ (exists rest, post = 45%N :: rest) ->
          In (name ++ str ".txt") docs)
    /\ (forall d,
          In d docs ->
          Forall plain d /\ (exists name, d = name ++ str ".txt")
          /\ exists gc,
               data_graph_context data = Some gc
               /\ substring (str "- " ++ d) gc)
    /\ (forall title,
          In 45%N title \/ ~ (exists name, title = name ++ str ".txt") ->
          ~ In title docs).
Proof.
  assert (Hiff : forall d,
             In d (auditDocs (data_graph_context data)) <->
             exists gc, data_graph_context data = Some gc /\ patternTitle gc d).
  { intros d. destruct (data_graph_context data) as [gc|].
    - rewrite auditDocs_patternTitle. split; [by exists gc|by intros (? & [= <-] & ?)].
    - simpl. split; [done|by intros (? & [=] & _)]. }
  assert (Hshape : forall d,
             In d (auditDocs (data_graph_context data)) ->
             Forall plain d /\ (exists name, d = name ++ str ".txt")
             /\ exists gc,
                  data_graph_context data = Some gc
                  /\ substring (str "- " ++ d) gc).
  { intros d (gc & Hgc & Hp)%Hiff.
    apply patternTitle_shape in Hp as (? & ? & ?). eauto 10. }
  eexists _, _. split; [reflexivity|]. split; [reflexivity|].
  split; [|split; [|split; [exact Hshape|]]].
  - intros d. rewrite Hiff. unfold patternTitle, docName, longest. split.
    + intros (gc & Hgc & pre & name & post & ? & ? & [? ?] & ?).
      by exists gc, pre, name, post.
    + intros (gc & pre & name & post & Hgc & ? & ? & ? & ? & ?).
      exists gc. split; [done|]. by exists pre, name, post.
  - intros gc pre name post Hgc -> Hne Hname Hpost. apply Hiff.
    eexists. split; [exact Hgc|].
    exists pre, name, post. repeat split; try done.
    by apply longest_at_boundary.
  - intros title Hbad Hin. apply Hshape in Hin as (Hall & Hname & _).
    destruct Hbad as [Hh|Hn]; [|done].
    rewrite Forall_forall in Hall. apply list_elem_of_In, Hall in Hh.
    by destruct Hh.
Qed.

(** ** Further properties *)

(** The scenario of two documents both mentioned by the answer: the markers
    [[1]] and [[2]] stand for the two titles in the order of their
    [Found in:] lines. *)
Example two_documents_cited :
  citations
    (answerData
       (str "The women run a perimeter defense (Women's Defense.txt, Drills.txt).")
       (str "Result 1" ++ [LF] ++ str "  Found in: Women's Defense.txt" ++ [LF]
        ++ str "Result 2" ++ [LF] ++ str "  Found in: Drills.txt" ++ [LF]
        ++ str "Result 3" ++ [LF] ++ str "  Found in: Women's Defense.txt"))
  = Ok {| processedResponse :=
            Some (str "The women run a perimeter defense ([1], [2]).");
          docRefs := [str "1. Women's Defense.txt"; str "2. Drills.txt"] |}.
Proof. vm_compute. reflexivity. Qed.

(** X1.  Over a whole visit the audit trail grows by one entry for each
    submission whose question is not blank, and by nothing else. *)
Theorem session_audit_count
    (events : list (jstring * jstring * Reply)) (p : Page) :
  length (auditTrail (session events p))
  = length (auditTrail p)
    + length (List.filter (fun e => truthy (trim (fst (fst e)))) events).
Proof.
  revert p. induction events as [|[[typed timestamp] reply] events IH]; intros p.
  - simpl. lia.
  - cbn [session List.filter fst]. rewrite IH, submitQuery_auditTrail.
    rewrite length_app, typeIn_auditTrail.
    change (queryInput (typeIn typed p)) with typed.
    destruct (blank_dec typed) as [Hb|Hb].
    + apply truthy_trim_blank in Hb. rewrite Hb. simpl. lia.
    + rewrite <- truthy_trim_blank in Hb.
      destruct (truthy (trim typed)); [simpl; lia|done].
Qed.

(** X2.  The class the script escapes a title with holds exactly the
    syntax characters of the pattern grammar, the backslash among them, so
    the regular expression built from any title is well formed and matches
    that title as plain text. *)
Theorem escaped_title_is_literal (doc : jstring) :
  (forall c, inEscapeClass c = isSyntaxCharacter c)
  /\ RegExp (escapeRegExp doc) = Ok doc.
Proof. split; [apply inEscapeClass_syntax|apply RegExp_escapeRegExp]. Qed.



(** ** Trimmed questions and titles *)

Lemma trimStart_head (s : jstring) (c : N) (r : jstring) :
  trimStart s = c :: r -> isWhiteSpace c = false.
Proof.
  induction s as [|x s IH]; simpl; [done|].
  destruct (isWhiteSpace x) eqn:E; [done|]. by intros [= <- _].
Qed.

Lemma trimStart_snoc (l : jstring) (c : N) :
  isWhiteSpace c = false -> trimStart (l ++ [c]) = trimStart l ++ [c].
Proof.
  intros Hc. induction l as [|x l IH]; simpl; [by rewrite Hc|].
  by destruct (isWhiteSpace x).
Qed.

Lemma trimStart_fixed (s : jstring) :
  (forall c r, s = c :: r -> isWhiteSpace c = false) -> trimStart s = s.
Proof. destruct s as [|c r]; [done|]. intros H. simpl. by rewrite (H c r). Qed.

Lemma trimEnd_cons (c : N) (s : jstring) :
  isWhiteSpace c = false -> trimEnd (c :: s) = c :: trimEnd s.
Proof.
  intros Hc. unfold trimEnd. simpl rev at 2.
  by rewrite trimStart_snoc, rev_app_distr.
Qed.

Lemma trim_trimmed (s : jstring) : trimmed (trim s).
Proof.
  unfold trim. split.
  - intros c r H. destruct (trimStart s) as [|a u] eqn:Eu; [done|].
    pose proof (trimStart_head _ _ _ Eu) as Ha.
    rewrite trimEnd_cons in H by done. by injection H as <- _.
  - intros c r H. unfold trimEnd in H.
    apply (f_equal (@rev N)) in H. rewrite rev_involutive, rev_app_distr in H.
    simpl in H. by eapply trimStart_head.
Qed.

Lemma trimmed_trim (t : jstring) : trimmed t -> trim t = t.
Proof.
  intros [Hhead Hlast]. unfold trim, trimEnd.
  rewrite (trimStart_fixed t Hhead).
  rewrite trimStart_fixed; [apply rev_involutive|].
  intros c r H. apply (Hlast c (rev r)).
  rewrite <- (rev_involutive t), H. done.
Qed.

Lemma trim_idempotent (s : jstring) : trim (trim s) = trim s.
Proof. apply trimmed_trim, trim_trimmed. Qed.

(** ** What a visit of the chat page sends and shows *)

Lemma typeIn_fields (typed : jstring) (p : Page) :
  queryInput (typeIn typed p) = typed
  /\ posted (typeIn typed p) = posted p
  /\ chatHistory (typeIn typed p) = chatHistory p
  /\ cypherQueries (typeIn typed p) = cypherQueries p.
Proof. done. Qed.

Lemma submitQuery_typed (typed timestamp : jstring) (reply : Reply) (p : Page) :
  let p' := submitQuery timestamp reply (typeIn typed p) in
  if truthy (trim typed) then
    posted p' = posted p ++ [trim typed]
    /\ chatHistory p'
       = chatHistory p ++ [UserMessage (trim typed); replyBlock reply]
    /\ cypherQueries p'
       = match settle reply with
         | Ok (data, _) => cypherQueries (fst (displayQueries data emptyPage))
         | Throw _ => cypherQueries p
         end
    /\ queryInput p' = []
  else p' = typeIn typed p.
Proof.
  cbn zeta. destruct (truthy (trim typed)) eqn:E.
  - assert (Hb : ~ blank (queryInput (typeIn typed p))).
    { rewrite <- truthy_trim_blank. simpl. congruence. }
    rewrite submitQuery_sent by done. cbn zeta. unfold replyBlock.
    by destruct (settle reply) as [[data cited]|m].
  - apply submitQuery_blank. by apply truthy_trim_blank.
Qed.

(** X4.  Over a visit the questions sent to the server are the questions
    that are not blank, trimmed, in the order of their submission: a
    question sent is never empty and neither starts nor ends with white
    space, and a blank one is never sent. *)
Theorem sent_questions_are_trimmed
    (events : list (jstring * jstring * Reply)) (p : Page) :
  posted (session events p) = posted p ++ sentQuestions events
  /\ Forall (fun q => q <> [] /\ trimmed q /\ trim q = q) (sentQuestions events).
Proof.
  split.
  - revert p. induction events as [|[[typed timestamp] reply] events IH]; intros p.
    + by rewrite app_nil_r.
    + cbn [session]. rewrite IH. unfold sentQuestions. cbn [List.filter fst].
      pose proof (submitQuery_typed typed timestamp reply p) as H. cbn zeta in H.
      destruct (truthy (trim typed)).
      * destruct H as (-> & _). cbn [map fst]. by rewrite <- app_assoc.
      * by rewrite H.
  - unfold sentQuestions. apply Forall_map, Forall_forall.
    intros e [_ He]%list_elem_of_In%filter_In.
    split; [by destruct (trim (fst (fst e)))|].
    split; [apply trim_trimmed|apply trim_idempotent].
Qed.

(** ** Requests that overlap *)

Lemma ask_fields (p : Page) :
  ask p
  = if truthy (trim (queryInput p))
    then ({| chatHistory := chatHistory p ++ [UserMessage (trim (queryInput p))];
             cypherQueries := cypherQueries p;
             auditTrail := auditTrail p;
             queryInput := [];
             posted := posted p ++ [trim (queryInput p)] |},
          Some (trim (queryInput p)))
    else (p, None).
Proof. unfold ask. cbn zeta. by destruct (truthy (trim (queryInput p))). Qed.

(** [submitQuery] with its reply is the part that runs at once followed by
    the callbacks. *)
Lemma submitQuery_ask (timestamp : jstring) (reply : Reply) (p : Page) :
  submitQuery timestamp reply p
  = match ask p with
    | (p1, Some queryText) => settled queryText timestamp reply p1
    | (p1, None) => p1
    end.
Proof.
  unfold submitQuery, ask. cbn zeta.
  by destruct (truthy (trim (queryInput p))).
Qed.

Lemma settled_fields (queryText timestamp : jstring) (reply : Reply) (p : Page) :
  let p' := settled queryText timestamp reply p in
  chatHistory p' = chatHistory p ++ [replyBlock reply]
  /\ cypherQueries p'
     = match settle reply with
       | Ok (data, _) => cypherQueries (fst (displayQueries data emptyPage))
       | Throw _ => cypherQueries p
       end
  /\ posted p' = posted p
  /\ auditTrail p'
     = auditTrail p
       ++ [match settle reply with
           | Ok (data, _) => resourceHTML queryText timestamp data
           | Throw m => ErrorEntry timestamp queryText m
           end].
Proof.
  cbn zeta. unfold settled, replyBlock, catch, bind, onError, appendChat,
    appendAudit.
  destruct reply as [m|ok status json]; cbn; [done|].
  destruct ok; cbn; [|done].
  destruct json as [data|m]; cbn; [|done].
  unfold onData, bind, throw, ret, lift, setInput, appendChat,
    updateAuditTrail, appendAudit.
  destruct (truthyField (error data)); cbn; [done|].
  destruct (citations data) as [cited|m]; cbn; [|done].
  match goal with
  | |- context [displayQueries data ?q] =>
      destruct (displayQueries_frame data q) as (blocks & -> & ->)
  end.
  done.
Qed.

Lemma askedQuestions_cons (h : Happening) (hs : list Happening) :
  askedQuestions (h :: hs) = askedQuestions [h] ++ askedQuestions hs.
Proof. unfold askedQuestions. cbn [flat_map]. by rewrite app_nil_r. Qed.

Lemma arrivals_cons (h : Happening) (hs : list Happening) (n : nat) :
  arrivals (h :: hs) n
  = arrivals [h] n
    ++ arrivals hs (n + length (askedQuestions [h]) - length (arrivals [h] n)).
Proof.
  destruct h as [typed|typed|k timestamp reply];
    unfold askedQuestions; cbn [arrivals flat_map].
  - destruct (truthy (trim typed)); cbn [app length]; f_equal; lia.
  - cbn [app length]. f_equal; lia.
  - destruct (k <? n); cbn [app length]; repeat f_equal; lia.
Qed.

Lemma lastAnswer_app (l1 l2 : list Reply) (seen : option Data) :
  lastAnswer (l1 ++ l2) seen = lastAnswer l2 (lastAnswer l1 seen).
Proof. revert seen. induction l1 as [|r l1 IH]; intros seen; [done|]. apply IH. Qed.

(** One happening: what it adds to the chat, sends, and shows on the
    panel. *)
Lemma happen_fields (h : Happening) (b : Browsing) :
  let n := length (pending b) in
  let b' := happen h b in
  exists added,
    chatHistory (shown b') = chatHistory (shown b) ++ added
    /\ questionsOf added = askedQuestions [h]
    /\ repliesOf added = map replyBlock (arrivals [h] n)
    /\ posted (shown b') = posted (shown b) ++ askedQuestions [h]
    /\ length (pending b') + length (arrivals [h] n)
       = n + length (askedQuestions [h])
    /\ cypherQueries (shown b')
       = match lastAnswer (arrivals [h] n) None with
         | Some data => cypherQueries (fst (displayQueries data emptyPage))
         | None => cypherQueries (shown b)
         end.
Proof.
  cbn zeta. destruct h as [typed|typed|k timestamp reply].
  - cbn [happen]. rewrite ask_fields.
    change (queryInput (typeIn typed (shown b))) with typed.
    unfold askedQuestions. cbn [flat_map arrivals].
    destruct (truthy (trim typed)) eqn:E; rewrite ?E.
    + exists [UserMessage (trim typed)]. cbn. rewrite length_app. cbn.
      repeat split; lia.
    + exists []. cbn. rewrite !app_nil_r. repeat split; lia.
  - exists []. cbn. rewrite !app_nil_r. repeat split; lia.
  - cbn [happen arrivals].
    destruct (pending b !! k) as [queryText|] eqn:Ek.
    + assert (Hk : k < length (pending b)) by (by eapply lookup_lt_Some).
      apply Nat.ltb_lt in Hk as Hk'. rewrite Hk'.
      destruct (settled_fields queryText timestamp reply (shown b))
        as (Hc & Hq & Hp & _).
      exists [replyBlock reply]. cbn [shown pending].
      split; [done|].
      split; [unfold replyBlock; by destruct (settle reply) as [[]|]|].
      split; [cbn [map]; unfold replyBlock, repliesOf;
              destruct (settle reply) as [[]|]; reflexivity|].
      split; [by rewrite Hp, app_nil_r|]. split.
      * rewrite length_delete by (by rewrite Ek). cbn. lia.
      * rewrite Hq. cbn. by destruct (settle reply) as [[data cited]|m].
    + assert (Hk : ~ k < length (pending b)).
      { intros Hk. apply lookup_lt_is_Some_2 in Hk as [? ?]. congruence. }
      apply Nat.ltb_nlt in Hk. rewrite Hk.
      exists []. cbn. rewrite !app_nil_r. repeat split; lia.
Qed.

Lemma questionsOf_app (l1 l2 : list ChatBlock) :
  questionsOf (l1 ++ l2) = questionsOf l1 ++ questionsOf l2.
Proof. apply flat_map_app. Qed.

Lemma repliesOf_app (l1 l2 : list ChatBlock) :
  repliesOf (l1 ++ l2) = repliesOf l1 ++ repliesOf l2.
Proof. apply List.filter_app. Qed.

(** A visit in which every request settles before the next text is
    submitted is a visit of [session]. *)
Lemma session_inTurn (events : list (jstring * jstring * Reply)) (p : Page) :
  browse (inTurn events) {| shown := p; pending := [] |}
  = {| shown := session events p; pending := [] |}.
Proof.
  revert p. induction events as [|[[typed timestamp] reply] events IH];
    intros p; [done|].
  unfold browse, inTurn in *. cbn [flat_map fst snd app fold_left session].
  rewrite <- IH. f_equal.
  rewrite submitQuery_ask. cbn [happen shown pending].
  destruct (ask (typeIn typed p)) as [p1 [queryText|]]; by cbn.
Qed.

(** X5.  The form stays enabled while a request is on its way, so the
    requests of a visit can overlap and their replies arrive in any order.
    Whatever the order, the chat only grows; it holds the questions sent,
    in the order they were sent, and one reply block, the answer or the
    error, for each request that has settled, in the order the replies
    arrived, so a reply block need not stand behind its question; a
    question whose request has not settled is still on its way.  When
    every request settles before the next text is submitted, the chat
    grows by the question and then its reply block, pair by pair. *)
Theorem chat_pairs_question_and_reply
    (hs : list Happening) (b : Browsing)
    (events : list (jstring * jstring * Reply)) (p : Page) :
  (exists added,
     chatHistory (shown (browse hs b)) = chatHistory (shown b) ++ added
     /\ questionsOf added = askedQuestions hs
     /\ repliesOf added = map replyBlock (arrivals hs (length (pending b)))
     /\ posted (shown (browse hs b)) = posted (shown b) ++ askedQuestions hs
     /\ length (pending (browse hs b))
        + length (arrivals hs (length (pending b)))
        = length (pending b) + length (askedQuestions hs))
  /\ chatHistory (shown (browse (inTurn events) {| shown := p; pending := [] |}))
     = chatHistory p ++ chatOf events
  /\ length (chatOf events) = 2 * length (sentQuestions events).
Proof.
  split; [|split].
  - revert b. induction hs as [|h hs IH]; intros b.
    + exists []. cbn. rewrite !app_nil_r. repeat split; lia.
    + unfold browse. cbn [fold_left]. fold (browse hs (happen h b)).
      destruct (happen_fields h b) as (a1 & Hc1 & Hq1 & Hr1 & Hp1 & Hl1 & _).
      destruct (IH (happen h b)) as (a2 & Hc2 & Hq2 & Hr2 & Hp2 & Hl2).
      cbn zeta in *.
      assert (Hn : length (pending (happen h b))
                   = length (pending b) + length (askedQuestions [h])
                     - length (arrivals [h] (length (pending b)))) by lia.
      rewrite Hn in *.
      exists (a1 ++ a2). rewrite askedQuestions_cons, arrivals_cons.
      rewrite questionsOf_app, repliesOf_app, map_app, !length_app.
      rewrite Hc2, Hc1, Hq1, Hq2, Hr1, Hr2, Hp2, Hp1, <- !app_assoc.
      repeat split; lia.
  - rewrite session_inTurn. cbn [shown].
    revert p. induction events as [|[[typed timestamp] reply] events IH]; intros p.
    + by rewrite app_nil_r.
    + cbn [session]. rewrite IH. unfold chatOf. cbn [List.filter fst].
      pose proof (submitQuery_typed typed timestamp reply p) as H. cbn zeta in H.
      destruct (truthy (trim typed)).
      * destruct H as (_ & -> & _). cbn [flat_map fst snd]. by rewrite <- app_assoc.
      * by rewrite H.
  - unfold chatOf, sentQuestions. rewrite length_map.
    induction (List.filter _ events) as [|e l IH]; simpl; [done|]. lia.
Qed.

(** X6.  The query panel is overwritten, never appended to.  With requests
    that overlap it shows the blocks of the answered reply that arrived
    last, whichever question that reply belongs to, and what it showed
    before when no reply was answered; a reply that ends in an error
    leaves on the panel the trace of an earlier one. *)
Theorem query_panel_shows_last_answer (hs : list Happening) (b : Browsing) :
  cypherQueries (shown (browse hs b))
  = match lastAnswer (arrivals hs (length (pending b))) None with
    | Some data => cypherQueries (fst (displayQueries data emptyPage))
    | None => cypherQueries (shown b)
    end.
Proof.
  set (sel := fun (seen : option Data) (q : list QueryBlock) =>
                match seen with
                | Some data => cypherQueries (fst (displayQueries data emptyPage))
                | None => q
                end).
  change (cypherQueries (shown (browse hs b))
          = sel (lastAnswer (arrivals hs (length (pending b))) None)
              (cypherQueries (shown b))).
  assert (Hsome : forall l data, exists data',
             lastAnswer l (Some data) = Some data').
  { induction l as [|r l IH]; intros data; [by exists data|].
    cbn [lastAnswer]. destruct (settle r) as [[d c]|m]; apply IH. }
  assert (Hsel : forall l seen q,
             sel (lastAnswer l None) (sel seen q) = sel (lastAnswer l seen) q).
  { induction l as [|r l IH]; intros seen q; [done|]. cbn [lastAnswer].
    destruct (settle r) as [[d c]|m]; [|apply IH].
    by destruct (Hsome l d) as [d' ->]. }
  assert (H : forall hs b seen q0,
             cypherQueries (shown b) = sel seen q0 ->
             cypherQueries (shown (browse hs b))
             = sel (lastAnswer (arrivals hs (length (pending b))) seen) q0).
  { clear hs b. induction hs as [|h hs IH]; intros b seen q0 Hb; [done|].
    unfold browse. cbn [fold_left]. fold (browse hs (happen h b)).
    destruct (happen_fields h b) as (a1 & _ & _ & _ & _ & Hl1 & Hq1).
    cbn zeta in *.
    assert (Hn : length (pending (happen h b))
                 = length (pending b) + length (askedQuestions [h])
                   - length (arrivals [h] (length (pending b)))) by lia.
    rewrite arrivals_cons, lastAnswer_app, <- Hn. apply IH.
    fold (sel (lastAnswer (arrivals [h] (length (pending b))) None)
            (cypherQueries (shown b))) in Hq1.
    by rewrite Hq1, Hb, Hsel. }
  by apply H.
Qed.

(** X7.  What [displayQueries] puts on the panel is never empty: the graph
    context when it is a string that is not empty, then the semantic data
    when there is some, and the notice that no queries were generated
    exactly when the reply has no queries object or holds neither. *)
Theorem query_panel_blocks (data : Data) (p : Page) :
  let panel := cypherQueries (fst (displayQueries data p)) in
  panel <> []
  /\ (panel = [NoQueriesAlert] <->
      data_queries data = None
      \/ exists q,
           data_queries data = Some q
           /\ truthyField (graph_context q) = false
           /\ semantic_data q = None)
  /\ (forall gc,
        In (GraphContextBlock gc) panel <->
        gc <> [] /\ data_graph_context data = Some gc)
  /\ (forall sd,
        In (QueryAnalysisBlock sd) panel <->
        exists q, data_queries data = Some q /\ semantic_data q = Some sd).
Proof.
  cbn zeta. unfold displayQueries, data_graph_context.
  destruct (data_queries data) as [q|] eqn:Hq; cbn; [|naive_solver].
  destruct (graph_context q) as [[|c gc]|] eqn:Eg;
    destruct (semantic_data q) as [sd|] eqn:Es; cbn;
    (split; [done|]); (split; [|split]); try naive_solver.
  all: split;
    [first [done | intros _; right; exists q; by rewrite Eg, Es]
    |first [done | intros [|(q' & [= <-] & H & _)]; [done|by rewrite Eg in H]]].
Qed.

(** ** One title and its marker *)

Lemma includes_nil_false (lit : jstring) : lit <> [] -> includes lit [] = false.
Proof. by destruct lit. Qed.

Lemma includes_cons (lit : jstring) (c : N) (s : jstring) :
  includes lit (c :: s) = startsWith lit (c :: s) || includes lit s.
Proof. done. Qed.

Lemma includes_prefix (rep t : jstring) : includes rep (rep ++ t) = true.
Proof.
  destruct (rep ++ t) as [|c s] eqn:E.
  - destruct rep; [done|done].
  - rewrite includes_cons, <- E, startsWith_app. done.
Qed.

(** A title found in the text gets its marker into the text. *)
Lemma replace_includes_rep (s lit rep : jstring) :
  includes lit s = true -> includes rep (replace s lit rep) = true.
Proof.
  destruct lit as [|l0 lit'].
  { intros _. unfold replace. destruct s as [|c s]; cbn [replaceEmpty].
    - pose proof (includes_prefix rep []) as H. by rewrite app_nil_r in H.
    - apply includes_prefix. }
  set (lit := l0 :: lit'). assert (Hne : lit <> []) by done. clearbody lit.
  induction s as [|c t IH]; [by rewrite includes_nil_false|].
  rewrite includes_cons. destruct (startsWith lit (c :: t)) eqn:E; simpl.
  - intros _. apply startsWith_spec in E as [u ->].
    rewrite replace_match by done. apply includes_prefix.
  - intros Ht. rewrite replace_nomatch by done.
    rewrite includes_cons, IH by done. apply orb_true_r.
Qed.

(** A word free of the code units of the marker that starts the new text
    started the old one. *)
Lemma startsWith_replace (lit rep w t : jstring) :
  lit <> [] -> rep <> [] -> (forall c, In c w -> ~ In c rep) ->
  startsWith w (replace t lit rep) = true -> startsWith w t = true.
Proof.
  intros Hlit Hrep. revert w.
  induction t as [t IH] using (induction_ltof1 _ (@length N)); unfold ltof in IH.
  intros w Hw. destruct w as [|w0 w']; [done|].
  destruct t as [|c t']; [by rewrite replace_nil|].
  destruct (startsWith lit (c :: t')) eqn:E.
  - apply startsWith_spec in E as [u E]. rewrite E, replace_match by done.
    destruct rep as [|r0 rep']; [done|]. cbn [app startsWith].
    intros [H0 _]%andb_true_iff. apply N.eqb_eq in H0. subst r0.
    exfalso. apply (Hw w0); by left.
  - rewrite replace_nomatch by done. cbn [startsWith].
    intros [H0 H1]%andb_true_iff. rewrite H0. cbn [andb].
    apply IH; [simpl; lia| |done]. intros x Hx. apply Hw. by right.
Qed.

Lemma includes_skip (lit rep x : jstring) :
  lit <> [] -> (forall c, In c rep -> ~ In c lit) ->
  includes lit (rep ++ x) = includes lit x.
Proof.
  intros Hlit Hdis. induction rep as [|r rep IH]; [done|].
  cbn [app]. rewrite includes_cons, IH; [|intros c Hc; apply Hdis; by right].
  destruct lit as [|l0 lit']; [done|]. cbn [startsWith].
  destruct (l0 =? r)%N eqn:E; [|done]. apply N.eqb_eq in E. subst r.
  exfalso. apply (Hdis l0); by left.
Qed.

(** After the replace the title is gone from the text, when the marker
    shares no code unit with it. *)
Lemma replace_removes (s lit rep : jstring) :
  lit <> [] -> rep <> [] -> disjoint rep lit ->
  includes lit (replace s lit rep) = false.
Proof.
  intros Hlit Hrep Hdis.
  induction s as [s IH] using (induction_ltof1 _ (@length N)); unfold ltof in IH.
  destruct s as [|c t]; [by rewrite replace_nil, includes_nil_false|].
  destruct (startsWith lit (c :: t)) eqn:E.
  - apply startsWith_spec in E as [u E]. rewrite E, replace_match by done.
    rewrite includes_skip by done. apply IH.
    rewrite E, length_app. destruct lit; [done|simpl; lia].
  - rewrite replace_nomatch by done. rewrite includes_cons.
    rewrite IH by (simpl; lia). rewrite orb_false_r.
    destruct (startsWith lit (c :: replace t lit rep)) eqn:E'; [|done].
    rewrite <- (replace_nomatch lit rep Hlit c t E) in E'.
    apply startsWith_replace in E'; [congruence|done|done|].
    intros x Hx Hr. by apply (Hdis x).
Qed.

(** X8.  For a reply whose graph context names one document, with a title
    that is not empty and holds none of the code units of its marker
    ([[], [1], []]): the answer shown holds no occurrence of the title any
    more, it holds the marker [[1]] whenever the reply's text mentioned
    the title, and the reference list is the single line of the document. *)
Theorem single_title_is_replaced (data : Data) (r doc : jstring) :
  response data = Some r ->
  docsOf data = [doc] ->
  doc <> [] ->
  disjoint (marker 0) doc ->
  exists text,
    citations data
    = Ok {| processedResponse := Some text; docRefs := [refLine 0 doc] |}
    /\ includes doc text = false
    /\ (includes doc r = true -> includes (marker 0) text = true)
    /\ (includes doc r = false -> text = r).
Proof.
  intros Hr Hd Hne Hdis. exists (replace r doc (marker 0)).
  rewrite (citations_string data r Hr), Hd. cbn [substitute references].
  split; [done|]. split; [|split].
  - apply replace_removes; [done| |done]. unfold marker. by destruct (decimal _).
  - apply replace_includes_rep.
  - apply replace_absent.
Qed.

Lemma single_title_is_replaced_witness :
  let data :=
    answerData (str "See plan.txt, then plan.txt again.")
      (str "Found in: plan.txt") in
  let r := str "See plan.txt, then plan.txt again." in
  let doc := str "plan.txt" in
  response data = Some r
  /\ docsOf data = [doc]
  /\ doc <> []
  /\ disjoint (marker 0) doc
  /\ exists text,
      citations data
      = Ok {| processedResponse := Some text; docRefs := [refLine 0 doc] |}
      /\ includes doc text = false
      /\ (includes doc r = true -> includes (marker 0) text = true)
      /\ (includes doc r = false -> text = r).
Proof.
  intros data r doc.
  assert (H1 : response data = Some r) by reflexivity.
  assert (H2 : docsOf data = [doc]) by (vm_compute; reflexivity).
  assert (H3 : doc <> []) by discriminate.
  assert (H4 : disjoint (marker 0) doc).
  { intros c Hc Hd. vm_compute in Hc, Hd.
    repeat (destruct Hc as [<-|Hc]; [repeat (destruct Hd as [Hd|Hd]; [discriminate Hd|]); exact Hd|]).
    exact Hc. }
  split; [exact H1|]. split; [exact H2|]. split; [exact H3|]. split; [exact H4|].
  exact (single_title_is_replaced data r doc H1 H2 H3 H4).
Defined.

(** ** Titles: empty, trimmed, on one line *)

Lemma split_absent (sep s : jstring) :
  sep <> [] -> includes sep s = false -> split sep s = [s].
Proof.
  intros Hsep. induction s as [|c t IH]; [done|].
  rewrite includes_cons. intros [H1 H2]%orb_false_iff.
  destruct (split_cons sep c t H1) as (piece & pieces & Ht & ->).
  rewrite IH in Ht by done. by injection Ht as <- <-.
Qed.

Lemma includes_head_absent (h : N) (sep' s : jstring) :
  Forall (fun c => c <> h) s -> includes (h :: sep') s = false.
Proof.
  induction 1 as [|c s Hc _ IH]; [done|].
  rewrite includes_cons, IH. cbn [startsWith].
  destruct (h =? c)%N eqn:E; [|done]. apply N.eqb_eq in E. congruence.
Qed.

Lemma split_indent (h : N) (sep' indent t : jstring) :
  Forall (fun c => c <> h) indent ->
  exists piece pieces,
    split (h :: sep') t = piece :: pieces
    /\ split (h :: sep') (indent ++ t) = (indent ++ piece) :: pieces.
Proof.
  induction 1 as [|c indent Hc _ IH].
  - pose proof (split_ne (h :: sep') t).
    destruct (split (h :: sep') t) as [|piece pieces] eqn:E; [done|].
    exists piece, pieces. split; [done|exact E].
  - destruct IH as (piece & pieces & Ht & Hi). exists piece, pieces.
    split; [done|]. cbn [app].
    destruct (split_cons (h :: sep') c (indent ++ t)) as (p0 & ps & H0 & ->).
    + cbn [startsWith]. destruct (h =? c)%N eqn:E; [|done].
      apply N.eqb_eq in E. congruence.
    + rewrite Hi in H0. by injection H0 as <- <-.
Qed.

Lemma blank_no_F (s : jstring) : blank s -> Forall (fun c => c <> 70%N) s.
Proof.
  unfold blank. intros H. eapply Forall_impl; [exact H|].
  intros c Hc ->. by vm_compute in Hc.
Qed.

Lemma no_LF_includes (s : jstring) : ~ In LF s -> includes [LF] s = false.
Proof.
  intros H. apply includes_head_absent, Forall_forall.
  intros c Hc%list_elem_of_In ->. done.
Qed.

Lemma replaceEmpty_length (rep s : jstring) :
  length (replaceEmpty rep s) = length s + (length s + 1) * length rep.
Proof.
  induction s as [|c s IH]; simpl; [lia|].
  rewrite length_app. simpl. rewrite IH. lia.
Qed.

Lemma docsOf_single_line (answer gc doc : jstring) :
  truthy gc = true -> split [LF] gc = [gc] ->
  includes FOUND_IN gc = true -> docOfLine gc = doc ->
  docsOf (answerData answer gc) = [doc].
Proof.
  intros Hgc Hlines Hinc Hdoc. unfold docsOf.
  change (data_graph_context (answerData answer gc)) with (Some gc).
  cbn [truthyField]. rewrite Hgc. change (default [] (Some gc)) with gc.
  unfold contextDocs. cbv zeta. rewrite Hlines. cbn [List.filter]. rewrite Hinc. cbn [map]. rewrite Hdoc.
  unfold firstOccurrences. cbn [filterFrom indexOf]. by rewrite eqs_refl.
Qed.

(** X9.  A [Found in:] line with nothing but white space behind it gives
    the empty title: the document is numbered and listed with an empty
    name, and its marker is put in front of every code unit of the answer
    and at its end. *)
Theorem empty_title_marks_every_position (answer indent ws : jstring) :
  blank indent -> blank ws -> ~ In LF indent -> ~ In LF ws ->
  let data := answerData answer (indent ++ FOUND_IN ++ ws) in
  docsOf data = [[]]
  /\ citations data
     = Ok {| processedResponse := Some (replaceEmpty (str "[1]") answer);
             docRefs := [str "1. "] |}
  /\ length (replaceEmpty (str "[1]") answer) = 4 * length answer + 3.
Proof.
  intros Hi Hw Hli Hlw. cbn zeta.
  set (gc := indent ++ FOUND_IN ++ ws).
  assert (Hgc : truthy gc = true).
  { unfold gc. destruct indent; [done|done]. }
  assert (Hlines : split [LF] gc = [gc]).
  { apply split_absent; [done|]. apply no_LF_includes. unfold gc.
    rewrite !in_app_iff. intros [?|[H|?]]; [done| |done].
    vm_compute in H. repeat (destruct H as [H|H]; [discriminate H|]). done. }
  assert (Hinc : includes FOUND_IN gc = true).
  { apply includes_spec. by exists indent, ws. }
  assert (Hdoc : docOfLine gc = []).
  { unfold docOfLine, gc.
    destruct (split_indent 70%N (str "ound in:") indent (FOUND_IN ++ ws))
      as (piece & pieces & Ht & Hsplit); [by apply blank_no_F|].
    change (70%N :: str "ound in:") with FOUND_IN in *.
    rewrite Hsplit. rewrite split_sep in Ht by done.
    injection Ht as <- <-.
    rewrite split_absent; [|done|by apply (includes_head_absent 70%N), blank_no_F].
    cbn [nth]. apply truthy_trim_blank in Hw. by destruct (trim ws). }
  assert (Hdocs : docsOf (answerData answer gc) = [[]]).
  { by apply docsOf_single_line. }
  split; [done|]. split.
  - rewrite (citations_string _ answer) by done. rewrite Hdocs. done.
  - rewrite replaceEmpty_length. simpl. lia.
Qed.

Lemma empty_title_marks_every_position_witness :
  let answer := str "Hi" in
  let indent := str "  " in
  let ws := str " " in
  blank indent /\ blank ws /\ ~ In LF indent /\ ~ In LF ws
  /\ let data := answerData answer (indent ++ FOUND_IN ++ ws) in
     docsOf data = [[]]
     /\ citations data
        = Ok {| processedResponse := Some (replaceEmpty (str "[1]") answer);
                docRefs := [str "1. "] |}
     /\ length (replaceEmpty (str "[1]") answer) = 4 * length answer + 3.
Proof.
  intros answer indent ws.
  assert (H1 : blank indent) by (by repeat constructor).
  assert (H2 : blank ws) by (by repeat constructor).
  assert (H3 : ~ In LF indent) by (intros [H|[H|[]]]; discriminate H).
  assert (H4 : ~ In LF ws) by (intros [H|[]]; discriminate H).
  split; [exact H1|]. split; [exact H2|]. split; [exact H3|]. split; [exact H4|].
  exact (empty_title_marks_every_position answer indent ws H1 H2 H3 H4).
Defined.

Lemma split_single_no_sep (c : N) (s p : jstring) :
  In p (split [c] s) -> ~ In c p.
Proof.
  revert p. induction s as [|x t IH]; intros p.
  - intros [<-|[]]. intros [].
  - destruct (startsWith [c] (x :: t)) eqn:E.
    + apply startsWith_spec in E as [u [= -> ->]].
      change (c :: u) with ([c] ++ u). rewrite split_sep by done.
      intros [<-|Hin]; [intros []|by apply IH].
    + destruct (split_cons [c] x t E) as (piece & pieces & Ht & ->).
      assert (Hx : x <> c).
      { intros ->. cbn [startsWith] in E. by rewrite N.eqb_refl in E. }
      intros [<-|Hin].
      * intros [?|Hc]; [done|]. apply (IH piece); [rewrite Ht; by left|done].
      * apply IH. rewrite Ht. by right.
Qed.

Lemma substring_In (x s : jstring) (c : N) : substring x s -> In c x -> In c s.
Proof. intros (pre & post & ->) H. rewrite !in_app_iff. tauto. Qed.

(** X10.  Every document title the citation loop works on is trimmed: it
    neither starts nor ends with white space, trimming it again changes
    nothing, and it holds no newline; it is a piece of one line of the
    graph context, a line that holds [Found in:]. *)
Theorem cited_titles_are_trimmed (data : Data) (doc : jstring) :
  In doc (docsOf data) ->
  trimmed doc /\ trim doc = doc /\ ~ In LF doc
  /\ exists gc line,
       data_graph_context data = Some gc
       /\ In line (split [LF] gc)
       /\ includes FOUND_IN line = true
       /\ substring doc line.
Proof.
  intros (gc & line & Hgc & Hline & Hinc & ->)%docsOf_In.
  split; [apply trim_trimmed|]. split; [apply trim_idempotent|]. split.
  - intros Hc. apply (split_single_no_sep LF gc line Hline).
    by eapply substring_In; [apply docOfLine_substring|].
  - exists gc, line. repeat split; try done. by apply docOfLine_substring.
Qed.

Lemma cited_titles_are_trimmed_witness :
  let data := answerData (str "x") (str "  Found in:   game plan.txt  ") in
  let doc := str "game plan.txt" in
  In doc (docsOf data)
  /\ trimmed doc /\ trim doc = doc /\ ~ In LF doc
  /\ exists gc line,
       data_graph_context data = Some gc
       /\ In line (split [LF] gc)
       /\ includes FOUND_IN line = true
       /\ substring doc line.
Proof.
  intros data doc.
  assert (H : In doc (docsOf data)) by (vm_compute; left; reflexivity).
  split; [exact H|]. exact (cited_titles_are_trimmed data doc H).
Defined.

(** ** The audit trail's documents, line by line *)

Lemma auditDocs_matchAllFrom (s : jstring) :
  auditDocs (Some s) = map (drop 2) (matchAllFrom 0 s).
Proof. unfold auditDocs, matchDocs. by destruct (matchAllFrom 0 s). Qed.

Lemma startsWith_DOT_TXT_LF (x b : jstring) :
  startsWith DOT_TXT (x ++ LF :: b) = startsWith DOT_TXT x.
Proof.
  rewrite DOT_TXT_eq.
  destruct x as [|c1 [|c2 [|c3 [|c4 x]]]]; cbn [app startsWith];
    rewrite ?andb_false_r; try reflexivity.
  all: by rewrite ?andb_false_r.
Qed.

Lemma classRun_LF (x b : jstring) : classRun (x ++ LF :: b) = classRun x.
Proof.
  induction x as [|c x IH]; [done|]. cbn [app classRun]. by rewrite IH.
Qed.

Lemma backtrack_LF (k : nat) (x b : jstring) :
  k <= length x -> backtrack k (x ++ LF :: b) = backtrack k x.
Proof.
  induction k as [|k IH]; [done|]. intros Hk. cbn [backtrack].
  rewrite drop_app_le by done. rewrite startsWith_DOT_TXT_LF, IH by lia. done.
Qed.

Lemma startsWith_length (pat s : jstring) :
  startsWith pat s = true -> length pat <= length s.
Proof. intros [t ->]%startsWith_spec. rewrite length_app. lia. Qed.

(** A match never runs over a newline. *)
Lemma matchAt_LF (t b : jstring) : matchAt (t ++ LF :: b) = matchAt t.
Proof.
  destruct t as [|c0 [|c1 rest]].
  - cbn [app]. unfold matchAt. by destruct b.
  - cbn [app]. unfold matchAt.
    replace (LF =? SPACE)%N with false by done. by rewrite andb_false_r.
  - cbn [app]. unfold matchAt.
    destruct ((c0 =? HYPHEN)%N && (c1 =? SPACE)%N); [|done].
    rewrite classRun_LF, backtrack_LF by apply classRun_le.
    pose proof (backtrack_spec (classRun rest) rest) as Hb.
    destruct (backtrack (classRun rest) rest) as [k|]; [|done].
    destruct Hb as (_ & Hdot%startsWith_length & _).
    rewrite length_drop, DOT_TXT_eq in Hdot. simpl in Hdot.
    rewrite take_app_le by lia. done.
Qed.

Lemma matchAt_prefix (s m : jstring) :
  matchAt s = Some m -> length m <= length s.
Proof.
  intros (name & post & -> & -> & _)%matchAt_Some.
  cbn [length]. rewrite !length_app. lia.
Qed.

Lemma matchAllFrom_LF (skip : nat) (a b : jstring) :
  skip <= length a ->
  matchAllFrom skip (a ++ LF :: b) = matchAllFrom skip a ++ matchAllFrom 0 b.
Proof.
  revert skip. induction a as [|c a IH]; intros skip Hskip.
  - destruct skip; [|simpl in Hskip; lia]. cbn [app matchAllFrom].
    pose proof (matchAt_LF [] b) as H. cbn [app] in H. by rewrite H.
  - cbn [app matchAllFrom]. destruct skip as [|k].
    + change (c :: a ++ LF :: b) with ((c :: a) ++ LF :: b).
      rewrite matchAt_LF.
      destruct (matchAt (c :: a)) as [m|] eqn:E.
      * apply matchAt_prefix in E. simpl in E.
        rewrite IH by lia. done.
      * apply IH. lia.
    + apply IH. simpl in Hskip. lia.
Qed.

Lemma auditDocs_join (lines : list jstring) :
  auditDocs (Some (join [LF] lines))
  = flat_map (fun line => auditDocs (Some line)) lines.
Proof.
  induction lines as [|l lines IH]; [done|].
  destruct lines as [|l' lines].
  - simpl. by rewrite app_nil_r.
  - rewrite join_cons by done. cbn [flat_map] in *. rewrite <- IH.
    rewrite !auditDocs_matchAllFrom. cbn [app].
    rewrite matchAllFrom_LF by lia. by rewrite map_app.
Qed.

(** X11.  The referenced documents of an audit entry are found line by
    line: the list for a graph context is the list of its first line
    followed by the list of the rest, so it is the lists of its lines one
    after the other; a title met on two lines is listed twice. *)
Theorem audit_documents_by_line (a b gc : jstring) :
  auditDocs (Some (a ++ LF :: b)) = auditDocs (Some a) ++ auditDocs (Some b)
  /\ auditDocs (Some gc)
     = flat_map (fun line => auditDocs (Some line)) (split [LF] gc).
Proof.
  split.
  - rewrite !auditDocs_matchAllFrom, matchAllFrom_LF by lia. apply map_app.
  - rewrite <- auditDocs_join. by rewrite join_split.
Qed.

(** X12.  A graph context without "- " gives an audit entry that lists no
    document, whatever the [Found in:] lines it has and the references the
    chat shows for them. *)
Theorem audit_lists_nothing_without_dash
    (queryText timestamp : jstring) (data : Data) (gc : jstring) :
  data_graph_context data = Some gc ->
  includes [HYPHEN; SPACE] gc = false ->
  exists queryFocus,
    resourceHTML queryText timestamp data
    = ResourceEntry timestamp queryText [] queryFocus.
Proof.
  intros Hgc Hno. unfold resourceHTML. rewrite Hgc.
  destruct (auditDocs (Some gc)) as [|d ds] eqn:E; [by eexists|].
  assert (Hd : In d (auditDocs (Some gc))) by (rewrite E; by left).
  apply auditDocs_patternTitle, patternTitle_shape in Hd as (_ & _ & Hsub).
  destruct Hsub as (pre & post & ->).
  assert (Hyes : includes [HYPHEN; SPACE] (pre ++ (str "- " ++ d) ++ post) = true).
  { apply includes_spec. exists pre, (d ++ post).
    change (str "- " ++ d) with ([HYPHEN; SPACE] ++ d). by rewrite <- app_assoc. }
  congruence.
Qed.

Lemma audit_lists_nothing_without_dash_witness :
  let data := answerData (str "See plan.txt") planContext in
  data_graph_context data = Some planContext
  /\ includes [HYPHEN; SPACE] planContext = false
  /\ exists queryFocus,
      resourceHTML (str "Which plan?") (str "12:00:00") data
      = ResourceEntry (str "12:00:00") (str "Which plan?") [] queryFocus.
Proof.
  intros data.
  assert (H1 : data_graph_context data = Some planContext) by reflexivity.
  assert (H2 : includes [HYPHEN; SPACE] planContext = false)
    by (vm_compute; reflexivity).
  split; [exact H1|]. split; [exact H2|].
  exact (audit_lists_nothing_without_dash _ _ data planContext H1 H2).
Defined.

(** ** The upload form *)

Lemma upload_submit_fields (reply : Fetched Upload.Data) (f : Upload.Form) :
  let f' := Upload.submit reply f in
  match Upload.files f with
  | [] =>
      Upload.submitDisabled f' = Upload.submitDisabled f
      /\ Upload.posted f' = Upload.posted f
      /\ Upload.barValueNow f' = Upload.barValueNow f
      /\ Upload.barWidth f' = Upload.barWidth f
  | file :: _ =>
      Upload.submitDisabled f' = false
      /\ Upload.posted f' = Upload.posted f ++ [file]
      /\ (Upload.barValueNow f' = 0 \/ Upload.barValueNow f' = 20
          \/ Upload.barValueNow f' = 100)
      /\ Upload.barWidth f' = decimal (Upload.barValueNow f') ++ str "%"
  end.
Proof.
  cbn zeta. unfold Upload.submit.
  destruct (Upload.files f) as [|file rest]; [done|].
  assert (Hfin : forall g : Upload.Form,
             Upload.posted g = Upload.posted f ++ [file] ->
             (Upload.barValueNow g = 0 \/ Upload.barValueNow g = 20
              \/ Upload.barValueNow g = 100) ->
             Upload.barWidth g = decimal (Upload.barValueNow g) ++ str "%" ->
             Upload.submitDisabled (Upload.setDisabled false g) = false
             /\ Upload.posted (Upload.setDisabled false g)
                = Upload.posted f ++ [file]
             /\ (Upload.barValueNow (Upload.setDisabled false g) = 0
                 \/ Upload.barValueNow (Upload.setDisabled false g) = 20
                 \/ Upload.barValueNow (Upload.setDisabled false g) = 100)
             /\ Upload.barWidth (Upload.setDisabled false g)
                = decimal (Upload.barValueNow (Upload.setDisabled false g))
                  ++ str "%") by done.
  destruct reply as [m|ok [data|m]]; cbn [Upload.onData].
  - apply Hfin; [done|by left|done].
  - destruct (truthyField (Upload.error data)).
    + apply Hfin; [done|by left|done].
    + destruct (Upload.doc_info data); apply Hfin; try done.
      * by right; right.
      * by right; left.
  - apply Hfin; [done|by left|done].
Qed.

(** X13.  Over any visit of the upload form that starts with the button
    enabled and the bar at 0, 20 or 100 percent: when every request has
    settled the button is enabled again, the bar is still at 0, 20 or 100
    percent with its width saying the same, and the files sent are the
    first file of each submission that had a file, in order; a submission
    without a file sends nothing. *)
Theorem upload_visit_invariant
    (events : list (list jstring * Fetched Upload.Data)) (f : Upload.Form) :
  Upload.submitDisabled f = false ->
  (Upload.barValueNow f = 0 \/ Upload.barValueNow f = 20
   \/ Upload.barValueNow f = 100) ->
  Upload.barWidth f = decimal (Upload.barValueNow f) ++ str "%" ->
  let f' := Upload.visit events f in
  Upload.submitDisabled f' = false
  /\ (Upload.barValueNow f' = 0 \/ Upload.barValueNow f' = 20
      \/ Upload.barValueNow f' = 100)
  /\ Upload.barWidth f' = decimal (Upload.barValueNow f') ++ str "%"
  /\ Upload.posted f' = Upload.posted f ++ firstFiles events.
Proof.
  cbn zeta. revert f.
  induction events as [|[selected reply] events IH]; intros f Hd Hb Hw.
  - cbn. by rewrite app_nil_r.
  - cbn [Upload.visit firstFiles flat_map fst].
    pose proof (upload_submit_fields reply (Upload.choose selected f)) as H.
    cbn zeta in H. change (Upload.files (Upload.choose selected f)) with selected in H.
    destruct selected as [|file rest].
    + destruct H as (H1 & H2 & H3 & H4).
      destruct (IH (Upload.submit reply (Upload.choose [] f))) as (? & ? & ? & ->);
        [by rewrite H1|by rewrite H3|by rewrite H4, H3|].
      rewrite H2. done.
    + destruct H as (H1 & H2 & H3 & H4).
      destruct (IH (Upload.submit reply (Upload.choose (file :: rest) f)))
        as (? & ? & ? & ->); [done|done|done|].
      rewrite H2. cbn. by rewrite <- app_assoc.
Qed.

Lemma upload_visit_invariant_witness :
  let f := Upload.initial [str "notes.txt"] in
  let events :=
    [([str "notes.txt"; str "b.txt"], FetchRejected (str "Failed to fetch"));
     ([], FetchRejected (str "Failed to fetch"))] in
  Upload.submitDisabled f = false
  /\ (Upload.barValueNow f = 0 \/ Upload.barValueNow f = 20
      \/ Upload.barValueNow f = 100)
  /\ Upload.barWidth f = decimal (Upload.barValueNow f) ++ str "%"
  /\ let f' := Upload.visit events f in
     Upload.submitDisabled f' = false
     /\ (Upload.barValueNow f' = 0 \/ Upload.barValueNow f' = 20
         \/ Upload.barValueNow f' = 100)
     /\ Upload.barWidth f' = decimal (Upload.barValueNow f') ++ str "%"
     /\ Upload.posted f' = Upload.posted f ++ firstFiles events.
Proof.
  intros f events.
  assert (H1 : Upload.submitDisabled f = false) by reflexivity.
  assert (H2 : Upload.barValueNow f = 0 \/ Upload.barValueNow f = 20
               \/ Upload.barValueNow f = 100) by (left; reflexivity).
  assert (H3 : Upload.barWidth f = decimal (Upload.barValueNow f) ++ str "%")
    by (vm_compute; reflexivity).
  split; [exact H1|]. split; [exact H2|]. split; [exact H3|].
  exact (upload_visit_invariant events f H1 H2 H3).
Defined.

(** X14.  What the upload form shows once the request of a submission with
    a file has settled, whatever the HTTP status of the response is:
    - an exception (the request rejected, a body that does not parse, a
      reply with an error that is not empty) gives the status
      [Error: message] in the danger style and the bar at 0, and keeps the
      selected files;
    - a reply without error and with [doc_info] gives the success status
      and the bar at 100, and clears the selection;
    - a reply without error and without [doc_info] clears the selection
      and leaves the status at "Processing document..." with the bar at 20. *)
Theorem upload_outcome
    (reply : Fetched Upload.Data) (f : Upload.Form) (file : jstring)
    (rest : list jstring) :
  Upload.files f = file :: rest ->
  let f' := Upload.submit reply f in
  let failure :=
    match reply with
    | FetchRejected m => Some m
    | FetchResponse _ (Throw m) => Some m
    | FetchResponse _ (Ok data) =>
        if truthyField (Upload.error data)
        then Some (default [] (Upload.error data)) else None
    end in
  let complete :=
    match reply with
    | FetchResponse _ (Ok data) => Upload.doc_info data
    | _ => false
    end in
  match failure with
  | Some m =>
      Upload.statusClass f' = [str "alert"; str "alert-danger"; str "mb-3"]
      /\ Upload.statusText f' = str "Error: " ++ m
      /\ Upload.barValueNow f' = 0
      /\ Upload.barText f' = str "Error (0%)"
      /\ Upload.files f' = file :: rest
  | None =>
      Upload.files f' = []
      /\ if complete then
           Upload.statusClass f'
           = [str "alert"; str "alert-success"; str "mb-3"]
           /\ Upload.statusText f'
              = str "Document uploaded and processed successfully!"
           /\ Upload.barValueNow f' = 100
           /\ Upload.barText f' = str "Complete (100%)"
         else
           Upload.statusClass f' = [str "alert"; str "alert-info"; str "mb-3"]
           /\ Upload.statusText f' = str "Processing document..."
           /\ Upload.barValueNow f' = 20
           /\ Upload.barText f' = str "Starting upload (20%)"
  end.
Proof.
  intros Hf. cbn zeta. unfold Upload.submit. rewrite Hf.
  destruct reply as [m|ok [data|m]]; cbn; try (by repeat split).
  destruct (truthyField (Upload.error data)); cbn; [by repeat split|].
  destruct (Upload.doc_info data); cbn; by repeat split.
Qed.

Lemma upload_outcome_witness :
  let f := Upload.initial [str "notes.txt"] in
  let reply :=
    FetchResponse false
      (Ok {| Upload.error := None; Upload.doc_info := false |}) in
  Upload.files f = [str "notes.txt"]
  /\ let f' := Upload.submit reply f in
     Upload.files f' = []
     /\ Upload.statusClass f' = [str "alert"; str "alert-info"; str "mb-3"]
     /\ Upload.statusText f' = str "Processing document..."
     /\ Upload.barValueNow f' = 20
     /\ Upload.barText f' = str "Starting upload (20%)".
Proof.
  intros f reply. split; [reflexivity|].
  exact (upload_outcome reply f (str "notes.txt") [] eq_refl).
Defined.

(** ** The journal page *)

(** The two digits of a number of seconds below sixty. *)
Lemma padStart_seconds (s : nat) :
  s < 60 ->
  padStart 2 (str "0") (decimal s)
  = [N.of_nat (48 + s / 10); N.of_nat (48 + s mod 10)].
Proof.
  intros Hs.
  assert (Hall : forallb
                   (fun s =>
                      eqs (padStart 2 (str "0") (decimal s))
                        [N.of_nat (48 + s / 10); N.of_nat (48 + s mod 10)])
                   (seq 0 60) = true) by (vm_compute; reflexivity).
  rewrite forallb_forall in Hall. apply eqs_spec, Hall, in_seq. lia.
Qed.

Lemma timeText_shape (n : nat) :
  Journal.timeText n
  = decimal (n / 60)
    ++ 58%N :: [N.of_nat (48 + n mod 60 / 10); N.of_nat (48 + n mod 60 mod 10)].
Proof.
  unfold Journal.timeText. cbv zeta.
  rewrite padStart_seconds by (apply Nat.mod_upper_bound; lia). done.
Qed.

(** X15.  The time shown while recording is the minutes, a colon and
    always exactly two digits of seconds, below sixty; the text tells the
    number of seconds: two different counts never show the same text. *)
Theorem recording_time_text (n : nat) :
  (exists d1 d2,
     Journal.timeText n = decimal (n / 60) ++ str ":" ++ [d1; d2]
     /\ d1 = N.of_nat (48 + n mod 60 / 10)
     /\ d2 = N.of_nat (48 + n mod 60 mod 10)
     /\ isDigit d1 /\ isDigit d2
     /\ n = 60 * (n / 60) + (10 * (n mod 60 / 10) + n mod 60 mod 10))
  /\ (forall m, Journal.timeText m = Journal.timeText n -> m = n).
Proof.
  assert (Hlt : forall k, k mod 60 < 60) by (intros; apply Nat.mod_upper_bound; lia).
  split.
  - eexists _, _. split; [apply timeText_shape|]. split; [done|]. split; [done|].
    pose proof (Hlt n).
    assert (n mod 60 / 10 < 6) by (apply Nat.Div0.div_lt_upper_bound; lia).
    assert (n mod 60 mod 10 < 10) by (apply Nat.mod_upper_bound; lia).
    split; [unfold isDigit; lia|]. split; [unfold isDigit; lia|].
    pose proof (Nat.div_mod_eq (n mod 60) 10) as En.
    pose proof (Nat.div_mod_eq n 60) as En'. lia.
  - intros m H. rewrite !timeText_shape in H.
    apply app_sep_inj in H as [Hmin Hsec].
    + apply decimal_inj in Hmin.
      pose proof (f_equal (fun l => nth 0 l 0%N) Hsec) as H1.
      pose proof (f_equal (fun l => nth 1 l 0%N) Hsec) as H2.
      cbn [nth] in H1, H2. apply Nat2N.inj in H1, H2.
      pose proof (Nat.div_mod_eq (m mod 60) 10) as Em.
      pose proof (Nat.div_mod_eq (n mod 60) 10) as En.
      pose proof (Nat.div_mod_eq m 60) as Em'.
      pose proof (Nat.div_mod_eq n 60) as En'. lia.
    + eapply Forall_impl; [apply decimal_digits|]. unfold isDigit. intros; lia.
    + eapply Forall_impl; [apply decimal_digits|]. unfold isDigit. intros; lia.
Qed.

Lemma recorderInSync_initial : recorderInSync Journal.initial.
Proof. repeat split. by right. Qed.

Lemma recorderInSync_step (toLocaleString : jstring -> jstring)
    (e : Journal.Event) (p : Journal.Page) :
  recorderInSync p -> recorderInSync (Journal.step toLocaleString e p).
Proof.
  intros Hp.
  assert (Hstart : recorderInSync p ->
                   Journal.mediaRecorder p <> Some Journal.Recording ->
                   recorderInSync (Journal.startRecording (Ok tt) p)).
  { intros (Hmic & Htimers & Hheld & Hlabel & Hbutton & Hstatus & Htime) Hr.
    unfold recorderInSync in *. cbn.
    destruct (Journal.mediaRecorder p) as [[]|]; try done;
      rewrite Hbutton, Hstatus, Htimers; repeat split; by left. }
  destruct e; cbn [Journal.step].
  - unfold Journal.clickRecord.
    destruct (Journal.mediaRecorder p) as [[]|] eqn:Er.
    + destruct stream as [[]|m]; [|exact Hp]. apply Hstart; [done|congruence].
    + destruct Hp as (Hmic & Htimers & Hheld & Hlabel & Hbutton & Hstatus & Htime).
      unfold Journal.stopRecording, recorderInSync in *. rewrite Er in *. cbn.
      rewrite Hbutton, Hstatus, Htimers, Hheld. by repeat split.
    + destruct stream as [[]|m]; [|exact Hp]. apply Hstart; [done|congruence].
  - exact Hp.
  - exact Hp.
  - destruct (0 <? Journal.liveTimers p); [|exact Hp].
    destruct Hp as (Hmic & Htimers & Hheld & Hlabel & Hbutton & Hstatus & Htime).
    unfold recorderInSync in *. cbn. repeat split; try done. by right.
  - exact Hp.
  - unfold Journal.clickSave.
    destruct (Journal.saved reply); [|exact Hp].
    destruct history as [m|[] [entries|m]]; exact Hp.
  - exact Hp.
  - unfold Journal.clickSubmit.
    destruct (negb (truthy (trim (Journal.journalText p)))); [exact Hp|].
    destruct (Journal.saved reply); [|exact Hp].
    destruct history as [m|[] [entries|m]]; exact Hp.
Qed.

Lemma step_mediaRecorder (toLocaleString : jstring -> jstring)
    (e : Journal.Event) (p : Journal.Page) :
  match e with
  | Journal.ClickRecord _ => True
  | _ =>
      Journal.mediaRecorder (Journal.step toLocaleString e p)
      = Journal.mediaRecorder p
  end.
Proof.
  destruct e; cbn [Journal.step]; try done.
  - by destruct (0 <? Journal.liveTimers p).
  - unfold Journal.clickSave. destruct (Journal.saved reply); [|done].
    by destruct history as [m|[] [entries|m]].
  - unfold Journal.clickSubmit.
    destruct (negb (truthy (trim (Journal.journalText p)))); [done|].
    destruct (Journal.saved reply); [|done].
    by destruct history as [m|[] [entries|m]].
Qed.

(** One moment of a visit in which the record button is not clicked while
    the page waits for the microphone. *)
Lemma patient_moment (toLocaleString : jstring -> jstring)
    (m : Journal.Moment) (w : Journal.Waiting) :
  recorderInSync (Journal.page w) ->
  Journal.asked w = 0
  \/ (Journal.asked w = 1
      /\ Journal.mediaRecorder (Journal.page w) <> Some Journal.Recording) ->
  match m with
  | Journal.Click | Journal.Meanwhile (Journal.ClickRecord _) =>
      Journal.asked w = 0
  | _ => True
  end ->
  let w' := Journal.moment toLocaleString m w in
  recorderInSync (Journal.page w')
  /\ Journal.lostStreams w' = Journal.lostStreams w
  /\ (Journal.asked w' = 0
      \/ (Journal.asked w' = 1
          /\ Journal.mediaRecorder (Journal.page w') <> Some Journal.Recording)).
Proof.
  intros Hs Ha Hm. cbn zeta.
  assert (Hclick : forall stream,
             recorderInSync (Journal.clickRecord stream (Journal.page w))).
  { intros stream.
    apply (recorderInSync_step toLocaleString (Journal.ClickRecord stream)), Hs. }
  destruct m as [|stream|e]; cbn [Journal.moment].
  - specialize (Hclick (Ok tt)). unfold Journal.clickRecord in Hclick.
    destruct (Journal.mediaRecorder (Journal.page w)) as [[]|] eqn:Er;
      cbn [Journal.page Journal.asked Journal.lostStreams].
    + split; [done|]. split; [done|]. right. rewrite Hm, Er. by split.
    + split; [done|]. split; [done|]. by left.
    + split; [done|]. split; [done|]. right. rewrite Hm, Er. by split.
  - destruct (Journal.asked w) as [|n] eqn:En.
    { split; [done|]. split; [done|]. left. done. }
    destruct Ha as [?|[Hn Hr]]; [done|]. injection Hn as ->.
    cbn [Journal.page Journal.asked Journal.lostStreams].
    specialize (Hclick stream). unfold Journal.clickRecord in Hclick.
    destruct (Journal.mediaRecorder (Journal.page w)) as [[]|]; try done;
      (split; [done|]); (split; [by destruct stream|by left]).
  - cbn [Journal.page Journal.asked Journal.lostStreams].
    split; [by apply recorderInSync_step|]. split; [done|].
    pose proof (step_mediaRecorder toLocaleString e (Journal.page w)) as He.
    destruct Ha as [?|[? ?]]; [by left|].
    destruct e; try (right; split; [done|by rewrite He]).
    left. done.
Qed.

(** X16.  As long as the record button is not clicked again while the page
    waits for the microphone, and every recorder is built and started
    without an exception: whatever else is clicked, typed and answered on
    the journal page, in any order, the recorder and what the page shows
    of it stay in step.  The button reads "Stop Recording" in
    the danger style, the status line is visible, the microphone is open
    and exactly one timer runs while a recording is on; the button reads
    "Start Recording", the status line is hidden, the microphone is
    released and no timer runs while none is; no stream is lost with its
    tracks live; the time shown is the text of the seconds counted, once
    the count has left zero. *)
Theorem recorder_stays_in_sync (toLocaleString : jstring -> jstring)
    (history : Fetched (list Journal.Entry)) (ms : list Journal.Moment) :
  patient toLocaleString ms (Journal.arrived toLocaleString history) = true ->
  let w := Journal.moments toLocaleString ms
             (Journal.arrived toLocaleString history) in
  recorderInSync (Journal.page w)
  /\ Journal.lostStreams w = 0
  /\ Journal.asked w <= 1.
Proof.
  intros Hp. cbn zeta.
  assert (H0 : recorderInSync
                 (Journal.page (Journal.arrived toLocaleString history))).
  { unfold Journal.arrived, Journal.opened. cbn [Journal.page].
    destruct history as [m|[] [entries|m]]; apply recorderInSync_initial. }
  assert (H : forall ms w,
             recorderInSync (Journal.page w) ->
             Journal.asked w = 0
             \/ (Journal.asked w = 1
                 /\ Journal.mediaRecorder (Journal.page w)
                    <> Some Journal.Recording) ->
             patient toLocaleString ms w = true ->
             let w' := Journal.moments toLocaleString ms w in
             recorderInSync (Journal.page w')
             /\ Journal.lostStreams w' = Journal.lostStreams w
             /\ Journal.asked w' <= 1).
  { clear. induction ms as [|m ms IH]; intros w Hs Ha Hp; cbn zeta.
    - cbn. split; [done|]. split; [done|]. destruct Ha as [->|[-> _]]; lia.
    - cbn [patient] in Hp. apply andb_true_iff in Hp as [Hm Hp].
      assert (Hm' : match m with
                    | Journal.Click
                    | Journal.Meanwhile (Journal.ClickRecord _) =>
                        Journal.asked w = 0
                    | _ => True
                    end).
      { destruct m as [|stream|[]]; try done; by apply Nat.eqb_eq. }
      destruct (patient_moment toLocaleString m w Hs Ha Hm') as (Hs' & Hl & Ha').
      unfold Journal.moments. cbn [fold_left].
      destruct (IH _ Hs' Ha' Hp) as (? & Hl' & ?).
      split; [done|]. split; [|done]. unfold Journal.moments in Hl'. congruence. }
  apply (H ms _ H0); [by left|done].
Qed.

Lemma recorder_stays_in_sync_witness :
  let ms := [Journal.Click; Journal.Meanwhile Journal.Tick;
             Journal.Answer (Ok tt); Journal.Meanwhile Journal.Tick;
             Journal.Meanwhile (Journal.DataAvailable 7); Journal.Click;
             Journal.Meanwhile Journal.Stopped; Journal.Click;
             Journal.Answer (Throw (str "Permission denied"));
             Journal.Meanwhile (Journal.ClickRecord (Ok tt))] in
  let start := Journal.arrived (fun t => t) (FetchRejected (str "offline")) in
  patient (fun t => t) ms start = true
  /\ let w := Journal.moments (fun t => t) ms start in
     recorderInSync (Journal.page w)
     /\ Journal.lostStreams w = 0
     /\ Journal.asked w <= 1.
Proof.
  intros ms start.
  assert (H : patient (fun t => t) ms start = true) by (vm_compute; reflexivity).
  split; [exact H|].
  exact (recorder_stays_in_sync (fun t => t) (FetchRejected (str "offline")) ms H).
Defined.

Lemma journal_run_app (toLocaleString : jstring -> jstring)
    (es1 es2 : list Journal.Event) (p : Journal.Page) :
  Journal.run toLocaleString (es1 ++ es2) p
  = Journal.run toLocaleString es2 (Journal.run toLocaleString es1 p).
Proof. apply fold_left_app. Qed.

Lemma repeat_snoc {A} (x : A) (k : nat) : repeat x (S k) = repeat x k ++ [x].
Proof. induction k as [|k IH]; [done|]. simpl in *. by rewrite <- IH. Qed.

(** X17.  A recording that starts counts its seconds from zero: after [k]
    ticks of the timer the count is [k] and, from the first tick on, the
    time shown is the text of [k]; until that first tick the page still
    shows the time the previous recording ended with. *)
Theorem recording_counts_from_zero (toLocaleString : jstring -> jstring)
    (p : Journal.Page) (k : nat) :
  Journal.mediaRecorder p <> Some Journal.Recording ->
  let q :=
    Journal.run toLocaleString
      (Journal.ClickRecord (Ok tt) :: repeat Journal.Tick k) p in
  Journal.mediaRecorder q = Some Journal.Recording
  /\ Journal.recordingSeconds q = k
  /\ Journal.recordingTime q
     = match k with
       | 0 => Journal.recordingTime p
       | S _ => Journal.timeText k
       end.
Proof.
  intros Hr. cbn zeta. induction k as [|k IH].
  - unfold Journal.run. cbn [repeat fold_left Journal.step].
    unfold Journal.clickRecord.
    by destruct (Journal.mediaRecorder p) as [[]|].
  - rewrite repeat_snoc, app_comm_cons, journal_run_app.
    destruct IH as (H1 & H2 & H3).
    set (q := Journal.run toLocaleString
                (Journal.ClickRecord (Ok tt) :: repeat Journal.Tick k) p) in *.
    assert (Hlive : 0 < Journal.liveTimers q).
    { unfold q, Journal.run. cbn [fold_left Journal.step].
      unfold Journal.clickRecord.
      assert (Hs : 0 < Journal.liveTimers (Journal.startRecording (Ok tt) p))
        by (cbn; lia).
      destruct (Journal.mediaRecorder p) as [[]|]; try done;
        revert Hs; generalize (Journal.startRecording (Ok tt) p); clear;
        induction k as [|k IH]; intros p0 Hs; try done; cbn [repeat fold_left];
        apply IH; cbn [Journal.step];
        destruct (0 <? Journal.liveTimers p0); done. }
    clearbody q. unfold Journal.run. cbn [fold_left Journal.step].
    apply Nat.ltb_lt in Hlive. rewrite Hlive. cbn.
    rewrite H2. by repeat split.
Qed.

Lemma recording_counts_from_zero_witness :
  let p := Journal.initial in
  Journal.mediaRecorder p <> Some Journal.Recording
  /\ let q :=
       Journal.run (fun t => t)
         (Journal.ClickRecord (Ok tt) :: repeat Journal.Tick 75) p in
     Journal.mediaRecorder q = Some Journal.Recording
     /\ Journal.recordingSeconds q = 75
     /\ Journal.recordingTime q = Journal.timeText 75.
Proof.
  intros p.
  assert (H : Journal.mediaRecorder p <> Some Journal.Recording) by discriminate.
  split; [exact H|].
  exact (recording_counts_from_zero (fun t => t) p 75 H).
Defined.

(** X18.  Every click on the submit button of the journal is answered by
    exactly one alert.  A text that is blank gets the prompt and is not
    sent; a text that is not blank is sent trimmed; it is cleared from the
    textarea and the history is reloaded exactly when the request went
    through with a body that parses, otherwise the failure is reported and
    the text and the history stay as they are. *)
Theorem journal_submit_feedback (toLocaleString : jstring -> jstring)
    (reply : Fetched unit) (history : Fetched (list Journal.Entry))
    (p : Journal.Page) :
  let text := trim (Journal.journalText p) in
  let p' := Journal.clickSubmit toLocaleString reply history p in
  length (Journal.alerts p') = S (length (Journal.alerts p))
  /\ (text = [] ->
      p' = Journal.alert (str "Please enter some text for your journal entry.") p
      /\ Journal.postedTexts p' = Journal.postedTexts p
      /\ Journal.journalText p' = Journal.journalText p)
  /\ (text <> [] ->
      Journal.postedTexts p' = Journal.postedTexts p ++ [text]
      /\ trimmed text
      /\ if Journal.saved reply then
           Journal.journalText p' = []
           /\ Journal.alerts p'
              = Journal.alerts p ++ [str "Journal entry saved successfully!"]
           /\ Journal.journalHistory p'
              = Journal.journalHistory
                  (Journal.loadJournalHistory toLocaleString history p)
         else
           Journal.journalText p' = Journal.journalText p
           /\ Journal.alerts p'
              = Journal.alerts p
                ++ [str "Failed to save journal entry. Please try again."]
           /\ Journal.journalHistory p' = Journal.journalHistory p).
Proof.
  cbn zeta. unfold Journal.clickSubmit.
  destruct (trim (Journal.journalText p)) as [|c t] eqn:Et; cbn [truthy negb].
  - split; [cbn; rewrite length_app; simpl; lia|]. by split.
  - assert (Htr : trimmed (c :: t)) by (rewrite <- Et; apply trim_trimmed).
    destruct (Journal.saved reply).
    + destruct history as [m|[] [entries|m]]; cbn;
        (split; [rewrite length_app; simpl; lia|]); by split.
    + cbn. split; [rewrite length_app; simpl; lia|]. by split.
Qed.

(** X19.  The history of the journal shows the entries of the reply in
    their order, one block each: an entry is shown as text exactly when
    its type is "text", and any other or missing type gives an audio
    player with the entry's [audio_url] (printed "undefined" when it is
    missing).  A load that fails leaves the history as it was, and a load
    replaces the history: loading the same reply twice shows it once. *)
Theorem journal_history_rendering (toLocaleString : jstring -> jstring)
    (reply : Fetched (list Journal.Entry)) (p : Journal.Page) :
  let p' := Journal.loadJournalHistory toLocaleString reply p in
  (forall entries,
     reply = FetchResponse true (Ok entries) ->
     length (Journal.journalHistory p') = length entries
     /\ forall i e,
          entries !! i = Some e ->
          exists b,
            Journal.journalHistory p' !! i = Some b
            /\ Journal.time b = toLocaleString (Journal.timestamp e)
            /\ Journal.badge b = display (Journal.type e)
            /\ (Journal.type e = Some (str "text") ->
                Journal.body b
                = Journal.EntryContent (display (Journal.content e))
                /\ Journal.badgeClass b = str "bg-primary")
            /\ (Journal.type e <> Some (str "text") ->
                Journal.body b = Journal.Audio (display (Journal.audio_url e))
                /\ Journal.badgeClass b = str "bg-info"))
  /\ (Journal.saved reply = false -> p' = p)
  /\ Journal.loadJournalHistory toLocaleString reply p' = p'.
Proof.
  cbn zeta. split; [|split].
  - intros entries ->. cbn. split; [apply length_map|].
    intros i e Hi. exists (Journal.renderEntry toLocaleString e).
    split; [by rewrite list_lookup_fmap, Hi|].
    unfold Journal.renderEntry.
    cbn [Journal.time Journal.badge Journal.body Journal.badgeClass].
    split; [done|]. split; [done|]. split.
    + intros ->. by rewrite eqs_refl.
    + intros Hne. destruct (Journal.type e) as [t|]; [|split; reflexivity].
      destruct (eqs t (str "text")) eqn:E; [|split; reflexivity].
      apply eqs_spec in E. subst t. by destruct Hne.
  - by destruct reply as [m|[] [entries|m]].
  - by destruct reply as [m|[] [entries|m]].
Qed.

Lemma journal_chunks_arrive (toLocaleString : jstring -> jstring)
    (chunks : list nat) (p : Journal.Page) :
  let q := Journal.run toLocaleString (map Journal.DataAvailable chunks) p in
  Journal.mediaRecorder q = Journal.mediaRecorder p
  /\ Journal.audioChunks q = Journal.audioChunks p ++ chunks
  /\ Journal.postedAudio q = Journal.postedAudio p
  /\ Journal.recordedAudio q = Journal.recordedAudio p.
Proof.
  cbn zeta. revert p. induction chunks as [|c chunks IH]; intros p.
  - cbn. by rewrite app_nil_r.
  - unfold Journal.run in *. cbn [map fold_left Journal.step].
    destruct (IH (Journal.ondataavailable c p)) as (H1 & H2 & H3 & H4).
    rewrite H1, H2, H3, H4.
    cbn [Journal.ondataavailable Journal.mediaRecorder Journal.audioChunks
         Journal.postedAudio Journal.recordedAudio].
    by rewrite <- app_assoc.
Qed.

Lemma clickSave_audio (toLocaleString : jstring -> jstring)
    (reply : Fetched unit) (history : Fetched (list Journal.Entry))
    (p : Journal.Page) :
  let p' := Journal.clickSave toLocaleString reply history p in
  Journal.audioChunks p' = Journal.audioChunks p
  /\ Journal.postedAudio p' = Journal.postedAudio p ++ [Journal.audioChunks p].
Proof.
  cbn zeta. unfold Journal.clickSave.
  destruct (Journal.saved reply); [|done].
  unfold Journal.loadJournalHistory.
  by destruct history as [m|[] [entries|m]].
Qed.

(** X20.  What the save button sends is the recording made last: the
    chunks that arrived since the recording started, those that arrive
    after the click that stops it included, and none of an earlier
    recording; the preview plays the same chunks.  Saving does not clear
    them, so a second click on save sends the recording again, and after
    a click on discard the save button sends an empty recording. *)
Theorem saved_recording_is_the_latest (toLocaleString : jstring -> jstring)
    (p : Journal.Page) (before after : list nat) (stream : Result unit)
    (r1 r2 : Fetched unit) (h1 h2 : Fetched (list Journal.Entry)) :
  Journal.mediaRecorder p <> Some Journal.Recording ->
  let q :=
    Journal.run toLocaleString
      (Journal.ClickRecord (Ok tt)
       :: map Journal.DataAvailable before
       ++ Journal.ClickRecord stream
       :: map Journal.DataAvailable after
       ++ [Journal.Stopped]) p in
  Journal.recordedAudio q = Some (before ++ after)
  /\ Journal.postedAudio (Journal.run toLocaleString [Journal.ClickSave r1 h1] q)
     = Journal.postedAudio p ++ [before ++ after]
  /\ Journal.postedAudio
       (Journal.run toLocaleString
          [Journal.ClickSave r1 h1; Journal.ClickSave r2 h2] q)
     = Journal.postedAudio p ++ [before ++ after; before ++ after]
  /\ Journal.postedAudio
       (Journal.run toLocaleString
          [Journal.ClickDiscard; Journal.ClickSave r1 h1] q)
     = Journal.postedAudio p ++ [[]].
Proof.
  intros Hr. cbn zeta.
  set (p1 := Journal.clickRecord (Ok tt) p).
  assert (Hp1 : Journal.mediaRecorder p1 = Some Journal.Recording
                /\ Journal.audioChunks p1 = []
                /\ Journal.postedAudio p1 = Journal.postedAudio p).
  { unfold p1, Journal.clickRecord.
    by destruct (Journal.mediaRecorder p) as [[]|]. }
  destruct Hp1 as (Hm1 & Ha1 & Hs1).
  set (p2 := Journal.run toLocaleString (map Journal.DataAvailable before) p1).
  destruct (journal_chunks_arrive toLocaleString before p1) as (Hm2 & Ha2 & Hs2 & _).
  fold p2 in Hm2, Ha2, Hs2. rewrite Hm1 in Hm2. rewrite Ha1 in Ha2.
  rewrite Hs1 in Hs2. cbn [app] in Ha2.
  set (p3 := Journal.clickRecord stream p2).
  assert (Hp3 : Journal.audioChunks p3 = before
                /\ Journal.postedAudio p3 = Journal.postedAudio p).
  { unfold p3, Journal.clickRecord, Journal.stopRecording. rewrite Hm2.
    cbn [Journal.audioChunks Journal.postedAudio]. by rewrite Ha2, Hs2. }
  destruct Hp3 as (Ha3 & Hs3).
  set (p4 := Journal.run toLocaleString (map Journal.DataAvailable after) p3).
  destruct (journal_chunks_arrive toLocaleString after p3) as (_ & Ha4 & Hs4 & _).
  fold p4 in Ha4, Hs4. rewrite Ha3 in Ha4. rewrite Hs3 in Hs4.
  set (q := Journal.onstop p4).
  assert (Hq : Journal.run toLocaleString
                 (Journal.ClickRecord (Ok tt)
                  :: map Journal.DataAvailable before
                  ++ Journal.ClickRecord stream
                  :: map Journal.DataAvailable after
                  ++ [Journal.Stopped]) p = q).
  { change (Journal.ClickRecord (Ok tt)
            :: map Journal.DataAvailable before
            ++ Journal.ClickRecord stream
            :: map Journal.DataAvailable after ++ [Journal.Stopped])
      with ([Journal.ClickRecord (Ok tt)]
            ++ map Journal.DataAvailable before
            ++ [Journal.ClickRecord stream]
            ++ map Journal.DataAvailable after ++ [Journal.Stopped]).
    by rewrite !journal_run_app. }
  rewrite Hq.
  assert (Hqa : Journal.audioChunks q = before ++ after) by exact Ha4.
  assert (Hqs : Journal.postedAudio q = Journal.postedAudio p) by exact Hs4.
  assert (Hqr : Journal.recordedAudio q = Some (before ++ after)).
  { unfold q. cbn [Journal.onstop Journal.recordedAudio]. by rewrite Ha4. }
  clearbody q. clear - Hqa Hqs Hqr.
  split; [exact Hqr|]. unfold Journal.run. cbn [fold_left Journal.step].
  destruct (clickSave_audio toLocaleString r1 h1 q) as (Hc1 & Hd1).
  destruct (clickSave_audio toLocaleString r2 h2
              (Journal.clickSave toLocaleString r1 h1 q)) as (_ & Hd2).
  destruct (clickSave_audio toLocaleString r1 h1 (Journal.clickDiscard q))
    as (_ & Hd3).
  split; [by rewrite Hd1, Hqa, Hqs|]. split.
  - rewrite Hd2, Hc1, Hd1, Hqa, Hqs. by rewrite <- app_assoc.
  - rewrite Hd3. cbn [Journal.clickDiscard Journal.audioChunks
                      Journal.postedAudio]. by rewrite Hqs.
Qed.

Lemma saved_recording_is_the_latest_witness :
  let p := Journal.run (fun t => t)
             [Journal.ClickRecord (Ok tt); Journal.DataAvailable 7;
              Journal.ClickRecord (Ok tt); Journal.Stopped] Journal.initial in
  Journal.mediaRecorder p <> Some Journal.Recording
  /\ let q :=
       Journal.run (fun t => t)
         (Journal.ClickRecord (Ok tt)
          :: map Journal.DataAvailable [1; 2]
          ++ Journal.ClickRecord (Ok tt)
          :: map Journal.DataAvailable [3]
          ++ [Journal.Stopped]) p in
     Journal.recordedAudio q = Some [1; 2; 3]
     /\ Journal.postedAudio
          (Journal.run (fun t => t)
             [Journal.ClickSave (FetchResponse true (Ok tt)) (FetchRejected [])] q)
        = [[1; 2; 3]].
Proof.
  intros p.
  assert (H : Journal.mediaRecorder p <> Some Journal.Recording) by discriminate.
  split; [exact H|].
  pose proof (saved_recording_is_the_latest (fun t => t) p [1; 2] [3] (Ok tt)
                (FetchResponse true (Ok tt)) (FetchResponse true (Ok tt))
                (FetchRejected []) (FetchRejected []) H) as (H1 & H2 & _).
  split; [exact H1|exact H2].
Defined.

(** ** Clicks while the page waits for the microphone *)

Lemma journal_moments_app (toLocaleString : jstring -> jstring)
    (ms1 ms2 : list Journal.Moment) (w : Journal.Waiting) :
  Journal.moments toLocaleString (ms1 ++ ms2) w
  = Journal.moments toLocaleString ms2 (Journal.moments toLocaleString ms1 w).
Proof. apply fold_left_app. Qed.

Lemma recorderShown_initial : recorderShown Journal.initial.
Proof.
  split; [done|]. split; [intros H; discriminate H|]. repeat split. by right.
Qed.

Lemma recorderShown_startRecording (stream : Result unit) (p : Journal.Page) :
  recorderShown p ->
  recorderShown (Journal.startRecording stream p)
  /\ leakedTimers p <= leakedTimers (Journal.startRecording stream p).
Proof.
  intros Hp. destruct stream as [[]|m]; [|by split].
  destruct Hp as (Hheld & Hlive & Hlabel & Hbutton & Hstatus & Htime).
  unfold recorderShown, leakedTimers in *. cbn.
  destruct (Journal.mediaRecorder p) as [[]|];
    rewrite Hbutton, Hstatus; (split; [|lia]);
    repeat split; try done; try lia; by left.
Qed.

Lemma recorderShown_stopRecording (p : Journal.Page) :
  recorderShown p ->
  recorderShown (Journal.stopRecording p)
  /\ leakedTimers p <= leakedTimers (Journal.stopRecording p).
Proof.
  intros Hp. unfold Journal.stopRecording.
  destruct (Journal.mediaRecorder p) as [[]|] eqn:Er; [by split| |by split].
  destruct Hp as (Hheld & Hlive & Hlabel & Hbutton & Hstatus & Htime).
  unfold recorderShown, leakedTimers in *. rewrite Er in *. cbn.
  rewrite Hbutton, Hstatus, Hheld. specialize (Hlive Hheld).
  split; [|lia]. by repeat split.
Qed.

Lemma recorderShown_step (toLocaleString : jstring -> jstring)
    (e : Journal.Event) (p : Journal.Page) :
  recorderShown p ->
  recorderShown (Journal.step toLocaleString e p)
  /\ leakedTimers p <= leakedTimers (Journal.step toLocaleString e p).
Proof.
  intros Hp. destruct e; cbn [Journal.step]; try by split.
  - unfold Journal.clickRecord.
    destruct (Journal.mediaRecorder p) as [[]|];
      by first [apply recorderShown_startRecording
               |apply recorderShown_stopRecording].
  - destruct (0 <? Journal.liveTimers p); [|by split].
    destruct Hp as (Hheld & Hlive & Hlabel & Hbutton & Hstatus & Htime).
    unfold recorderShown, leakedTimers in *. cbn.
    split; [|lia]. repeat split; try done. by right.
  - unfold Journal.clickSave.
    destruct (Journal.saved reply); [|by split].
    by destruct history as [m|[] [entries|m]].
  - unfold Journal.clickSubmit.
    destruct (negb (truthy (trim (Journal.journalText p)))); [by split|].
    destruct (Journal.saved reply); [|by split].
    by destruct history as [m|[] [entries|m]].
Qed.

Lemma journal_ticks_count (toLocaleString : jstring -> jstring) (k : nat)
    (w : Journal.Waiting) :
  1 <= Journal.liveTimers (Journal.page w) ->
  let v := Journal.moments toLocaleString
             (repeat (Journal.Meanwhile Journal.Tick) k) w in
  Journal.recordingSeconds (Journal.page v)
  = Journal.recordingSeconds (Journal.page w) + k
  /\ Journal.liveTimers (Journal.page v) = Journal.liveTimers (Journal.page w).
Proof.
  cbn zeta. revert w. induction k as [|k IH]; intros w Hw.
  - unfold Journal.moments. cbn [repeat fold_left]. split; [lia|done].
  - unfold Journal.moments in *. cbn [repeat fold_left].
    set (w1 := Journal.moment toLocaleString (Journal.Meanwhile Journal.Tick) w).
    assert (H1 : Journal.recordingSeconds (Journal.page w1)
                 = S (Journal.recordingSeconds (Journal.page w))
                 /\ Journal.liveTimers (Journal.page w1)
                    = Journal.liveTimers (Journal.page w)).
    { unfold w1. cbn [Journal.moment Journal.page Journal.step].
      apply Nat.ltb_lt in Hw. by rewrite Hw. }
    destruct H1 as [Hs Hl]. destruct (IH w1) as [-> ->]; [lia|].
    split; lia.
Qed.

(** Whatever happens, what the page shows agrees with the recorder the
    script holds, and neither a timer nor a stream that was lost is ever
    recovered. *)
Lemma moments_never_recover (toLocaleString : jstring -> jstring)
    (ms : list Journal.Moment) (w : Journal.Waiting) :
  recorderShown (Journal.page w) ->
  let w' := Journal.moments toLocaleString ms w in
  recorderShown (Journal.page w')
  /\ leakedTimers (Journal.page w) <= leakedTimers (Journal.page w')
  /\ Journal.lostStreams w <= Journal.lostStreams w'.
Proof.
  cbn zeta. revert w. induction ms as [|m ms IH]; intros w Hw.
  - unfold Journal.moments. cbn [fold_left]. split; [exact Hw|]. split; lia.
  - unfold Journal.moments in *. cbn [fold_left].
    assert (Hm : recorderShown (Journal.page (Journal.moment toLocaleString m w))
                 /\ leakedTimers (Journal.page w)
                    <= leakedTimers (Journal.page (Journal.moment toLocaleString m w))
                 /\ Journal.lostStreams w
                    <= Journal.lostStreams (Journal.moment toLocaleString m w)).
    { destruct m as [|stream|e]; cbn [Journal.moment].
      - pose proof (recorderShown_stopRecording (Journal.page w) Hw) as [? ?].
        destruct (Journal.mediaRecorder (Journal.page w)) as [[]|];
          cbn [Journal.page Journal.lostStreams];
          (split; [done|]); split; first [done | lia].
      - pose proof (recorderShown_startRecording stream (Journal.page w) Hw)
          as [? ?].
        destruct (Journal.asked w); [split; [done|]; split; lia|].
        cbn [Journal.page Journal.lostStreams]. split; [done|]. split; [done|].
        destruct stream; destruct (Journal.mediaRecorder (Journal.page w))
          as [[]|]; lia.
      - pose proof (recorderShown_step toLocaleString e (Journal.page w) Hw)
          as [? ?].
        cbn [Journal.page Journal.lostStreams]. split; [done|]. split; [done|lia]. }
    destruct Hm as (Hs & Hl & Hn). destruct (IH _ Hs) as (? & ? & ?).
    split; [done|]. split; lia.
Qed.

(** X27.  The record button is not disabled while [startRecording] waits
    for the microphone.  In any order of clicks and answers the button,
    the status line and the time shown agree with the recorder the script
    holds.  But two clicks before the first answer start two recorders
    and two timers, of which the script keeps only the second: after the
    click that stops the recording the button reads "Start Recording",
    while one timer still fires and counts the seconds on, and one stream
    still has its tracks live; nothing that happens later stops that
    timer or that stream. *)
Theorem second_click_leaks_a_timer (toLocaleString : jstring -> jstring)
    (history : Fetched (list Journal.Entry)) (ms later : list Journal.Moment)
    (k : nat) :
  let start := Journal.arrived toLocaleString history in
  let twice := [Journal.Click; Journal.Click; Journal.Answer (Ok tt);
                Journal.Answer (Ok tt); Journal.Click] in
  let w := Journal.moments toLocaleString twice start in
  recorderShown (Journal.page (Journal.moments toLocaleString ms start))
  /\ Journal.mediaRecorder (Journal.page w) = Some Journal.Inactive
  /\ Journal.recordButtonLabel (Journal.page w) = Journal.START_LABEL
  /\ Journal.liveTimers (Journal.page w) = 1
  /\ Journal.timerHeld (Journal.page w) = false
  /\ Journal.lostStreams w = 1
  /\ Journal.recordingSeconds
       (Journal.page
          (Journal.moments toLocaleString
             (repeat (Journal.Meanwhile Journal.Tick) k) w)) = k
  /\ 1 <= leakedTimers
            (Journal.page (Journal.moments toLocaleString (twice ++ later) start))
  /\ 1 <= Journal.lostStreams
            (Journal.moments toLocaleString (twice ++ later) start).
Proof.
  cbn zeta.
  assert (H0 : recorderShown
                 (Journal.page (Journal.arrived toLocaleString history))).
  { unfold Journal.arrived, Journal.opened. cbn [Journal.page].
    destruct history as [m|[] [entries|m]]; apply recorderShown_initial. }
  set (twice := [Journal.Click; Journal.Click; Journal.Answer (Ok tt);
                 Journal.Answer (Ok tt); Journal.Click]).
  set (w := Journal.moments toLocaleString twice
              (Journal.arrived toLocaleString history)).
  assert (Hw : Journal.mediaRecorder (Journal.page w) = Some Journal.Inactive
               /\ Journal.recordButtonLabel (Journal.page w) = Journal.START_LABEL
               /\ Journal.liveTimers (Journal.page w) = 1
               /\ Journal.timerHeld (Journal.page w) = false
               /\ Journal.lostStreams w = 1
               /\ Journal.recordingSeconds (Journal.page w) = 0).
  { unfold w, twice, Journal.arrived, Journal.opened.
    by destruct history as [m|[] [entries|m]]. }
  destruct Hw as (Hrec & Hlabel & Hlive & Hheld & Hlost & Hsec).
  split; [by apply moments_never_recover|].
  do 5 (split; [done|]). split.
  - destruct (journal_ticks_count toLocaleString k w) as [-> _]; lia.
  - rewrite journal_moments_app. fold w.
    pose proof (moments_never_recover toLocaleString later w) as Hl.
    assert (Hshown : recorderShown (Journal.page w)).
    { unfold w. by apply moments_never_recover. }
    destruct (Hl Hshown) as (_ & Ht & Hs).
    assert (Hone : leakedTimers (Journal.page w) = 1).
    { unfold leakedTimers. by rewrite Hlive, Hheld. }
    rewrite Hone in Ht. rewrite Hlost in Hs. by split.
Qed.

(** ** The graph: React components and the D3 view *)

Lemma hasNode_spec (nodes : list GraphNode) (nodeId : jstring) :
  ForceGraph.hasNode nodes nodeId = true
  <-> exists d, In d nodes /\ node_id d = nodeId.
Proof.
  unfold ForceGraph.hasNode. rewrite existsb_exists.
  split; intros (d & Hd & He); exists d; (split; [done|]); by apply eqs_spec.
Qed.

(** The link force is set up without an exception exactly when every link
    starts and ends at a node. *)
Lemma initializeLinks_spec (ns : list GraphNode) (ls : list GraphLink) :
  match ForceGraph.initializeLinks ns ls with
  | Ok _ =>
      forall l, In l ls ->
        (exists d, In d ns /\ node_id d = link_source l)
        /\ (exists d, In d ns /\ node_id d = link_target l)
  | Throw _ =>
      ~ forall l, In l ls ->
          (exists d, In d ns /\ node_id d = link_source l)
          /\ (exists d, In d ns /\ node_id d = link_target l)
  end.
Proof.
  induction ls as [|l ls IH]; cbn [ForceGraph.initializeLinks]; [by intros ? []|].
  destruct (ForceGraph.hasNode ns (link_source l)) eqn:Es; cbn [negb].
  2:{ intros H. destruct (H l) as [Hs _]; [by left|].
      apply hasNode_spec in Hs. congruence. }
  destruct (ForceGraph.hasNode ns (link_target l)) eqn:Et; cbn [negb].
  2:{ intros H. destruct (H l) as [_ Ht]; [by left|].
      apply hasNode_spec in Ht. congruence. }
  apply hasNode_spec in Es, Et.
  destruct (ForceGraph.initializeLinks ns ls).
  - intros l' [<-|Hin]; [done|by apply IH].
  - intros H. apply IH. intros l' Hin. apply H. by right.
Qed.

Lemma effect_linked (g : GraphData) (svg : list (list SvgShape)) :
  nodes g = [] \/ linked g ->
  ForceGraph.effect g svg
  = Ok match nodes g with
       | [] => svg
       | _ :: _ =>
           [map (SvgLine (str "#999") (str "0.6")) (links g);
            map (fun d =>
                   SvgCircle 5 (str "#69b3a2") (textContent (node_label d)) d)
              (nodes g)]
       end.
Proof.
  intros H. unfold ForceGraph.effect.
  destruct (nodes g) as [|n ns] eqn:En; [done|].
  destruct H as [H|H]; [done|].
  pose proof (initializeLinks_spec (n :: ns) (links g)) as Hi.
  destruct (ForceGraph.initializeLinks (n :: ns) (links g)) as [[]|m]; [done|].
  destruct Hi. unfold linked in H. by rewrite En in H.
Qed.

(** X21.  The drawing of the React application follows the graphs it
    fetches, but only those with a node.  When every graph fetched has its
    links between its own nodes, or has no node: after any number of
    fetches the state holds the last graph that parsed, while the drawing
    is the one of the last graph with at least one node (two groups, a
    line for each link and a circle for each node), so a graph without
    nodes leaves the drawing of an earlier one on the page; a drawing
    replaces the one before and never adds to it. *)
Theorem app_drawing_follows_last_graph_with_nodes
    (replies : list (Fetched GraphData)) (st : App.State) :
  Forall (fun g => nodes g = [] \/ linked g) (parsedGraphs replies) ->
  let st' := fold_left (fun s r => App.fetchGraphData r s) replies st in
  App.graphData st' = default (App.graphData st) (last (parsedGraphs replies))
  /\ App.svg st'
     = match lastDrawn (parsedGraphs replies) None with
       | Some g =>
           [map (SvgLine (str "#999") (str "0.6")) (links g);
            map (fun d =>
                   SvgCircle 5 (str "#69b3a2") (textContent (node_label d)) d)
              (nodes g)]
       | None => App.svg st
       end.
Proof.
  intros Hall. cbn zeta.
  set (drawing := fun g : GraphData =>
         [map (SvgLine (str "#999") (str "0.6")) (links g);
          map (fun d =>
                 SvgCircle 5 (str "#69b3a2") (textContent (node_label d)) d)
            (nodes g)]).
  assert (H : forall replies st,
             Forall (fun g => nodes g = [] \/ linked g) (parsedGraphs replies) ->
             let st' := fold_left (fun s r => App.fetchGraphData r s) replies st in
             App.graphData st'
             = default (App.graphData st) (last (parsedGraphs replies))
             /\ (forall seen svg0,
                   App.svg st
                   = match seen with
                     | Some g => drawing g
                     | None => svg0
                     end ->
                   App.svg st'
                   = match lastDrawn (parsedGraphs replies) seen with
                     | Some g => drawing g
                     | None => svg0
                     end)).
  { clear. induction replies as [|r replies IH]; intros st Hall; cbn zeta.
    - cbn. split; [done|]. by intros seen svg0 H0.
    - cbn [fold_left].
      assert (Hcase : (exists ok g, r = FetchResponse ok (Ok g))
                      \/ (App.fetchGraphData r st = st
                          /\ parsedGraphs (r :: replies) = parsedGraphs replies)).
      { destruct r as [m|ok [g|m]]; [by right| |by right]. left. eauto. }
      destruct Hcase as [(ok & g & ->)|[Hst Hp]].
      + cbn [parsedGraphs flat_map app] in *. fold (parsedGraphs replies) in *.
        apply Forall_cons in Hall as [Hg Hall].
        destruct (IH (App.fetchGraphData (FetchResponse ok (Ok g)) st) Hall)
          as [Hd Hs].
        split.
        * rewrite Hd. cbn [App.fetchGraphData App.setGraphData App.graphData].
          rewrite last_cons. by destruct (last (parsedGraphs replies)).
        * intros seen svg0 H0. cbn [lastDrawn].
          apply Hs.
          cbn [App.fetchGraphData App.setGraphData App.svg].
          rewrite (effect_linked g (App.svg st) Hg).
          destruct (nodes g) as [|n ns] eqn:En; [exact H0|].
          unfold drawing. by rewrite En.
      + rewrite Hp in *. rewrite Hst. by apply IH. }
  destruct (H replies st Hall) as [Hg Hs]. split; [exact Hg|].
  by apply (Hs None (App.svg st)).
Qed.

Lemma app_drawing_follows_last_graph_with_nodes_witness :
  let a := {| node_id := str "a"; node_label := Some (str "Document");
              node_title := None; node_name := None |} in
  let b := {| node_id := str "b"; node_label := None;
              node_title := None; node_name := None |} in
  let g := {| nodes := [a; b];
              links := [{| link_source := str "a"; link_target := str "b" |}] |} in
  let none := {| nodes := []; links := [] |} in
  let replies := [FetchResponse true (Ok g); FetchRejected (str "Failed to fetch");
                  FetchResponse false (Ok none)] in
  Forall (fun g => nodes g = [] \/ linked g) (parsedGraphs replies)
  /\ let st' := fold_left (fun s r => App.fetchGraphData r s) replies App.initial in
     App.graphData st' = none
     /\ App.svg st'
        = [[SvgLine (str "#999") (str "0.6")
              {| link_source := str "a"; link_target := str "b" |}];
           [SvgCircle 5 (str "#69b3a2") (str "Document") a;
            SvgCircle 5 (str "#69b3a2") [] b]].
Proof.
  intros a b g none replies.
  assert (H : Forall (fun g => nodes g = [] \/ linked g) (parsedGraphs replies)).
  { change (parsedGraphs replies) with [g; none].
    apply Forall_cons. split; [right|by repeat constructor].
    intros l [<-|[]]. split; [exists a|exists b]; (split; [|done]); cbn; tauto. }
  split; [exact H|].
  exact (app_drawing_follows_last_graph_with_nodes replies App.initial H).
Defined.

(** X26.  What the effect of [ForceGraph] does with a graph: without nodes
    it leaves the drawing alone and does not throw, whatever the links
    are; with nodes and every link between nodes of the graph it draws the
    two groups in place of whatever was drawn; with nodes and a link that
    starts or ends at no node it throws, the simulation being set up
    before the drawing is touched. *)
Theorem force_graph_effect_outcome (g : GraphData) (svg : list (list SvgShape)) :
  match ForceGraph.effect g svg with
  | Ok drawn =>
      (nodes g = [] /\ drawn = svg)
      \/ (nodes g <> [] /\ linked g
          /\ drawn
             = [map (SvgLine (str "#999") (str "0.6")) (links g);
                map (fun d =>
                       SvgCircle 5 (str "#69b3a2") (textContent (node_label d)) d)
                  (nodes g)])
  | Throw _ => nodes g <> [] /\ ~ linked g
  end.
Proof.
  unfold ForceGraph.effect, linked.
  destruct (nodes g) as [|n ns] eqn:En; [by left|].
  pose proof (initializeLinks_spec (n :: ns) (links g)) as Hi.
  destruct (ForceGraph.initializeLinks (n :: ns) (links g)) as [[]|m];
    cbn [bindR].
  - right. split; [done|]. by split.
  - by split.
Qed.

(** X22.  The query form of the React application sends what is typed as
    it is, blank and untrimmed text included, where the chat page sends a
    trimmed question and no blank one.  It shows the [response] field of
    any body that parses, whatever the status and the error field are, so
    for an error reply without [response] it shows nothing where the chat
    page shows the error; it never raises an alert and never touches the
    graph, and a request that fails or a body that does not parse leaves
    the result of an earlier query on the page. *)
Theorem query_form_shows_response_only
    (query : jstring) (reply : Reply) (st : App.State) :
  let st' := QueryPanel.handleSubmit query reply st in
  App.queries st' = App.queries st ++ [query]
  /\ App.alerts st' = App.alerts st
  /\ App.graphData st' = App.graphData st
  /\ App.svg st' = App.svg st
  /\ App.queryResult st'
     = match reply with
       | Response _ _ (Ok data) => response data
       | _ => App.queryResult st
       end
  /\ (forall timestamp page,
        queryInput page = query ->
        posted (submitQuery timestamp reply page)
        = posted page ++ (if truthy (trim query) then [trim query] else []))
  /\ (forall timestamp page ok status data message,
        reply = Response ok status (Ok data) ->
        error data = Some message -> message <> [] -> response data = None ->
        ~ blank (queryInput page) ->
        App.queryResult st' = None
        /\ exists shown,
             chatHistory (submitQuery timestamp reply page)
             = chatHistory page
               ++ [UserMessage (trim (queryInput page)); ErrorMessage shown]).
Proof.
  cbn zeta. unfold QueryPanel.handleSubmit.
  split; [by destruct reply as [m|ok status [data|m]]|].
  split; [by destruct reply as [m|ok status [data|m]]|].
  split; [by destruct reply as [m|ok status [data|m]]|].
  split; [by destruct reply as [m|ok status [data|m]]|].
  split; [by destruct reply as [m|ok status [data|m]]|].
  split.
  - intros timestamp page <-.
    destruct (truthy (trim (queryInput page))) eqn:E.
    + rewrite submitQuery_sent; [|rewrite <- truthy_trim_blank; congruence].
      cbn zeta. by destruct (settle reply) as [[data cited]|m].
    + rewrite submitQuery_blank; [by rewrite app_nil_r|by apply truthy_trim_blank].
  - intros timestamp page ok status data message -> He Hne Hr Hb.
    split; [done|]. rewrite submitQuery_sent by done. cbn zeta.
    assert (Ht : truthyField (error data) = true).
    { rewrite He. by destruct message. }
    destruct ok; cbn [settle negb bindR]; [rewrite Ht|]; eauto.
Qed.

(** X23.  The upload form of the React application changes the graph only
    after a response with an [ok] status, and then shows the success
    alert whatever the body says; a response with another status gives
    the alert [Error: ] followed by the [error] field of the body, printed
    "undefined" when the field is missing, and a rejected request or a
    body that does not parse gives no alert at all.  The upload form of
    the chat page reads the same reply the other way round: it ignores
    the status and reports the [error] field of the body. *)
Theorem document_upload_outcome
    (file : option jstring) (reply : Fetched Upload.Data)
    (graph : Fetched GraphData) (st : App.State) :
  let st' := DocumentUpload.handleSubmit file reply graph st in
  App.uploads st' = App.uploads st ++ [file]
  /\ App.queryResult st' = App.queryResult st
  /\ (App.graphData st' <> App.graphData st \/ App.svg st' <> App.svg st ->
      exists json, reply = FetchResponse true json)
  /\ App.alerts st'
     = App.alerts st
       ++ match reply with
          | FetchResponse true _ => [str "Document uploaded successfully!"]
          | FetchResponse false (Ok data) =>
              [str "Error: " ++ display (Upload.error data)]
          | _ => []
          end
  /\ (forall message doc f name rest,
        message <> [] ->
        reply = FetchResponse true
                  (Ok {| Upload.error := Some message; Upload.doc_info := doc |}) ->
        Upload.files f = name :: rest ->
        App.alerts st' = App.alerts st ++ [str "Document uploaded successfully!"]
        /\ Upload.statusText (Upload.submit reply f) = str "Error: " ++ message).
Proof.
  cbn zeta. unfold DocumentUpload.handleSubmit.
  assert (Hfetch : forall s,
             App.uploads (App.fetchGraphData graph s) = App.uploads s
             /\ App.queryResult (App.fetchGraphData graph s) = App.queryResult s
             /\ App.alerts (App.fetchGraphData graph s) = App.alerts s).
  { intros s. by destruct graph as [m|ok [g|m]]. }
  split; [|split; [|split; [|split]]].
  - destruct reply as [m|[] [data|m]]; try done; by rewrite (proj1 (Hfetch _)).
  - destruct reply as [m|[] [data|m]]; try done;
      by rewrite (proj1 (proj2 (Hfetch _))).
  - destruct reply as [m|[] [data|m]]; cbn; eauto; intros [H|H]; by destruct H.
  - destruct reply as [m|[] [data|m]]; cbn [App.alert App.alerts];
      rewrite ?(proj2 (proj2 (Hfetch _))); cbn; by rewrite ?app_nil_r.
  - intros message doc f name rest Hne -> Hf. split.
    + rewrite (proj2 (proj2 (Hfetch _))). done.
    + unfold Upload.submit. rewrite Hf. cbn. by destruct message.
Qed.

(** X24.  In the D3 view every node of the fetched graph gets one circle
    and every link one line; a circle is green exactly when the label of
    its node is "Document" and blue otherwise, and its tooltip is the
    title of the node when that is a string that is not empty, else its
    name, else empty.  Nothing is drawn when the request fails or the body
    does not parse. *)
Theorem graph_view_circles (reply : Fetched GraphData) :
  (forall ok graph,
     reply = FetchResponse ok (Ok graph) ->
     exists lines circles,
       GraphView.updateGraph reply = [lines; circles]
       /\ length lines = length (links graph)
       /\ length circles = length (nodes graph)
       /\ forall i d,
            nodes graph !! i = Some d ->
            exists fill tip,
              circles !! i = Some (SvgCircle 5 fill tip d)
              /\ (fill = str "#4CAF50" <-> node_label d = Some (str "Document"))
              /\ (fill = str "#4CAF50" \/ fill = str "#2196F3")
              /\ tip
                 = match node_title d with
                   | Some (c :: t) => c :: t
                   | _ => default [] (node_name d)
                   end)
  /\ ((forall ok graph, reply <> FetchResponse ok (Ok graph)) ->
      GraphView.updateGraph reply = []).
Proof.
  split.
  - intros ok graph ->. eexists _, _. split; [reflexivity|].
    split; [apply length_map|]. split; [apply length_map|].
    intros i d Hd. eexists _, _. split; [by rewrite list_lookup_fmap, Hd|].
    unfold GraphView.fill, GraphView.tooltip, textContent. split; [|split].
    + destruct (node_label d) as [l|]; [|by split].
      destruct (eqs l (str "Document")) eqn:E.
      * apply eqs_spec in E. by subst l.
      * split; [done|]. intros [= ->]. by rewrite eqs_refl in E.
    + destruct (node_label d) as [l|]; [|by right].
      destruct (eqs l (str "Document")); [by left|by right].
    + by destruct (node_title d) as [[|c t]|].
  - intros H. destruct reply as [m|ok [g|m]]; try done. by destruct (H ok g).
Qed.

(** X25.  A drag gesture in the D3 view, whatever its moves: while it
    lasts the node is pinned, first where it was and then at the pointer
    of the last move, and when it ends the node is free again ([fx] and
    [fy] are null).  When no other gesture is under way the simulation is
    restarted once with its target raised, and the target is back at zero
    at the end; when another gesture is under way at both ends the
    simulation is left as it was. *)
Theorem drag_gesture_unpins (coord : Type)
    (start finish : GraphView.DragEvent coord)
    (moves : list (GraphView.DragEvent coord))
    (sim : GraphView.Simulation) (subject : GraphView.Datum coord) :
  let during :=
    fold_left
      (fun s e => GraphView.dragged coord e (fst s) (snd s)) moves
      (GraphView.dragstarted coord start sim subject) in
  let after := GraphView.gesture coord start moves finish sim subject in
  GraphView.fx coord (snd during) = Some (fst (pinnedAt moves subject))
  /\ GraphView.fy coord (snd during) = Some (snd (pinnedAt moves subject))
  /\ GraphView.fx coord (snd after) = None
  /\ GraphView.fy coord (snd after) = None
  /\ (GraphView.active coord start = 0 ->
      GraphView.active coord finish = 0 ->
      fst after
      = {| GraphView.raised := false;
           GraphView.restarts := S (GraphView.restarts sim) |})
  /\ (GraphView.active coord start <> 0 ->
      GraphView.active coord finish <> 0 ->
      fst after = sim).
Proof.
  cbn zeta. unfold GraphView.gesture.
  set (s1 := GraphView.dragstarted coord start sim subject).
  assert (H : forall moves s,
             let s2 :=
               fold_left
                 (fun s e => GraphView.dragged coord e (fst s) (snd s)) moves s in
             fst s2 = fst s
             /\ GraphView.x coord (snd s2) = GraphView.x coord (snd s)
             /\ GraphView.y coord (snd s2) = GraphView.y coord (snd s)
             /\ GraphView.fx coord (snd s2)
                = match rev moves with
                  | e :: _ => Some (GraphView.pointerX coord e)
                  | [] => GraphView.fx coord (snd s)
                  end
             /\ GraphView.fy coord (snd s2)
                = match rev moves with
                  | e :: _ => Some (GraphView.pointerY coord e)
                  | [] => GraphView.fy coord (snd s)
                  end).
  { clear. intros moves. induction moves as [|e moves IH] using rev_ind;
      intros s; cbn zeta; [done|].
    rewrite fold_left_app, rev_app_distr. cbn.
    destruct (IH s) as (H1 & H2 & H3 & _). by repeat split. }
  destruct (H moves s1) as (H1 & H2 & H3 & H4 & H5).
  unfold pinnedAt. rewrite H4, H5.
  split; [by destruct (rev moves)|]. split; [by destruct (rev moves)|].
  unfold GraphView.dragended. cbn [snd fst GraphView.fx GraphView.fy
    GraphView.x GraphView.y]. rewrite H1.
  split; [done|]. split; [done|].
  unfold s1, GraphView.dragstarted. cbn [fst]. split.
  - by intros -> ->.
  - intros Hs Hf. destruct (GraphView.active coord start); [done|].
    by destruct (GraphView.active coord finish).
Qed.
